(** * Stripe synchronisation engine: a shallow embedding of
      [app/services/stripe_sync/stripe_sync.py]

    The engine mirrors Stripe objects into one PostgreSQL table per entity
    kind.  Python objects are modelled as a small universe of JSON-like
    values, the Stripe client as an oracle record, the PostgreSQL client as
    a pure store, and every engine method as a computation in a state and
    exception monad whose state is the store together with the sequence of
    API and database calls issued so far. *)

From Stdlib Require Import List String Ascii ZArith Bool Lia.
Import ListNotations.
Local Open Scope string_scope.
Local Open Scope list_scope.

Set Implicit Arguments.

(* ================================================================== *)
(** ** Python values *)
(* ================================================================== *)

(** Stripe objects are dictionaries (StripeObject subclasses dict).  A
    dictionary keeps insertion order, as Python's does. *)
#[warnings="-register-all"]
Inductive value : Type :=
| VNone
| VBool (b : bool)
| VInt (z : Z)
| VStr (s : string)
| VList (l : list value)
| VDict (d : list (string * value)).

Definition dict := list (string * value).

Fixpoint lookup_key (k : string) (d : dict) : option value :=
  match d with
  | [] => None
  | (k', v) :: d' => if String.eqb k k' then Some v else lookup_key k d'
  end.

(** [d.get(k)] *)
Definition py_get (d : dict) (k : string) : value :=
  match lookup_key k d with Some v => v | None => VNone end.

(** [d.get(k, default)] *)
Definition py_get_default (d : dict) (k : string) (default : value) : value :=
  match lookup_key k d with Some v => v | None => default end.

(** [{**d, k: v}] and [d[k] = v]: an existing key keeps its position. *)
Fixpoint set_key (k : string) (v : value) (d : dict) : dict :=
  match d with
  | [] => [(k, v)]
  | (k', v') :: d' =>
      if String.eqb k k' then (k, v) :: d' else (k', v') :: set_key k v d'
  end.

(** Truth value of an object in a condition. *)
Definition truthy (v : value) : bool :=
  match v with
  | VNone => false
  | VBool b => b
  | VInt z => negb (Z.eqb z 0)
  | VStr s => negb (String.eqb s "")
  | VList l => match l with [] => false | _ => true end
  | VDict d => match d with [] => false | _ => true end
  end.

Definition in_list (s : string) (l : list string) : bool :=
  existsb (String.eqb s) l.

(** [v in [s1, ..., sn]] for a list of string literals. *)
Definition value_in (v : value) (l : list string) : bool :=
  match v with VStr s => in_list s l | _ => false end.

(** [v == True]; Python identifies [1] and [True]. *)
Definition py_eq_True (v : value) : bool :=
  match v with
  | VBool b => b
  | VInt z => Z.eqb z 1
  | _ => false
  end.

(** [v == s] for a string [s]. *)
Definition py_eq_str (v : value) (s : string) : bool :=
  match v with VStr s' => String.eqb s' s | _ => false end.

(** [isinstance(v, dict)] together with the dictionary it denotes. *)
Definition as_dict (v : value) : option dict :=
  match v with VDict d => Some d | _ => None end.

Fixpoint dedup (l : list string) : list string :=
  match l with
  | [] => []
  | x :: l' => if in_list x l' then dedup l' else x :: dedup l'
  end.

(** Decimal rendering of an integer, for [str]. *)
Fixpoint digits (fuel : nat) (n : N) (acc : string) : string :=
  match fuel with
  | O => acc
  | S fuel' =>
      let acc' := String (ascii_of_N (48 + N.modulo n 10)) acc in
      if N.ltb n 10 then acc' else digits fuel' (N.div n 10) acc'
  end.

Definition str_of_int (z : Z) : string :=
  let n := Z.to_N (Z.abs z) in
  let body := digits (S (N.to_nat (N.log2 n))) n "" in
  if Z.ltb z 0 then String "-" body else body.

(* ================================================================== *)
(** ** Exceptions *)
(* ================================================================== *)

(** What [datetime.fromtimestamp] raises for a value outside the range
    the platform supports. *)
Inductive range_error : Type :=
| OverflowError
| OSError
| ValueError.

Inductive exn : Type :=
| InvalidRequestError (code : option string)
    (* stripe.error.InvalidRequestError, with its [code] attribute *)
| StripeError (name : string)
    (* any other exception raised by the Stripe client *)
| KeyError (key : string)
| AttributeError
| TypeError
| StoreError
    (* raised by the PostgreSQL client *)
| UnhandledWebhookEvent
    (* Exception('Unhandled webhook event') *)
| DatetimeError (e : range_error).
    (* raised by datetime.fromtimestamp *)

(* ================================================================== *)
(** ** The Stripe client and the clock *)
(* ================================================================== *)

Inductive resource : Type :=
| Charge | Customer | CheckoutSession | TaxId | Invoice | Product | Price
| Plan | SetupIntent | SubscriptionSchedule | PaymentMethod | Dispute
| PaymentIntent | CreditNote | EarlyFraudWarning | Refund | Review
| InvoicePayment | Subscription | Feature.

(** The listing calls the engine issues.  [ListObjects r created] is
    [r.list(limit=100[, created=...])]; the others list a sub-collection of
    one parent object. *)
Inductive list_call : Type :=
| ListObjects (r : resource) (created : value)
| ListRefunds (charge : value)
| ListCreditNoteLines (credit_note : value)
| ListInvoiceLines (invoice : value)
| ListSubscriptionItems (subscription : value)
| ListCheckoutSessionLineItems (session : value)
| ListPaymentMethods (customer : value)
| ListActiveEntitlements (customer : value).

(** A Stripe list object: its first page ([data]), what
    [auto_paging_iter] yields after it, and the error, if any, that the
    iterator raises once those are exhausted. *)
Record stripe_list : Type := {
  data : list dict;
  later_pages : list dict;
  paging_error : option exn
}.

Record stripe_api : Type := {
  retrieve : resource -> value -> exn + dict;
  list_objects : list_call -> exn + stripe_list;
  (* [str] of a list or dictionary; it depends on the object's class
     (StripeObject prints JSON) and is left to the client. *)
  object_str : value -> string
}.

Definition timestamp := Z.

(** [datetime.utcnow()] and [datetime.fromtimestamp], as naive instants;
    [isoformat] keeps their order.  [datetime.fromtimestamp] raises for a
    value outside the range the platform supports: [fromtimestamp_error]
    tells what, and [fromtimestamp] is the instant otherwise. *)
Record clock : Type := {
  utcnow : timestamp;
  fromtimestamp : Z -> timestamp;
  fromtimestamp_error : Z -> option range_error
}.

(* ================================================================== *)
(** ** Configuration and schemas *)
(* ================================================================== *)

(** StripeSyncConfig, restricted to the fields the engine's control flow
    reads.  [logger] records whether a logger is configured. *)
Record config : Type := {
  auto_expand_lists : option bool;
  backfill_related_entities : option bool;
  revalidate_objects_via_stripe_api : option (list string);
  logger : bool
}.

Definition customer_schema : list string :=
  ["id"; "object"; "address"; "description"; "email"; "metadata"; "name";
   "phone"; "shipping"; "balance"; "created"; "currency"; "default_source";
   "delinquent"; "discount"; "invoice_prefix"; "invoice_settings";
   "livemode"; "next_invoice_sequence"; "preferred_locales"; "tax_exempt"].

Definition customer_deleted_schema : list string := ["id"; "object"; "deleted"].

Definition product_schema : list string :=
  ["id"; "object"; "active"; "default_price"; "description"; "metadata";
   "name"; "created"; "images"; "marketing_features"; "livemode";
   "package_dimensions"; "shippable"; "statement_descriptor"; "unit_label";
   "updated"; "url"].

Definition subscription_item_schema : list string :=
  ["id"; "object"; "billing_thresholds"; "created"; "deleted"; "metadata";
   "quantity"; "price"; "subscription"; "tax_rates"; "current_period_end";
   "current_period_start"].

Definition active_entitlement_schema : list string :=
  ["id"; "object"; "feature"; "lookup_key"; "livemode"; "customer"].

Definition checkout_session_line_item_schema : list string :=
  ["id"; "object"; "amount_discount"; "amount_subtotal"; "amount_tax";
   "amount_total"; "currency"; "description"; "price"; "quantity";
   "checkout_session"].

Definition credit_note_schema : list string :=
  ["id"; "object"; "amount"; "amount_shipping"; "created"; "currency";
   "customer"; "customer_balance_transaction"; "discount_amount";
   "discount_amounts"; "invoice"; "lines"; "livemode"; "memo"; "metadata";
   "number"; "out_of_band_amount"; "pdf"; "reason"; "refund";
   "shipping_cost"; "status"; "subtotal"; "subtotal_excluding_tax";
   "tax_amounts"; "total"; "total_excluding_tax"; "type"; "voided_at"].

Definition early_fraud_warning_schema : list string :=
  ["id"; "object"; "actionable"; "charge"; "created"; "fraud_type";
   "livemode"; "payment_intent"].

Definition invoice_payment_schema : list string :=
  ["id"; "object"; "amount_paid"; "amount_requested"; "created";
   "currency"; "invoice"; "is_default"; "livemode"; "payment"; "status";
   "status_transitions"].

Definition payment_methods_schema : list string :=
  ["id"; "object"; "created"; "customer"; "type"; "billing_details";
   "metadata"; "card"].

Definition plan_schema : list string :=
  ["id"; "object"; "active"; "amount"; "created"; "product"; "currency";
   "interval"; "livemode"; "metadata"; "nickname"; "tiers_mode";
   "usage_type"; "billing_scheme"; "interval_count"; "aggregate_usage";
   "transform_usage"; "trial_period_days"].

Definition refund_schema : list string :=
  ["id"; "object"; "amount"; "balance_transaction"; "charge"; "created";
   "currency"; "destination_details"; "metadata"; "payment_intent";
   "reason"; "receipt_number"; "source_transfer_reversal"; "status";
   "transfer_reversal"].

Definition review_schema : list string :=
  ["id"; "object"; "billing_zip"; "created"; "charge"; "closed_reason";
   "livemode"; "ip_address"; "ip_address_location"; "open";
   "opened_reason"; "payment_intent"; "reason"; "session"].

Definition setup_intents_schema : list string :=
  ["id"; "object"; "created"; "customer"; "description"; "payment_method";
   "status"; "usage"; "cancellation_reason"; "latest_attempt"; "mandate";
   "single_use_mandate"; "on_behalf_of"].

Definition subscription_schedule_schema : list string :=
  ["id"; "object"; "application"; "canceled_at"; "completed_at"; "created";
   "current_phase"; "customer"; "default_settings"; "end_behavior";
   "livemode"; "metadata"; "phases"; "released_at";
   "released_subscription"; "status"; "subscription"; "test_clock";
   "billing_mode"].

Definition tax_id_schema : list string :=
  ["id"; "country"; "customer"; "type"; "value"; "object"; "created";
   "livemode"; "owner"].

(** The schema modules imported by [schemas/__init__.py] whose files are
    not part of the sources at hand; their field lists are parameters. *)
Record imported_schemas : Type := {
  charge_schema : list string;
  checkout_session_schema : list string;
  dispute_schema : list string;
  feature_schema : list string;
  invoice_schema : list string;
  payment_intent_schema : list string;
  price_schema : list string;
  subscription_schema : list string
}.

(* ================================================================== *)
(** ** The relational store *)
(* ================================================================== *)

(** One table per entity kind, named as in the engine's calls. *)
Inductive table : Type :=
| tbl_charges | tbl_credit_notes | tbl_checkout_sessions
| tbl_checkout_session_line_items | tbl_early_fraud_warnings | tbl_refunds
| tbl_reviews | tbl_customers | tbl_disputes | tbl_invoices
| tbl_invoice_payments | tbl_plans | tbl_prices | tbl_products
| tbl_payment_intents | tbl_payment_methods | tbl_setup_intents
| tbl_tax_ids | tbl_subscription_items | tbl_subscription_schedules
| tbl_subscriptions | tbl_features | tbl_active_entitlements.

Definition table_eq_dec (a b : table) : {a = b} + {a <> b}.
Proof. decide equality. Defined.

(** A stored row: primary key, projected columns, and the sync timestamp
    of the write that produced it. *)
Record row : Type := {
  row_id : string;
  row_fields : dict;
  last_synced_at : option timestamp
}.

Definition store := table -> list row.

Definition set_table (s : store) (t : table) (rows : list row) : store :=
  fun t' => if table_eq_dec t t' then rows else s t'.

Fixpoint find_row (id : string) (rows : list row) : option row :=
  match rows with
  | [] => None
  | r :: rows' => if String.eqb (row_id r) id then Some r else find_row id rows'
  end.

Definition has_row (rows : list row) (id : string) : bool :=
  match find_row id rows with Some _ => true | None => false end.

(** Modelled from the spec: the projection of section 4.1 ("a row
    containing exactly the schema's fields in order, substituting null for
    any field absent on the record"); the PostgreSQL client that performs
    it is not part of the sources. *)
Definition project (schema : list string) (e : dict) : dict :=
  map (fun f => (f, py_get e f)) schema.

Definition record_id (e : dict) : option string :=
  match lookup_key "id" e with
  | Some (VStr s) => Some s
  | _ => None
  end.

(** The stored timestamp is strictly newer than the supplied one. *)
Definition stored_is_newer (ts : option timestamp) (r : row) : bool :=
  match ts, last_synced_at r with
  | Some t2, Some t1 => Z.ltb t2 t1
  | _, _ => false
  end.

(** Insert-or-update of one row; the boolean tells whether the write was
    applied. *)
Fixpoint upsert_row (new : row) (ts : option timestamp) (rows : list row)
  : list row * bool :=
  match rows with
  | [] => ([new], true)
  | r :: rows' =>
      if String.eqb (row_id r) (row_id new)
      then if stored_is_newer ts r then (r :: rows', false)
           else (new :: rows', true)
      else let (rows'', applied) := upsert_row new ts rows' in
           (r :: rows'', applied)
  end.

Definition make_row (schema : list string) (ts : option timestamp)
  (e : dict) : option row :=
  match record_id e with
  | Some id =>
      Some {| row_id := id; row_fields := project schema e;
              last_synced_at := ts |}
  | None => None
  end.

Fixpoint make_rows (schema : list string) (ts : option timestamp)
  (entries : list dict) : option (list row) :=
  match entries with
  | [] => Some []
  | e :: entries' =>
      match make_row schema ts e, make_rows schema ts entries' with
      | Some r, Some rs => Some (r :: rs)
      | _, _ => None
      end
  end.

Fixpoint upsert_rows (news : list row) (ts : option timestamp)
  (rows : list row) : list row * list row :=
  match news with
  | [] => (rows, [])
  | n :: news' =>
      let (rows1, applied) := upsert_row n ts rows in
      let (rows2, written) := upsert_rows news' ts rows1 in
      (rows2, if applied then n :: written else written)
  end.

(** Modelled from the spec: [upsert_many] of section 4.2, the absent
    [PostgresClient.upsert_many_with_timestamp_protection].  "Idempotent
    bulk insert-or-update keyed by primary key; if sync_timestamp is
    supplied, the write is only applied when no existing row has a strictly
    newer stored timestamp (per-row comparison, not batch-wide)"; "a
    malformed or schema-violating record fails the whole batch write".  A
    record is malformed here when it has no string [id].  The result is
    the new table, or nothing when the batch is refused, with the rows that
    were written. *)
Definition upsert_many (entries : list dict) (schema : list string)
  (ts : option timestamp) (rows : list row) : option (list row * list row) :=
  match make_rows schema ts entries with
  | Some news => Some (upsert_rows news ts rows)
  | None => None
  end.

(** A row counts as soft-deleted when its [deleted] column is true. *)
Definition soft_deleted (r : row) : bool :=
  py_eq_True (py_get (row_fields r) "deleted").

(** Modelled from the spec: [find_missing_entries] of section 4.2,
    "set-difference between candidate IDs and IDs currently stored for that
    kind (ignoring soft-deleted rows)"; the method belongs to the absent
    PostgreSQL client. *)
Definition missing_entries (ids : list string) (rows : list row) : list string :=
  filter (fun id =>
            negb (existsb (fun r => String.eqb (row_id r) id && negb (soft_deleted r))
                          rows))
         ids.

(** Modelled from the spec: [delete] of section 4.2, "hard delete by
    primary key; returns whether a row was removed"; it belongs to the
    absent PostgreSQL client.  Keys are text, so an id that is not a string
    matches no row. *)
Definition row_has_id (id : value) (r : row) : bool := py_eq_str id (row_id r).

Definition delete_row (id : value) (rows : list row) : list row * bool :=
  (filter (fun r => negb (row_has_id id r)) rows, existsb (row_has_id id) rows).

(** SQL equality of a column with a parameter: NULL equals nothing. *)
Definition sql_eq (a b : value) : bool :=
  match a, b with
  | VStr x, VStr y => String.eqb x y
  | VInt x, VInt y => Z.eqb x y
  | VBool x, VBool y => Bool.eqb x y
  | _, _ => false
  end.

(** [SELECT id FROM subscription_items
     WHERE subscription = %s AND deleted = false] *)
Definition live_item_of (subscription : value) (r : row) : bool :=
  sql_eq (py_get (row_fields r) "subscription") subscription
  && sql_eq (py_get (row_fields r) "deleted") (VBool false).

Definition select_live_items (subscription : value) (rows : list row)
  : list string :=
  map row_id (filter (live_item_of subscription) rows).

(** [UPDATE subscription_items SET deleted = true
     WHERE id = ANY(%s::text[])] *)
Definition set_deleted (r : row) : row :=
  {| row_id := row_id r;
     row_fields := set_key "deleted" (VBool true) (row_fields r);
     last_synced_at := last_synced_at r |}.

Definition mark_deleted (ids : list string) (rows : list row) : list row :=
  map (fun r => if in_list (row_id r) ids then set_deleted r else r) rows.

(** [id <> ALL(%s::text[])]: true when every element is a text different
    from [id]; a NULL element makes the comparison unknown, and the row is
    not selected. *)
Definition differs_from_all (id : string) (ids : list value) : bool :=
  forallb (fun v => match v with
                    | VStr s => negb (String.eqb id s)
                    | _ => false
                    end) ids.

(** [DELETE FROM active_entitlements
     WHERE customer = %s AND id <> ALL(%s::text[])] *)
Definition removed_entitlement (customer : value) (ids : list value)
  (r : row) : bool :=
  sql_eq (py_get (row_fields r) "customer") customer
  && differs_from_all (row_id r) ids.

Definition delete_entitlements_except (customer : value) (ids : list value)
  (rows : list row) : list row :=
  filter (fun r => negb (removed_entitlement customer ids r)) rows.

(* ================================================================== *)
(** ** Calls, state and the engine monad *)
(* ================================================================== *)

(** The calls the engine issues to the Stripe client and to the PostgreSQL
    client, in the order it issues them. *)
Inductive op : Type :=
| ApiRetrieve (r : resource) (id : value)
| ApiList (c : list_call)
| DbUpsert (t : table) (entries : list dict) (schema : list string)
    (ts : option timestamp)
| DbDelete (t : table) (id : value)
| DbFindMissing (t : table) (ids : list string)
| DbSelectCustomers
| DbSelectLiveItems (subscription : value)
| DbMarkItemsDeleted (ids : list string)
| DbDeleteEntitlementsExcept (customer : value) (ids : list value).

Record world : Type := {
  db : store;
  log : list op
}.

(** A computation may raise; what it did to the store before raising
    stays done (the engine opens no transaction). *)
Definition M (A : Type) : Type := world -> (exn + A) * world.

Definition ret {A : Type} (a : A) : M A := fun w => (inr a, w).

Definition raise {A : Type} (e : exn) : M A := fun w => (inl e, w).

Definition bind {A B : Type} (m : M A) (k : A -> M B) : M B :=
  fun w =>
    match m w with
    | (inr a, w') => k a w'
    | (inl e, w') => (inl e, w')
    end.

Definition try_except {A : Type} (m : M A) (handler : exn -> M A) : M A :=
  fun w =>
    match m w with
    | (inr a, w') => (inr a, w')
    | (inl e, w') => handler e w'
    end.

Declare Scope engine_scope.
Delimit Scope engine_scope with engine.
Notation "x <- c1 ;; c2" := (bind c1 (fun x => c2))
  (at level 61, c1 at next level, right associativity) : engine_scope.
Notation "' pat <- c1 ;; c2" :=
  (bind c1 (fun x => match x with pat => c2 end))
  (at level 61, pat pattern, c1 at next level, right associativity)
  : engine_scope.
Notation "c1 ;; c2" := (bind c1 (fun _ => c2))
  (at level 61, right associativity) : engine_scope.
Local Open Scope engine_scope.

Definition issue (o : op) : M unit :=
  fun w => (inr tt, {| db := db w; log := log w ++ [o] |}).

Definition read_table (t : table) : M (list row) :=
  fun w => (inr (db w t), w).

Definition write_table (t : table) (rows : list row) : M unit :=
  fun w => (inr tt, {| db := set_table (db w) t rows; log := log w |}).

Fixpoint for_each {A : Type} (f : A -> M unit) (l : list A) : M unit :=
  match l with
  | [] => ret tt
  | x :: l' => f x ;; for_each f l'
  end.

Fixpoint map_m {A B : Type} (f : A -> M B) (l : list A) : M (list B) :=
  match l with
  | [] => ret []
  | x :: l' => y <- f x ;; ys <- map_m f l' ;; ret (y :: ys)
  end.

Definition ignore {A : Type} (m : M A) : M unit := m ;; ret tt.

(** [d[k]] *)
Definition py_item (d : dict) (k : string) : M value :=
  match lookup_key k d with
  | Some v => ret v
  | None => raise (KeyError k)
  end.

(** The methods of the PostgreSQL client, over the store model. *)
Definition upsert_many_with_timestamp_protection (entries : list dict)
  (t : table) (schema : list string) (sync_timestamp : option timestamp)
  : M (list row) :=
  issue (DbUpsert t entries schema sync_timestamp) ;;
  rows <- read_table t ;;
  match upsert_many entries schema sync_timestamp rows with
  | Some (rows', written) => write_table t rows' ;; ret written
  | None => raise StoreError
  end.

Definition find_missing_entries (t : table) (ids : list string)
  : M (list string) :=
  issue (DbFindMissing t ids) ;;
  rows <- read_table t ;;
  ret (missing_entries ids rows).

Definition delete (t : table) (id : value) : M bool :=
  issue (DbDelete t id) ;;
  rows <- read_table t ;;
  let (rows', removed) := delete_row id rows in
  write_table t rows' ;;
  ret removed.

(** [query] with the SQL texts the engine passes to it. *)
Definition query_select_customers : M (list string) :=
  issue DbSelectCustomers ;;
  rows <- read_table tbl_customers ;;
  ret (map row_id (filter (fun r => negb (soft_deleted r)) rows)).

Definition query_select_live_items (subscription : value) : M (list string) :=
  issue (DbSelectLiveItems subscription) ;;
  rows <- read_table tbl_subscription_items ;;
  ret (select_live_items subscription rows).

Definition query_mark_items_deleted (ids : list string) : M nat :=
  issue (DbMarkItemsDeleted ids) ;;
  rows <- read_table tbl_subscription_items ;;
  write_table tbl_subscription_items (mark_deleted ids rows) ;;
  ret (List.length (filter (fun r => in_list (row_id r) ids) rows)).

Definition query_delete_entitlements_except (customer : value)
  (ids : list value) : M nat :=
  issue (DbDeleteEntitlementsExcept customer ids) ;;
  rows <- read_table tbl_active_entitlements ;;
  write_table tbl_active_entitlements
    (delete_entitlements_except customer ids rows) ;;
  ret (List.length (filter (removed_entitlement customer ids) rows)).

(** The environment of one engine instance. *)
Record environment : Type := {
  stripe : stripe_api;
  clk : clock;
  schemas : imported_schemas;
  cfg : config
}.

(** A webhook event envelope, as [stripe.Webhook.construct_event] returns
    it: [event['id']], [event['type']], [event['created']] and
    [event['data']['object']]. *)
Record event : Type := {
  ev_id : string;
  ev_type : string;
  ev_created : Z;
  ev_object : dict
}.

(** SyncBackfillParams; an absent [created] is [VNone]. *)
Record SyncBackfillParams : Type := {
  p_created : value;
  p_object : option string;
  p_backfill_related_entities : option bool
}.

(** The result of a sync operation, [{'synced': n}]. *)
Record Sync : Type := { synced : nat }.

(* ================================================================== *)
(** ** The engine: helpers *)
(* ================================================================== *)

(** [chunk_array(array, chunk_size)]: the slices
    [array[i:i + chunk_size]] for [i] in [range(0, len(array), chunk_size)].
    A zero step makes [range] raise. *)
Fixpoint slices {A : Type} (fuel : nat) (array : list A) (chunk_size : nat)
  : list (list A) :=
  match fuel with
  | O => []
  | S fuel' =>
      match array with
      | [] => []
      | _ :: _ =>
          firstn chunk_size array
            :: slices fuel' (skipn chunk_size array) chunk_size
      end
  end.

Definition chunk_array {A : Type} (array : list A) (chunk_size : nat)
  : option (list (list A)) :=
  match chunk_size with
  | O => None
  | S _ => Some (slices (List.length array) array chunk_size)
  end.

Section Engine.

Variable env : environment.

(** [str(v)] *)
Definition py_str (v : value) : string :=
  match v with
  | VStr s => s
  | VInt z => str_of_int z
  | VBool true => "True"
  | VBool false => "False"
  | VNone => "None"
  | _ => object_str (stripe env) v
  end.

(** [get_unique_ids(entries, key)].  The source collects into a set; the
    order of the resulting list is the set's, here that of last
    occurrence. *)
Definition get_unique_ids (entries : list dict) (key : string) : list string :=
  dedup (flat_map (fun entry =>
                     let value := py_get entry key in
                     if truthy value then [py_str value] else [])
                  entries).

Definition stripe_retrieve (r : resource) (id : value) : M dict :=
  issue (ApiRetrieve r id) ;;
  match retrieve (stripe env) r id with
  | inr entity => ret entity
  | inl err => raise err
  end.

Definition stripe_list_call (c : list_call) : M stripe_list :=
  issue (ApiList c) ;;
  match list_objects (stripe env) c with
  | inr l => ret l
  | inl err => raise err
  end.

(** Draining [auto_paging_iter()] into a list. *)
Definition auto_paging_iter (l : stripe_list) : M (list dict) :=
  match paging_error l with
  | Some err => raise err
  | None => ret (data l ++ later_pages l)
  end.

(** Iterating over a value that should be a list. *)
Definition iter_list (v : value) : M (list value) :=
  match v with
  | VList l => ret l
  | _ => raise TypeError
  end.

(** [item['id']] for an element of a list of objects. *)
Definition item_id (item : value) : M value :=
  match item with
  | VDict d => py_item d "id"
  | _ => raise TypeError
  end.

Definition dicts_of (l : list value) : list dict :=
  flat_map (fun v => match v with VDict d => [d] | _ => [] end) l.

(** [backfill_related_entities if backfill_related_entities is not None
     else self.config.backfill_related_entities] *)
Definition backfill_enabled (override : option bool) : bool :=
  match override with
  | Some b => b
  | None =>
      match backfill_related_entities (cfg env) with
      | Some b => b
      | None => false
      end
  end.

Definition when (b : bool) (m : M unit) : M unit := if b then m else ret tt.

(** The logger calls format [entity['id']] into the message. *)
Definition log_info_id (entity : dict) : M unit :=
  if logger (cfg env) then ignore (py_item entity "id") else ret tt.

Definition _fetch_missing_entities (ids : list string)
  (fetch : value -> M dict) : M (list dict) :=
  map_m (fun id => fetch (VStr id)) ids.

Definition expand_one (property : string) (list_fn : value -> list_call)
  (entity : dict) : M dict :=
  match py_get entity property with
  | VDict prop_value =>
      if truthy (py_get prop_value "has_more") then
        id <- py_item entity "id" ;;
        stripe_list <- stripe_list_call (list_fn id) ;;
        all_data <- auto_paging_iter stripe_list ;;
        ret (set_key property
               (VDict (set_key "has_more" (VBool false)
                         (set_key "data" (VList (map VDict all_data))
                                  prop_value)))
               entity)
      else ret entity
  | _ => ret entity
  end.

(** [_expand_entity] updates the entities in place; the model returns
    them. *)
Definition _expand_entity (entities : list dict) (property : string)
  (list_fn : value -> list_call) : M (list dict) :=
  match auto_expand_lists (cfg env) with
  | Some true => map_m (expand_one property list_fn) entities
  | _ => ret entities
  end.

(* ================================================================== *)
(** ** The engine: upserts and referential backfill *)
(* ================================================================== *)

Definition _upsert_customers (customers : list dict)
  (sync_timestamp : option timestamp) : M (list dict) :=
  let deleted_customers :=
    filter (fun c => truthy (py_get c "deleted")) customers in
  let non_deleted_customers :=
    filter (fun c => negb (truthy (py_get c "deleted"))) customers in
  upsert_many_with_timestamp_protection
    non_deleted_customers tbl_customers customer_schema sync_timestamp ;;
  upsert_many_with_timestamp_protection
    deleted_customers tbl_customers customer_deleted_schema sync_timestamp ;;
  ret customers.

Definition _backfill_customers (customer_ids : list string) : M unit :=
  missing_ids <- find_missing_entries tbl_customers customer_ids ;;
  customers <- _fetch_missing_entities missing_ids (stripe_retrieve Customer) ;;
  ignore (_upsert_customers customers None).

Definition _upsert_products (products : list dict)
  (sync_timestamp : option timestamp) : M (list row) :=
  upsert_many_with_timestamp_protection
    products tbl_products product_schema sync_timestamp.

Definition _delete_product (id : value) : M bool := delete tbl_products id.

Definition _backfill_products (product_ids : list string) : M unit :=
  missing_ids <- find_missing_entries tbl_products product_ids ;;
  products <- _fetch_missing_entities missing_ids (stripe_retrieve Product) ;;
  ignore (_upsert_products products None).

Definition _upsert_prices (prices : list dict)
  (backfill_related_entities : option bool)
  (sync_timestamp : option timestamp) : M (list row) :=
  when (backfill_enabled backfill_related_entities)
       (_backfill_products (get_unique_ids prices "product")) ;;
  upsert_many_with_timestamp_protection
    prices tbl_prices (price_schema (schemas env)) sync_timestamp.

Definition _delete_price (id : value) : M bool := delete tbl_prices id.

Definition _backfill_prices (price_ids : list string) : M unit :=
  missing_ids <- find_missing_entries tbl_prices price_ids ;;
  prices <- _fetch_missing_entities missing_ids (stripe_retrieve Price) ;;
  ignore (_upsert_prices prices None None).

Definition _upsert_plans (plans : list dict)
  (backfill_related_entities : option bool)
  (sync_timestamp : option timestamp) : M (list row) :=
  when (backfill_enabled backfill_related_entities)
       (_backfill_products (get_unique_ids plans "product")) ;;
  upsert_many_with_timestamp_protection
    plans tbl_plans plan_schema sync_timestamp.

Definition _delete_plan (id : value) : M bool := delete tbl_plans id.

(** One element of the list built by [_upsert_subscription_items]:
    [{**item, 'price': str(price_id), 'deleted': deleted,
      'quantity': quantity}]. *)
Definition modified_subscription_item (item : value) : M dict :=
  match item with
  | VDict d =>
      price_id <- match py_get d "price" with
                  | VDict price => py_item price "id"
                  | v => ret v
                  end ;;
      let deleted := py_get_default d "deleted" (VBool false) in
      let quantity := py_get d "quantity" in
      ret (set_key "quantity" quantity
             (set_key "deleted" deleted
                (set_key "price" (VStr (py_str price_id)) d)))
  | _ => raise AttributeError
  end.

Definition _upsert_subscription_items (subscription_items : list value)
  (sync_timestamp : option timestamp) : M unit :=
  modified_items <- map_m modified_subscription_item subscription_items ;;
  ignore (upsert_many_with_timestamp_protection
            modified_items tbl_subscription_items subscription_item_schema
            sync_timestamp).

Definition _mark_deleted_subscription_items (subscription_id : value)
  (current_sub_item_ids : list value) : M nat :=
  rows <- query_select_live_items subscription_id ;;
  let deleted_ids :=
    filter (fun id => negb (existsb (fun v => py_eq_str v id)
                                    current_sub_item_ids)) rows in
  if Nat.ltb 0 (List.length deleted_ids)
  then query_mark_items_deleted deleted_ids
  else ret 0%nat.

(** [items_data['data']] when [subscription.get('items', {})] is a
    dictionary that has the key [data]. *)
Definition items_data_of (subscription : dict) : option value :=
  match py_get_default subscription "items" (VDict []) with
  | VDict items_data => lookup_key "data" items_data
  | _ => None
  end.

Definition _upsert_subscriptions (subscriptions : list dict)
  (backfill_related_entities : option bool)
  (sync_timestamp : option timestamp) : M (list row) :=
  when (backfill_enabled backfill_related_entities)
       (_backfill_customers (get_unique_ids subscriptions "customer")) ;;
  subscriptions <- _expand_entity subscriptions "items"
                     (fun id => ListSubscriptionItems id) ;;
  rows <- upsert_many_with_timestamp_protection
            subscriptions tbl_subscriptions
            (subscription_schema (schemas env)) sync_timestamp ;;
  per_subscription <-
    map_m (fun subscription =>
             match items_data_of subscription with
             | Some items => iter_list items
             | None => ret []
             end) subscriptions ;;
  let all_subscription_items := List.concat per_subscription in
  _upsert_subscription_items all_subscription_items sync_timestamp ;;
  for_each (fun subscription =>
              subscription_items <-
                match items_data_of subscription with
                | Some items => iter_list items
                | None => ret []
                end ;;
              sub_item_ids <- map_m item_id subscription_items ;;
              id <- py_item subscription "id" ;;
              ignore (_mark_deleted_subscription_items id sub_item_ids))
           subscriptions ;;
  ret rows.

Definition _backfill_subscriptions (subscription_ids : list string) : M unit :=
  missing_ids <- find_missing_entries tbl_subscriptions subscription_ids ;;
  subscriptions <- _fetch_missing_entities missing_ids
                     (stripe_retrieve Subscription) ;;
  ignore (_upsert_subscriptions subscriptions None None).

Definition _upsert_subscription_schedules (subscription_schedules : list dict)
  (backfill_related_entities : option bool)
  (sync_timestamp : option timestamp) : M (list row) :=
  when (backfill_enabled backfill_related_entities)
       (_backfill_customers (get_unique_ids subscription_schedules "customer")) ;;
  upsert_many_with_timestamp_protection
    subscription_schedules tbl_subscription_schedules
    subscription_schedule_schema sync_timestamp.

Definition _backfill_subscription_schedules
  (subscription_schedule_ids : list string) : M unit :=
  missing_ids <- find_missing_entries tbl_subscription_schedules
                   subscription_schedule_ids ;;
  subscription_schedules <- _fetch_missing_entities missing_ids
                              (stripe_retrieve SubscriptionSchedule) ;;
  ignore (_upsert_subscription_schedules subscription_schedules None None).

Definition _upsert_invoices (invoices : list dict)
  (backfill_related_entities : option bool)
  (sync_timestamp : option timestamp) : M (list row) :=
  when (backfill_enabled backfill_related_entities)
       (_backfill_customers (get_unique_ids invoices "customer") ;;
        _backfill_subscriptions (get_unique_ids invoices "subscription")) ;;
  invoices <- _expand_entity invoices "lines"
                (fun id => ListInvoiceLines id) ;;
  upsert_many_with_timestamp_protection
    invoices tbl_invoices (invoice_schema (schemas env)) sync_timestamp.

Definition _backfill_invoices (invoice_ids : list string) : M unit :=
  missing_ids <- find_missing_entries tbl_invoices invoice_ids ;;
  invoices <- _fetch_missing_entities missing_ids (stripe_retrieve Invoice) ;;
  ignore (_upsert_invoices invoices None None).

Definition _upsert_charges (charges : list dict)
  (backfill_related_entities : option bool)
  (sync_timestamp : option timestamp) : M (list row) :=
  when (backfill_enabled backfill_related_entities)
       (_backfill_customers (get_unique_ids charges "customer") ;;
        _backfill_invoices (get_unique_ids charges "invoice")) ;;
  charges <- _expand_entity charges "refunds" (fun id => ListRefunds id) ;;
  upsert_many_with_timestamp_protection
    charges tbl_charges (charge_schema (schemas env)) sync_timestamp.

Definition _backfill_charges (charge_ids : list string) : M unit :=
  missing_ids <- find_missing_entries tbl_charges charge_ids ;;
  charges <- _fetch_missing_entities missing_ids (stripe_retrieve Charge) ;;
  ignore (_upsert_charges charges None None).

Definition _upsert_payment_intents (payment_intents : list dict)
  (backfill_related_entities : option bool)
  (sync_timestamp : option timestamp) : M (list row) :=
  when (backfill_enabled backfill_related_entities)
       (_backfill_customers (get_unique_ids payment_intents "customer") ;;
        _backfill_invoices (get_unique_ids payment_intents "invoice")) ;;
  upsert_many_with_timestamp_protection
    payment_intents tbl_payment_intents
    (payment_intent_schema (schemas env)) sync_timestamp.

Definition _backfill_payment_intents (payment_intent_ids : list string)
  : M unit :=
  missing_ids <- find_missing_entries tbl_payment_intents payment_intent_ids ;;
  payment_intents <- _fetch_missing_entities missing_ids
                       (stripe_retrieve PaymentIntent) ;;
  ignore (_upsert_payment_intents payment_intents None None).

Definition _upsert_credit_notes (credit_notes : list dict)
  (backfill_related_entities : option bool)
  (sync_timestamp : option timestamp) : M (list row) :=
  when (backfill_enabled backfill_related_entities)
       (_backfill_customers (get_unique_ids credit_notes "customer") ;;
        _backfill_invoices (get_unique_ids credit_notes "invoice")) ;;
  credit_notes <- _expand_entity credit_notes "lines"
                    (fun id => ListCreditNoteLines id) ;;
  upsert_many_with_timestamp_protection
    credit_notes tbl_credit_notes credit_note_schema sync_timestamp.

(** The price id of a checkout-session line item, as both loops of
    [_upsert_checkout_session_line_items] compute it. *)
Definition line_item_price_id (item : dict) : option string :=
  let price := py_get item "price" in
  match price with
  | VDict d =>
      if truthy (py_get d "id") then Some (py_str (py_get d "id"))
      else if truthy price then Some (py_str price)
      else None
  | _ => if truthy price then Some (py_str price) else None
  end.

Definition _upsert_checkout_session_line_items (line_items : list dict)
  (checkout_session_id : value) (sync_timestamp : option timestamp)
  : M unit :=
  let price_ids :=
    flat_map (fun item => match line_item_price_id item with
                          | Some pid => [pid]
                          | None => []
                          end) line_items in
  _backfill_prices (filter (fun pid => negb (String.eqb pid "")) price_ids) ;;
  let modified_items :=
    map (fun item =>
           set_key "checkout_session" checkout_session_id
             (set_key "price"
                (match line_item_price_id item with
                 | Some pid => VStr pid
                 | None => VNone
                 end) item)) line_items in
  ignore (upsert_many_with_timestamp_protection
            modified_items tbl_checkout_session_line_items
            checkout_session_line_item_schema sync_timestamp).

Definition _fill_checkout_sessions_line_items
  (checkout_session_ids : list value) (sync_timestamp : option timestamp)
  : M unit :=
  for_each (fun checkout_session_id =>
              line_items_list <- stripe_list_call
                                   (ListCheckoutSessionLineItems
                                      checkout_session_id) ;;
              line_items <- auto_paging_iter line_items_list ;;
              _upsert_checkout_session_line_items
                line_items checkout_session_id sync_timestamp)
           checkout_session_ids.

Definition _upsert_checkout_sessions (checkout_sessions : list dict)
  (backfill_related_entities : option bool)
  (sync_timestamp : option timestamp) : M (list row) :=
  when (backfill_enabled backfill_related_entities)
       (_backfill_customers (get_unique_ids checkout_sessions "customer") ;;
        _backfill_subscriptions
          (get_unique_ids checkout_sessions "subscription") ;;
        _backfill_payment_intents
          (get_unique_ids checkout_sessions "payment_intent") ;;
        _backfill_invoices (get_unique_ids checkout_sessions "invoice")) ;;
  rows <- upsert_many_with_timestamp_protection
            checkout_sessions tbl_checkout_sessions
            (checkout_session_schema (schemas env)) sync_timestamp ;;
  ids <- map_m (fun cs => py_item cs "id") checkout_sessions ;;
  _fill_checkout_sessions_line_items ids sync_timestamp ;;
  ret rows.

Definition _upsert_early_fraud_warning (early_fraud_warnings : list dict)
  (backfill_related_entities : option bool)
  (sync_timestamp : option timestamp) : M (list row) :=
  when (backfill_enabled backfill_related_entities)
       (_backfill_payment_intents
          (get_unique_ids early_fraud_warnings "payment_intent") ;;
        _backfill_charges (get_unique_ids early_fraud_warnings "charge")) ;;
  upsert_many_with_timestamp_protection
    early_fraud_warnings tbl_early_fraud_warnings early_fraud_warning_schema
    sync_timestamp.

Definition _upsert_refunds (refunds : list dict)
  (backfill_related_entities : option bool)
  (sync_timestamp : option timestamp) : M (list row) :=
  when (backfill_enabled backfill_related_entities)
       (_backfill_payment_intents (get_unique_ids refunds "payment_intent") ;;
        _backfill_charges (get_unique_ids refunds "charge")) ;;
  upsert_many_with_timestamp_protection
    refunds tbl_refunds refund_schema sync_timestamp.

Definition _upsert_reviews (reviews : list dict)
  (backfill_related_entities : option bool)
  (sync_timestamp : option timestamp) : M (list row) :=
  when (backfill_enabled backfill_related_entities)
       (_backfill_payment_intents (get_unique_ids reviews "payment_intent") ;;
        _backfill_charges (get_unique_ids reviews "charge")) ;;
  upsert_many_with_timestamp_protection
    reviews tbl_reviews review_schema sync_timestamp.

Definition _upsert_disputes (disputes : list dict)
  (backfill_related_entities : option bool)
  (sync_timestamp : option timestamp) : M (list row) :=
  when (backfill_enabled backfill_related_entities)
       (_backfill_charges (get_unique_ids disputes "charge")) ;;
  upsert_many_with_timestamp_protection
    disputes tbl_disputes (dispute_schema (schemas env)) sync_timestamp.

(** The ids collected by the loop of [_upsert_invoice_payments] for the
    payment type [kind] ([payment_intent] or [charge]). *)
Definition payment_refs (kind : string) (invoice_payments : list dict)
  : list string :=
  flat_map (fun invoice_payment =>
              match py_get_default invoice_payment "payment" (VDict []) with
              | VDict payment =>
                  if py_eq_str (py_get payment "type") kind
                     && truthy (py_get payment kind)
                  then [py_str (py_get payment kind)]
                  else []
              | _ => []
              end) invoice_payments.

Definition _upsert_invoice_payments (invoice_payments : list dict)
  (backfill_related_entities : option bool)
  (sync_timestamp : option timestamp) : M (list row) :=
  when (backfill_enabled backfill_related_entities)
       (let invoice_ids := get_unique_ids invoice_payments "invoice" in
        let payment_intent_ids := payment_refs "payment_intent" invoice_payments in
        let charge_ids := payment_refs "charge" invoice_payments in
        _backfill_invoices invoice_ids ;;
        _backfill_payment_intents (dedup payment_intent_ids) ;;
        _backfill_charges (dedup charge_ids)) ;;
  upsert_many_with_timestamp_protection
    invoice_payments tbl_invoice_payments invoice_payment_schema
    sync_timestamp.

(** The default of [backfill_related_entities] is [False] here, not
    [None]; callers that omit it pass [Some false]. *)
Definition _upsert_payment_methods (payment_methods : list dict)
  (backfill_related_entities : option bool)
  (sync_timestamp : option timestamp) : M (list row) :=
  when (backfill_enabled backfill_related_entities)
       (_backfill_customers (get_unique_ids payment_methods "customer")) ;;
  upsert_many_with_timestamp_protection
    payment_methods tbl_payment_methods payment_methods_schema
    sync_timestamp.

Definition _upsert_setup_intents (setup_intents : list dict)
  (backfill_related_entities : option bool)
  (sync_timestamp : option timestamp) : M (list row) :=
  when (backfill_enabled backfill_related_entities)
       (_backfill_customers (get_unique_ids setup_intents "customer")) ;;
  upsert_many_with_timestamp_protection
    setup_intents tbl_setup_intents setup_intents_schema sync_timestamp.

Definition _upsert_tax_ids (tax_ids : list dict)
  (backfill_related_entities : option bool)
  (sync_timestamp : option timestamp) : M (list row) :=
  when (backfill_enabled backfill_related_entities)
       (_backfill_customers (get_unique_ids tax_ids "customer")) ;;
  upsert_many_with_timestamp_protection
    tax_ids tbl_tax_ids tax_id_schema sync_timestamp.

Definition _delete_tax_id (id : value) : M bool := delete tbl_tax_ids id.

Definition _delete_removed_active_entitlements (customer_id : value)
  (current_active_entitlement_ids : list value) : M nat :=
  query_delete_entitlements_except customer_id current_active_entitlement_ids.

Definition _upsert_features (features : list dict)
  (sync_timestamp : option timestamp) : M (list row) :=
  upsert_many_with_timestamp_protection
    features tbl_features (feature_schema (schemas env)) sync_timestamp.

Definition _backfill_features (feature_ids : list string) : M unit :=
  missing_ids <- find_missing_entries tbl_features feature_ids ;;
  features <- _fetch_missing_entities missing_ids (stripe_retrieve Feature) ;;
  ignore (_upsert_features features None).

(** One element of the list built by [_upsert_active_entitlements]. *)
Definition entitlement_record (customer_id : value) (entitlement : dict)
  : M dict :=
  feature_id <- match py_get entitlement "feature" with
                | VStr s => ret (VStr s)
                | VDict feature => ret (py_get feature "id")
                | _ => raise AttributeError
                end ;;
  id <- py_item entitlement "id" ;;
  object <- py_item entitlement "object" ;;
  livemode <- py_item entitlement "livemode" ;;
  ret [("id", id); ("object", object); ("feature", feature_id);
       ("customer", customer_id); ("livemode", livemode);
       ("lookup_key", py_get entitlement "lookup_key")].

Definition _upsert_active_entitlements (customer_id : value)
  (active_entitlements : list dict)
  (backfill_related_entities : option bool)
  (sync_timestamp : option timestamp) : M (list row) :=
  when (backfill_enabled backfill_related_entities)
       (_backfill_customers (get_unique_ids active_entitlements "customer") ;;
        _backfill_features (get_unique_ids active_entitlements "feature")) ;;
  entitlements <- map_m (entitlement_record customer_id) active_entitlements ;;
  upsert_many_with_timestamp_protection
    entitlements tbl_active_entitlements active_entitlement_schema
    sync_timestamp.

(* ================================================================== *)
(** ** The engine: event router *)
(* ================================================================== *)

(** The instant [_get_sync_timestamp] returns. *)
Definition _get_sync_timestamp (event : event) (refetched : bool) : timestamp :=
  if refetched then utcnow (clk env)
  else fromtimestamp (clk env) (ev_created event).

(** The call [self._get_sync_timestamp(event, refetched)].  It is an
    argument of the upsert, evaluated before the upsert is entered; without
    a refetch it raises what [datetime.fromtimestamp(event['created'])]
    raises. *)
Definition call_get_sync_timestamp (event : event) (refetched : bool)
  : M timestamp :=
  if refetched then ret (_get_sync_timestamp event true)
  else match fromtimestamp_error (clk env) (ev_created event) with
       | Some err => raise (DatetimeError err)
       | None => ret (_get_sync_timestamp event false)
       end.

Definition _should_refetch_entity (entity : dict) : bool :=
  match revalidate_objects_via_stripe_api (cfg env) with
  | None => false
  | Some [] => false
  | Some l => value_in (py_get entity "object") l
  end.

Definition _fetch_or_use_webhook_data (entity : dict)
  (fetch_fn : value -> M dict)
  (entity_in_final_state : option (dict -> bool)) : M (dict * bool) :=
  if negb (truthy (py_get entity "id")) then ret (entity, false)
  else if match entity_in_final_state with
          | Some final => final entity
          | None => false
          end
  then ret (entity, false)
  else if _should_refetch_entity entity then
    fetched_entity <- fetch_fn (py_get entity "id") ;;
    ret (fetched_entity, true)
  else ret (entity, false).

(** The event types of each branch of [process_event], in source order. *)
Definition charge_events : list string :=
  ["charge.captured"; "charge.expired"; "charge.failed"; "charge.pending";
   "charge.refunded"; "charge.succeeded"; "charge.updated"].
Definition checkout_session_events : list string :=
  ["checkout.session.async_payment_failed";
   "checkout.session.async_payment_succeeded";
   "checkout.session.completed"; "checkout.session.expired"].
Definition customer_events : list string :=
  ["customer.created"; "customer.updated"].
Definition subscription_events : list string :=
  ["customer.subscription.created"; "customer.subscription.deleted";
   "customer.subscription.paused";
   "customer.subscription.pending_update_applied";
   "customer.subscription.pending_update_expired";
   "customer.subscription.trial_will_end";
   "customer.subscription.resumed"; "customer.subscription.updated"].
Definition tax_id_events : list string :=
  ["customer.tax_id.updated"; "customer.tax_id.created"].
Definition invoice_events : list string :=
  ["invoice.created"; "invoice.deleted"; "invoice.finalized";
   "invoice.finalization_failed"; "invoice.paid";
   "invoice.payment_action_required"; "invoice.payment_failed";
   "invoice.payment_succeeded"; "invoice.upcoming"; "invoice.sent";
   "invoice.voided"; "invoice.marked_uncollectible"; "invoice.updated"].
Definition product_events : list string :=
  ["product.created"; "product.updated"].
Definition price_events : list string := ["price.created"; "price.updated"].
Definition plan_events : list string := ["plan.created"; "plan.updated"].
Definition setup_intent_events : list string :=
  ["setup_intent.canceled"; "setup_intent.created";
   "setup_intent.requires_action"; "setup_intent.setup_failed";
   "setup_intent.succeeded"].
Definition subscription_schedule_events : list string :=
  ["subscription_schedule.aborted"; "subscription_schedule.canceled";
   "subscription_schedule.completed"; "subscription_schedule.created";
   "subscription_schedule.expiring"; "subscription_schedule.released";
   "subscription_schedule.updated"].
Definition payment_method_events : list string :=
  ["payment_method.attached"; "payment_method.automatically_updated";
   "payment_method.detached"; "payment_method.updated"].
Definition dispute_events : list string :=
  ["charge.dispute.created"; "charge.dispute.funds_reinstated";
   "charge.dispute.funds_withdrawn"; "charge.dispute.updated";
   "charge.dispute.closed"].
Definition payment_intent_events : list string :=
  ["payment_intent.amount_capturable_updated"; "payment_intent.canceled";
   "payment_intent.created"; "payment_intent.partially_funded";
   "payment_intent.payment_failed"; "payment_intent.processing";
   "payment_intent.requires_action"; "payment_intent.succeeded"].
Definition credit_note_events : list string :=
  ["credit_note.created"; "credit_note.updated"; "credit_note.voided"].
Definition early_fraud_warning_events : list string :=
  ["radar.early_fraud_warning.created"; "radar.early_fraud_warning.updated"].
Definition refund_events : list string :=
  ["refund.created"; "refund.failed"; "refund.updated";
   "charge.refund.updated"].
Definition review_events : list string := ["review.closed"; "review.opened"].

(** The terminal-state predicates passed as [entity_in_final_state]. *)
Definition status_in (l : list string) (entity : dict) : bool :=
  value_in (py_get entity "status") l.

Definition customer_is_deleted (customer : dict) : bool :=
  py_eq_True (py_get customer "deleted").

(** The [except stripe.error.InvalidRequestError] clause of the product,
    price and plan branches. *)
Definition deletion_via_404 (event : event) (delete_fn : value -> M bool)
  (err : exn) : M unit :=
  match err with
  | InvalidRequestError code =>
      match code with
      | Some c =>
          if String.eqb c "resource_missing"
          then id <- py_item (ev_object event) "id" ;; ignore (delete_fn id)
          else raise err
      | None => raise err
      end
  | _ => raise err
  end.

(** A Stripe list object seen as the dictionary it is: [result['data']]
    is its first page. *)
Definition list_object (l : stripe_list) : value :=
  VDict [("object", VStr "list"); ("data", VList (map VDict (data l)))].

(** [entitlements['data']], iterated. *)
Definition entitlements_data (entitlements : value) : M (list value) :=
  match entitlements with
  | VDict d => v <- py_item d "data" ;; iter_list v
  | _ => raise TypeError
  end.

(** The [entitlements.active_entitlement_summary.updated] branch, in two
    steps.  First the list in effect: the one embedded in the summary, or,
    when [entitlements] is in the revalidation list, the customer's current
    listing. *)
Definition entitlements_in_effect (event : event) : M (value * bool) :=
  let summary := ev_object event in
  entitlements <- py_item summary "entitlements" ;;
  let revalidate :=
    match revalidate_objects_via_stripe_api (cfg env) with
    | Some l => in_list "entitlements" l
    | None => false
    end in
  if revalidate then
    customer <- py_item summary "customer" ;;
    result <- stripe_list_call (ListActiveEntitlements customer) ;;
    ret (list_object result, true)
  else ret (entitlements, false).

(** Then the log line, the deletion of the entitlements that left the
    list, and the upsert of the list. *)
Definition reconcile_entitlements (event : event) (entitlements : value)
  (refetched : bool) : M unit :=
  let summary := ev_object event in
  (if logger (cfg env) then ignore (py_item summary "customer") else ret tt) ;;
  customer <- py_item summary "customer" ;;
  items <- entitlements_data entitlements ;;
  ids <- map_m item_id items ;;
  _delete_removed_active_entitlements customer ids ;;
  customer <- py_item summary "customer" ;;
  items <- entitlements_data entitlements ;;
  ts <- call_get_sync_timestamp event refetched ;;
  ignore (_upsert_active_entitlements customer (dicts_of items) (Some false)
            (Some ts)).

Definition process_entitlement_summary (event : event) : M unit :=
  '(entitlements, refetched) <- entitlements_in_effect event ;;
  reconcile_entitlements event entitlements refetched.

Definition process_event (event : event) : M unit :=
  let event_type := ev_type event in
  let object := ev_object event in
  if in_list event_type charge_events then
    '(entity, refetched) <-
      _fetch_or_use_webhook_data object (stripe_retrieve Charge)
        (Some (status_in ["failed"; "succeeded"])) ;;
    log_info_id entity ;;
    ts <- call_get_sync_timestamp event refetched ;;
    ignore (_upsert_charges [entity] (Some false) (Some ts))
  else if String.eqb event_type "customer.deleted" then
    id <- py_item object "id" ;;
    let customer :=
      [("id", id); ("object", VStr "customer"); ("deleted", VBool true)] in
    log_info_id customer ;;
    ts <- call_get_sync_timestamp event false ;;
    ignore (_upsert_customers [customer] (Some ts))
  else if in_list event_type checkout_session_events then
    '(entity, refetched) <-
      _fetch_or_use_webhook_data object (stripe_retrieve CheckoutSession)
        None ;;
    log_info_id entity ;;
    ts <- call_get_sync_timestamp event refetched ;;
    ignore (_upsert_checkout_sessions [entity] (Some false) (Some ts))
  else if in_list event_type customer_events then
    '(entity, refetched) <-
      _fetch_or_use_webhook_data object (stripe_retrieve Customer)
        (Some customer_is_deleted) ;;
    log_info_id entity ;;
    ts <- call_get_sync_timestamp event refetched ;;
    ignore (_upsert_customers [entity] (Some ts))
  else if in_list event_type subscription_events then
    '(entity, refetched) <-
      _fetch_or_use_webhook_data object (stripe_retrieve Subscription)
        (Some (status_in ["canceled"; "incomplete_expired"])) ;;
    log_info_id entity ;;
    ts <- call_get_sync_timestamp event refetched ;;
    ignore (_upsert_subscriptions [entity] (Some false) (Some ts))
  else if in_list event_type tax_id_events then
    '(entity, refetched) <-
      _fetch_or_use_webhook_data object (stripe_retrieve TaxId) None ;;
    log_info_id entity ;;
    ts <- call_get_sync_timestamp event refetched ;;
    ignore (_upsert_tax_ids [entity] (Some false) (Some ts))
  else if String.eqb event_type "customer.tax_id.deleted" then
    log_info_id object ;;
    id <- py_item object "id" ;;
    ignore (_delete_tax_id id)
  else if in_list event_type invoice_events then
    '(entity, refetched) <-
      _fetch_or_use_webhook_data object (stripe_retrieve Invoice)
        (Some (fun inv => py_eq_str (py_get inv "status") "void")) ;;
    log_info_id entity ;;
    ts <- call_get_sync_timestamp event refetched ;;
    ignore (_upsert_invoices [entity] (Some false) (Some ts))
  else if in_list event_type product_events then
    try_except
      ('(entity, refetched) <-
         _fetch_or_use_webhook_data object (stripe_retrieve Product) None ;;
       log_info_id entity ;;
       ts <- call_get_sync_timestamp event refetched ;;
       ignore (_upsert_products [entity] (Some ts)))
      (deletion_via_404 event _delete_product)
  else if String.eqb event_type "product.deleted" then
    log_info_id object ;;
    id <- py_item object "id" ;;
    ignore (_delete_product id)
  else if in_list event_type price_events then
    try_except
      ('(entity, refetched) <-
         _fetch_or_use_webhook_data object (stripe_retrieve Price) None ;;
       log_info_id entity ;;
       ts <- call_get_sync_timestamp event refetched ;;
       ignore (_upsert_prices [entity] (Some false) (Some ts)))
      (deletion_via_404 event _delete_price)
  else if String.eqb event_type "price.deleted" then
    log_info_id object ;;
    id <- py_item object "id" ;;
    ignore (_delete_price id)
  else if in_list event_type plan_events then
    try_except
      ('(entity, refetched) <-
         _fetch_or_use_webhook_data object (stripe_retrieve Plan) None ;;
       log_info_id entity ;;
       ts <- call_get_sync_timestamp event refetched ;;
       ignore (_upsert_plans [entity] (Some false) (Some ts)))
      (deletion_via_404 event _delete_plan)
  else if String.eqb event_type "plan.deleted" then
    log_info_id object ;;
    id <- py_item object "id" ;;
    ignore (_delete_plan id)
  else if in_list event_type setup_intent_events then
    '(entity, refetched) <-
      _fetch_or_use_webhook_data object (stripe_retrieve SetupIntent)
        (Some (status_in ["canceled"; "succeeded"])) ;;
    log_info_id entity ;;
    ts <- call_get_sync_timestamp event refetched ;;
    ignore (_upsert_setup_intents [entity] (Some false) (Some ts))
  else if in_list event_type subscription_schedule_events then
    '(entity, refetched) <-
      _fetch_or_use_webhook_data object (stripe_retrieve SubscriptionSchedule)
        (Some (status_in ["canceled"; "completed"])) ;;
    log_info_id entity ;;
    ts <- call_get_sync_timestamp event refetched ;;
    ignore (_upsert_subscription_schedules [entity] (Some false) (Some ts))
  else if in_list event_type payment_method_events then
    '(entity, refetched) <-
      _fetch_or_use_webhook_data object (stripe_retrieve PaymentMethod) None ;;
    log_info_id entity ;;
    ts <- call_get_sync_timestamp event refetched ;;
    ignore (_upsert_payment_methods [entity] (Some false) (Some ts))
  else if in_list event_type dispute_events then
    '(entity, refetched) <-
      _fetch_or_use_webhook_data object (stripe_retrieve Dispute)
        (Some (status_in ["won"; "lost"])) ;;
    log_info_id entity ;;
    ts <- call_get_sync_timestamp event refetched ;;
    ignore (_upsert_disputes [entity] (Some false) (Some ts))
  else if in_list event_type payment_intent_events then
    '(entity, refetched) <-
      _fetch_or_use_webhook_data object (stripe_retrieve PaymentIntent)
        (Some (status_in ["canceled"; "succeeded"])) ;;
    log_info_id entity ;;
    ts <- call_get_sync_timestamp event refetched ;;
    ignore (_upsert_payment_intents [entity] (Some false) (Some ts))
  else if in_list event_type credit_note_events then
    '(entity, refetched) <-
      _fetch_or_use_webhook_data object (stripe_retrieve CreditNote)
        (Some (fun cn => py_eq_str (py_get cn "status") "void")) ;;
    log_info_id entity ;;
    ts <- call_get_sync_timestamp event refetched ;;
    ignore (_upsert_credit_notes [entity] (Some false) (Some ts))
  else if in_list event_type early_fraud_warning_events then
    '(entity, refetched) <-
      _fetch_or_use_webhook_data object (stripe_retrieve EarlyFraudWarning)
        None ;;
    log_info_id entity ;;
    ts <- call_get_sync_timestamp event refetched ;;
    ignore (_upsert_early_fraud_warning [entity] (Some false) (Some ts))
  else if in_list event_type refund_events then
    '(entity, refetched) <-
      _fetch_or_use_webhook_data object (stripe_retrieve Refund) None ;;
    log_info_id entity ;;
    ts <- call_get_sync_timestamp event refetched ;;
    ignore (_upsert_refunds [entity] (Some false) (Some ts))
  else if in_list event_type review_events then
    '(entity, refetched) <-
      _fetch_or_use_webhook_data object (stripe_retrieve Review) None ;;
    log_info_id entity ;;
    ts <- call_get_sync_timestamp event refetched ;;
    ignore (_upsert_reviews [entity] (Some false) (Some ts))
  else if String.eqb event_type
            "entitlements.active_entitlement_summary.updated" then
    process_entitlement_summary event
  else if String.eqb event_type "invoice_payment.paid" then
    '(entity, refetched) <-
      _fetch_or_use_webhook_data object (stripe_retrieve InvoicePayment)
        None ;;
    log_info_id entity ;;
    ts <- call_get_sync_timestamp event refetched ;;
    ignore (_upsert_invoice_payments [entity] (Some false) (Some ts))
  else raise UnhandledWebhookEvent.

(* ================================================================== *)
(** ** The engine: single-entity sync and backfill *)
(* ================================================================== *)

Definition sync_single_entity (stripe_id : string) : M unit :=
  let id := VStr stripe_id in
  if String.prefix "cus_" stripe_id then
    customer <- stripe_retrieve Customer id ;;
    if truthy (VDict customer) && negb (truthy (py_get customer "deleted"))
    then ignore (_upsert_customers [customer] None)
    else ret tt
  else if String.prefix "in_" stripe_id then
    invoice <- stripe_retrieve Invoice id ;;
    ignore (_upsert_invoices [invoice] None None)
  else if String.prefix "price_" stripe_id then
    price <- stripe_retrieve Price id ;;
    ignore (_upsert_prices [price] None None)
  else if String.prefix "prod_" stripe_id then
    product <- stripe_retrieve Product id ;;
    ignore (_upsert_products [product] None)
  else if String.prefix "sub_" stripe_id then
    subscription <- stripe_retrieve Subscription id ;;
    ignore (_upsert_subscriptions [subscription] None None)
  else if String.prefix "seti_" stripe_id then
    setup_intent <- stripe_retrieve SetupIntent id ;;
    ignore (_upsert_setup_intents [setup_intent] None None)
  else if String.prefix "pm_" stripe_id then
    payment_method <- stripe_retrieve PaymentMethod id ;;
    ignore (_upsert_payment_methods [payment_method] (Some false) None)
  else if String.prefix "dp_" stripe_id || String.prefix "du_" stripe_id then
    dispute <- stripe_retrieve Dispute id ;;
    ignore (_upsert_disputes [dispute] None None)
  else if String.prefix "ch_" stripe_id then
    charge <- stripe_retrieve Charge id ;;
    ignore (_upsert_charges [charge] (Some true) None)
  else if String.prefix "pi_" stripe_id then
    payment_intent <- stripe_retrieve PaymentIntent id ;;
    ignore (_upsert_payment_intents [payment_intent] None None)
  else if String.prefix "txi_" stripe_id then
    tax_id <- stripe_retrieve TaxId id ;;
    ignore (_upsert_tax_ids [tax_id] None None)
  else if String.prefix "cn_" stripe_id then
    credit_note <- stripe_retrieve CreditNote id ;;
    ignore (_upsert_credit_notes [credit_note] None None)
  else if String.prefix "issfr_" stripe_id then
    early_fraud_warning <- stripe_retrieve EarlyFraudWarning id ;;
    ignore (_upsert_early_fraud_warning [early_fraud_warning] None None)
  else if String.prefix "prv_" stripe_id then
    review <- stripe_retrieve Review id ;;
    ignore (_upsert_reviews [review] None None)
  else if String.prefix "re_" stripe_id then
    refund <- stripe_retrieve Refund id ;;
    ignore (_upsert_refunds [refund] None None)
  else if String.prefix "inpay_" stripe_id then
    invoice_payment <- stripe_retrieve InvoicePayment id ;;
    ignore (_upsert_invoice_payments [invoice_payment] None None)
  else if String.prefix "feat_" stripe_id then
    feature <- stripe_retrieve Feature id ;;
    ignore (_upsert_features [feature] None)
  else if String.prefix "cs_" stripe_id then
    checkout_session <- stripe_retrieve CheckoutSession id ;;
    ignore (_upsert_checkout_sessions [checkout_session] None None)
  else ret tt.

(** The loop of [_fetch_and_upsert] over the items the iterator yields:
    it returns the pending chunk and the running count. *)
Fixpoint fetch_loop (chunk_size : nat) (upsert : list dict -> M unit)
  (items : list dict) (chunk : list dict) (synced : nat)
  : M (list dict * nat) :=
  match items with
  | [] => ret (chunk, synced)
  | item :: items' =>
      let chunk := chunk ++ [item] in
      let synced := S synced in
      if Nat.leb chunk_size (List.length chunk)
      then upsert chunk ;; fetch_loop chunk_size upsert items' [] synced
      else fetch_loop chunk_size upsert items' chunk synced
  end.

Definition _fetch_and_upsert (fetch : M stripe_list)
  (upsert : list dict -> M unit) : M Sync :=
  let chunk_size := 250%nat in
  stripe_list <- fetch ;;
  '(chunk, synced) <-
    fetch_loop chunk_size upsert (data stripe_list ++ later_pages stripe_list)
      [] 0%nat ;;
  match paging_error stripe_list with
  | Some err => raise err
  | None => ret tt
  end ;;
  when (Nat.ltb 0 (List.length chunk)) (upsert chunk) ;;
  ret {| synced := synced |}.

Definition params_created (sync_params : option SyncBackfillParams) : value :=
  match sync_params with
  | Some p => if truthy (p_created p) then p_created p else VNone
  | None => VNone
  end.

Definition params_backfill (sync_params : option SyncBackfillParams)
  : option bool :=
  match sync_params with
  | Some p => p_backfill_related_entities p
  | None => None
  end.

Definition sync_products (sync_params : option SyncBackfillParams) : M Sync :=
  _fetch_and_upsert
    (stripe_list_call (ListObjects Product (params_created sync_params)))
    (fun products => ignore (_upsert_products products None)).

Definition sync_customers (sync_params : option SyncBackfillParams) : M Sync :=
  _fetch_and_upsert
    (stripe_list_call (ListObjects Customer (params_created sync_params)))
    (fun items => ignore (_upsert_customers items None)).

Definition sync_subscriptions (sync_params : option SyncBackfillParams)
  : M Sync :=
  _fetch_and_upsert
    (stripe_list_call (ListObjects Subscription (params_created sync_params)))
    (fun items =>
       ignore (_upsert_subscriptions items (params_backfill sync_params) None)).

Definition sync_charges (sync_params : option SyncBackfillParams) : M Sync :=
  _fetch_and_upsert
    (stripe_list_call (ListObjects Charge (params_created sync_params)))
    (fun items =>
       ignore (_upsert_charges items (params_backfill sync_params) None)).

End Engine.

(* ================================================================== *)
(** * Reasoning about runs *)
(* ================================================================== *)

Lemma in_list_In (s : string) (l : list string) :
  in_list s l = true <-> In s l.
Proof.
  unfold in_list. rewrite existsb_exists. split.
  - intros [x [Hin Heq]]. apply String.eqb_eq in Heq. subst. exact Hin.
  - intro Hin. exists s. split; [exact Hin | apply String.eqb_refl].
Qed.

Lemma in_list_not_In (s : string) (l : list string) :
  ~ In s l -> in_list s l = false.
Proof.
  intro H. destruct (in_list s l) eqn:E; [| reflexivity].
  apply in_list_In in E. contradiction.
Qed.

Lemma bind_inr {A B : Type} (m : M A) (k : A -> M B) w a w1 :
  m w = (inr a, w1) -> bind m k w = k a w1.
Proof. intro H. unfold bind. rewrite H. reflexivity. Qed.

Lemma bind_inl {A B : Type} (m : M A) (k : A -> M B) w e w1 :
  m w = (inl e, w1) -> bind m k w = (inl e, w1).
Proof. intro H. unfold bind. rewrite H. reflexivity. Qed.

Lemma bind_inv {A B : Type} (m : M A) (k : A -> M B) w r w' :
  bind m k w = (r, w') ->
  (exists a w1, m w = (inr a, w1) /\ k a w1 = (r, w'))
  \/ (exists e, m w = (inl e, w') /\ r = inl e).
Proof.
  unfold bind. destruct (m w) as [[e | a] w1]; intro H.
  - right. exists e. inversion H. auto.
  - left. exists a, w1. auto.
Qed.

Lemma bind_inv_ok {A B : Type} (m : M A) (k : A -> M B) w b w' :
  bind m k w = (inr b, w') ->
  exists a w1, m w = (inr a, w1) /\ k a w1 = (inr b, w').
Proof.
  intro H. apply bind_inv in H. destruct H as [H | [e [_ H]]];
    [exact H | discriminate].
Qed.

(** The effect of one call on the store. *)
Definition apply_op (o : op) (s : store) : store :=
  match o with
  | DbUpsert t entries schema ts =>
      match upsert_many entries schema ts (s t) with
      | Some (rows', _) => set_table s t rows'
      | None => s
      end
  | DbDelete t id => set_table s t (fst (delete_row id (s t)))
  | DbMarkItemsDeleted ids =>
      set_table s tbl_subscription_items
        (mark_deleted ids (s tbl_subscription_items))
  | DbDeleteEntitlementsExcept customer ids =>
      set_table s tbl_active_entitlements
        (delete_entitlements_except customer ids (s tbl_active_entitlements))
  | _ => s
  end.

Definition replay (ops : list op) (s : store) : store :=
  fold_left (fun s o => apply_op o s) ops s.

Lemma replay_app (l1 l2 : list op) (s : store) :
  replay (l1 ++ l2) s = replay l2 (replay l1 s).
Proof. unfold replay. apply fold_left_app. Qed.

(** [uses P m]: whatever the start state, [m] appends to the log only
    calls that satisfy [P], and the store it leaves is the one obtained by
    applying those calls in order. *)
Definition uses {A : Type} (P : op -> Prop) (m : M A) : Prop :=
  forall w,
  exists new,
    log (snd (m w)) = log w ++ new
    /\ Forall P new
    /\ db (snd (m w)) = replay new (db w).

Section Uses.

Variable P : op -> Prop.

Lemma uses_ret {A : Type} (a : A) : uses P (ret a).
Proof. intro w. exists []. simpl. rewrite app_nil_r. auto. Qed.

Lemma uses_raise {A : Type} (e : exn) : uses P (@raise A e).
Proof. intro w. exists []. simpl. rewrite app_nil_r. auto. Qed.

Lemma uses_bind {A B : Type} (m : M A) (k : A -> M B) :
  uses P m -> (forall a, uses P (k a)) -> uses P (bind m k).
Proof.
  intros Hm Hk w. destruct (Hm w) as [n1 [L1 [F1 D1]]].
  unfold bind. destruct (m w) as [[e | a] w1]; simpl in *.
  - exists n1. auto.
  - destruct (Hk a w1) as [n2 [L2 [F2 D2]]].
    exists (n1 ++ n2). rewrite L2, L1, D2, D1, app_assoc, replay_app.
    split; [reflexivity |]. split; [| reflexivity].
    apply Forall_app. auto.
Qed.

Lemma uses_try_except {A : Type} (m : M A) (h : exn -> M A) :
  uses P m -> (forall e, uses P (h e)) -> uses P (try_except m h).
Proof.
  intros Hm Hh w. destruct (Hm w) as [n1 [L1 [F1 D1]]].
  unfold try_except. destruct (m w) as [[e | a] w1]; simpl in *.
  - destruct (Hh e w1) as [n2 [L2 [F2 D2]]].
    exists (n1 ++ n2). rewrite L2, L1, D2, D1, app_assoc, replay_app.
    split; [reflexivity |]. split; [| reflexivity].
    apply Forall_app. auto.
  - exists n1. auto.
Qed.

Lemma uses_ignore {A : Type} (m : M A) : uses P m -> uses P (ignore m).
Proof. intro H. unfold ignore. apply uses_bind; [exact H |]. intro. apply uses_ret. Qed.

Lemma uses_when (b : bool) (m : M unit) :
  (b = true -> uses P m) -> uses P (when b m).
Proof. destruct b; simpl; intro H; [apply H; reflexivity | apply uses_ret]. Qed.

Lemma uses_for_each {A : Type} (f : A -> M unit) (l : list A) :
  (forall x, uses P (f x)) -> uses P (for_each f l).
Proof.
  intro H. induction l as [| x l IH]; simpl.
  - apply uses_ret.
  - apply uses_bind; [apply H | intro; exact IH].
Qed.

Lemma uses_map_m {A B : Type} (f : A -> M B) (l : list A) :
  (forall x, uses P (f x)) -> uses P (map_m f l).
Proof.
  intro H. induction l as [| x l IH]; simpl.
  - apply uses_ret.
  - apply uses_bind; [apply H | intro].
    apply uses_bind; [exact IH | intro; apply uses_ret].
Qed.

Lemma uses_one {A : Type} (o : op) (m : M A) :
  P o ->
  (forall w, log (snd (m w)) = log w ++ [o]
             /\ db (snd (m w)) = apply_op o (db w)) ->
  uses P m.
Proof.
  intros Ho H w. destruct (H w) as [L D]. exists [o].
  split; [exact L |]. split; [auto | exact D].
Qed.

Lemma uses_upsert_many entries t schema ts :
  P (DbUpsert t entries schema ts) ->
  uses P (upsert_many_with_timestamp_protection entries t schema ts).
Proof.
  intro Ho. apply uses_one with (o := DbUpsert t entries schema ts);
    [exact Ho |].
  intro w. unfold upsert_many_with_timestamp_protection, bind, issue,
    read_table, write_table, apply_op. simpl.
  destruct (upsert_many entries schema ts (db w t)) as [[rows' written] |];
    simpl; auto.
Qed.

Lemma uses_find_missing_entries t ids :
  P (DbFindMissing t ids) -> uses P (find_missing_entries t ids).
Proof.
  intro Ho. apply uses_one with (o := DbFindMissing t ids); [exact Ho |].
  intro w. simpl. auto.
Qed.

Lemma uses_delete t id : P (DbDelete t id) -> uses P (delete t id).
Proof.
  intro Ho. apply uses_one with (o := DbDelete t id); [exact Ho |].
  intro w. simpl. auto.
Qed.

Lemma uses_query_select_customers :
  P DbSelectCustomers -> uses P query_select_customers.
Proof.
  intro Ho. apply uses_one with (o := DbSelectCustomers); [exact Ho |].
  intro w. simpl. auto.
Qed.

Lemma uses_query_select_live_items s :
  P (DbSelectLiveItems s) -> uses P (query_select_live_items s).
Proof.
  intro Ho. apply uses_one with (o := DbSelectLiveItems s); [exact Ho |].
  intro w. simpl. auto.
Qed.

Lemma uses_query_mark_items_deleted ids :
  P (DbMarkItemsDeleted ids) -> uses P (query_mark_items_deleted ids).
Proof.
  intro Ho. apply uses_one with (o := DbMarkItemsDeleted ids); [exact Ho |].
  intro w. simpl. auto.
Qed.

Lemma uses_query_delete_entitlements_except c ids :
  P (DbDeleteEntitlementsExcept c ids) ->
  uses P (query_delete_entitlements_except c ids).
Proof.
  intro Ho. apply uses_one with (o := DbDeleteEntitlementsExcept c ids);
    [exact Ho |].
  intro w. simpl. auto.
Qed.

Lemma uses_stripe_retrieve env r id :
  P (ApiRetrieve r id) -> uses P (stripe_retrieve env r id).
Proof.
  intro Ho. apply uses_one with (o := ApiRetrieve r id); [exact Ho |].
  intro w. unfold stripe_retrieve, bind, issue. simpl.
  destruct (retrieve (stripe env) r id); simpl; auto.
Qed.

Lemma uses_stripe_list_call env c :
  P (ApiList c) -> uses P (stripe_list_call env c).
Proof.
  intro Ho. apply uses_one with (o := ApiList c); [exact Ho |].
  intro w. unfold stripe_list_call, bind, issue. simpl.
  destruct (list_objects (stripe env) c); simpl; auto.
Qed.

Lemma bind_assoc {A B C : Type} (m : M A) (f : A -> M B) (g : B -> M C) w :
  bind (bind m f) g w = bind m (fun x => bind (f x) g) w.
Proof. unfold bind. destruct (m w) as [[e | a] w1]; reflexivity. Qed.

Lemma uses_ext {A : Type} (m m' : M A) :
  (forall w, m w = m' w) -> uses P m' -> uses P m.
Proof. intros E H w. rewrite E. apply H. Qed.

Lemma uses_bind_assoc {A B C : Type} (m : M A) (f : A -> M B) (g : B -> M C) :
  uses P (bind m (fun x => bind (f x) g)) -> uses P (bind (bind m f) g).
Proof. apply uses_ext. intro w. apply bind_assoc. Qed.

(** The call of [_get_sync_timestamp] issues nothing: it returns the
    instant, or raises. *)
Lemma call_get_sync_timestamp_run env ev refetched w :
  call_get_sync_timestamp env ev refetched w
  = (inr (_get_sync_timestamp env ev refetched), w)
  \/ exists err,
       refetched = false
       /\ fromtimestamp_error (clk env) (ev_created ev) = Some err
       /\ call_get_sync_timestamp env ev refetched w
          = (inl (DatetimeError err), w).
Proof.
  unfold call_get_sync_timestamp. destruct refetched; [left; reflexivity |].
  destruct (fromtimestamp_error (clk env) (ev_created ev)) as [err |].
  - right. exists err. auto.
  - left. reflexivity.
Qed.

Lemma uses_call_get_sync_timestamp {A : Type} env ev refetched
  (k : timestamp -> M A) :
  uses P (k (_get_sync_timestamp env ev refetched)) ->
  uses P (bind (call_get_sync_timestamp env ev refetched) k).
Proof.
  intros H w.
  destruct (call_get_sync_timestamp_run env ev refetched w)
    as [R | [err [_ [_ R]]]].
  - rewrite (bind_inr _ _ _ R). apply H.
  - rewrite (bind_inl _ _ _ R). exists []. simpl. rewrite app_nil_r. auto.
Qed.

End Uses.

(** Decomposition of an engine computation into the calls it is made of;
    [side] proves that each call met satisfies the predicate. *)
Ltac head_of t :=
  lazymatch t with
  | ?f _ => head_of f
  | _ => t
  end.

Ltac uses_step side :=
  cbv beta iota zeta;
  lazymatch goal with
  | |- uses _ (ret _) => apply uses_ret
  | |- uses _ (raise _) => apply uses_raise
  | |- uses _ (bind (ret ?a) ?k) => change (bind (ret a) k) with (k a)
  | |- uses _ (bind (call_get_sync_timestamp _ _ _) _) =>
      apply uses_call_get_sync_timestamp
  | |- uses _ (bind (bind _ _) _) => apply uses_bind_assoc
  | |- uses _ (bind (match ?x with _ => _ end) _) => destruct x eqn:?
  | |- uses _ (bind _ _) => apply uses_bind; [ | intro ]
  | |- uses _ (try_except _ _) => apply uses_try_except; [ | intro ]
  | |- uses _ (ignore _) => apply uses_ignore
  | |- uses _ (when _ _) =>
      apply uses_when;
      let H := fresh "Hwhen" in
      intro H; try (simpl in H; discriminate H)
  | |- uses _ (for_each _ _) => apply uses_for_each; intro
  | |- uses _ (map_m _ _) => apply uses_map_m; intro
  | |- uses _ (upsert_many_with_timestamp_protection _ _ _ _) =>
      apply uses_upsert_many; side
  | |- uses _ (find_missing_entries _ _) =>
      apply uses_find_missing_entries; side
  | |- uses _ (delete _ _) => apply uses_delete; side
  | |- uses _ query_select_customers =>
      apply uses_query_select_customers; side
  | |- uses _ (query_select_live_items _) =>
      apply uses_query_select_live_items; side
  | |- uses _ (query_mark_items_deleted _) =>
      apply uses_query_mark_items_deleted; side
  | |- uses _ (query_delete_entitlements_except _ _) =>
      apply uses_query_delete_entitlements_except; side
  | |- uses _ (stripe_retrieve _ _ _) => apply uses_stripe_retrieve; side
  | |- uses _ (stripe_list_call _ _) => apply uses_stripe_list_call; side
  | |- uses _ (match ?x with _ => _ end) => destruct x eqn:?
  | |- uses _ ?m => let h := head_of m in unfold h
  end.

Ltac uses_tac side := repeat (uses_step side).

Definition logged (w : world) (o : op) : world :=
  {| db := db w; log := log w ++ [o] |}.

Lemma stripe_retrieve_inr env r id entity w :
  retrieve (stripe env) r id = inr entity ->
  stripe_retrieve env r id w = (inr entity, logged w (ApiRetrieve r id)).
Proof.
  intro H. unfold stripe_retrieve, bind, issue. simpl. rewrite H. reflexivity.
Qed.

Lemma stripe_retrieve_inl env r id err w :
  retrieve (stripe env) r id = inl err ->
  stripe_retrieve env r id w = (inl err, logged w (ApiRetrieve r id)).
Proof.
  intro H. unfold stripe_retrieve, bind, issue. simpl. rewrite H. reflexivity.
Qed.

Lemma stripe_list_call_inr env c l w :
  list_objects (stripe env) c = inr l ->
  stripe_list_call env c w = (inr l, logged w (ApiList c)).
Proof.
  intro H. unfold stripe_list_call, bind, issue. simpl. rewrite H. reflexivity.
Qed.

(* ================================================================== *)
(** * Unknown events and unknown id prefixes *)
(* ================================================================== *)

(** Every event type some branch of [process_event] names. *)
Definition handled_event_types : list string :=
  charge_events ++ ["customer.deleted"] ++ checkout_session_events
  ++ customer_events ++ subscription_events ++ tax_id_events
  ++ ["customer.tax_id.deleted"] ++ invoice_events ++ product_events
  ++ ["product.deleted"] ++ price_events ++ ["price.deleted"]
  ++ plan_events ++ ["plan.deleted"] ++ setup_intent_events
  ++ subscription_schedule_events ++ payment_method_events
  ++ dispute_events ++ payment_intent_events ++ credit_note_events
  ++ early_fraud_warning_events ++ refund_events ++ review_events
  ++ ["entitlements.active_entitlement_summary.updated"]
  ++ ["invoice_payment.paid"].

Lemma in_list_outside (s : string) (l big : list string) :
  forallb (fun x => in_list x big) l = true ->
  ~ In s big -> in_list s l = false.
Proof.
  intros Hsub Hn. apply in_list_not_In. intro Hin. apply Hn.
  rewrite forallb_forall in Hsub. apply in_list_In. apply Hsub. exact Hin.
Qed.

Lemma eqb_outside (s s' : string) (big : list string) :
  in_list s' big = true -> ~ In s big -> String.eqb s s' = false.
Proof.
  intros Hin Hn. apply String.eqb_neq. intro E. subst.
  apply Hn. apply in_list_In. exact Hin.
Qed.

Ltac not_handled H :=
  repeat match goal with
    | |- context [in_list ?t ?l] =>
        rewrite (@in_list_outside t l handled_event_types
                   ltac:(vm_compute; reflexivity) H)
    | |- context [String.eqb ?t ?s] =>
        rewrite (@eqb_outside t s handled_event_types
                   ltac:(vm_compute; reflexivity) H)
    end.

(** C6. An event whose type is none of the handled event types makes
    [process_event] raise, and leaves the store and the call log exactly as
    they were: no write, no success. *)
Theorem C6_unhandled_event_raises :
  forall env ev w,
    ~ In (ev_type ev) handled_event_types ->
    process_event env ev w = (inl UnhandledWebhookEvent, w).
Proof.
  intros env ev w H. unfold process_event. cbv zeta.
  not_handled H. reflexivity.
Qed.

(** A clock for the examples: it is 1000 now, the creation time of an
    event is taken as it is, and a time past the year 9999 is refused. *)
Definition test_clock : clock :=
  {| utcnow := 1000%Z;
     fromtimestamp := fun created => created;
     fromtimestamp_error := fun created =>
       if (253402300799 <? created)%Z then Some ValueError else None |}.

Definition test_schemas : imported_schemas :=
  {| charge_schema := ["id"; "object"; "customer"; "invoice"; "status"];
     checkout_session_schema := ["id"; "object"; "customer"];
     dispute_schema := ["id"; "object"; "charge"];
     feature_schema := ["id"; "object"; "name"];
     invoice_schema := ["id"; "object"; "customer"; "subscription"];
     payment_intent_schema := ["id"; "object"; "customer"; "invoice"];
     price_schema := ["id"; "object"; "product"];
     subscription_schema := ["id"; "object"; "customer"; "status"; "items"] |}.

Definition plain_config : config :=
  {| auto_expand_lists := None;
     backfill_related_entities := None;
     revalidate_objects_via_stripe_api := None;
     logger := true |}.

(** A Stripe account that holds no object. *)
Definition empty_api : stripe_api :=
  {| retrieve := fun _ _ => inl (InvalidRequestError (Some "resource_missing"));
     list_objects := fun _ =>
       inr {| data := []; later_pages := []; paging_error := None |};
     object_str := fun _ => "" |}.

Definition make_env (api : stripe_api) (c : config) : environment :=
  {| stripe := api; clk := test_clock; schemas := test_schemas; cfg := c |}.

Definition empty_world : world := {| db := fun _ => []; log := [] |}.

Definition ping_event : event :=
  {| ev_id := "evt_1"; ev_type := "ping"; ev_created := 7%Z;
     ev_object := [("id", VStr "x_1")] |}.

Lemma C6_unhandled_event_raises_witness :
  process_event (make_env empty_api plain_config) ping_event empty_world
  = (inl UnhandledWebhookEvent, empty_world).
Proof.
  apply C6_unhandled_event_raises.
  intro H. apply in_list_In in H. vm_compute in H. discriminate H.
Defined.

(** The id prefixes [sync_single_entity] tests, in source order. *)
Definition recognized_prefixes : list string :=
  ["cus_"; "in_"; "price_"; "prod_"; "sub_"; "seti_"; "pm_"; "dp_"; "du_";
   "ch_"; "pi_"; "txi_"; "cn_"; "issfr_"; "prv_"; "re_"; "inpay_"; "feat_";
   "cs_"].

(** C10. For an id that starts with none of the recognized prefixes,
    [sync_single_entity] returns normally and leaves the store and the call
    log as they were: nothing is fetched, nothing is written, nothing is
    raised.  For a [cus_] id whose retrieved customer is marked deleted,
    the retrieval is the only call issued: no upsert follows. *)
Theorem C10_unknown_prefix_is_ignored :
  forall env stripe_id w,
    ((forall p, In p recognized_prefixes -> String.prefix p stripe_id = false) ->
     sync_single_entity env stripe_id w = (inr tt, w))
    /\ (forall customer,
          String.prefix "cus_" stripe_id = true ->
          retrieve (stripe env) Customer (VStr stripe_id) = inr customer ->
          truthy (py_get customer "deleted") = true ->
          sync_single_entity env stripe_id w
          = (inr tt,
             {| db := db w;
                log := log w ++ [ApiRetrieve Customer (VStr stripe_id)] |})).
Proof.
  intros env stripe_id w. split.
  - intro H. unfold sync_single_entity. cbv zeta.
    repeat match goal with
      | |- context [String.prefix ?p stripe_id] =>
          rewrite (H p) by (simpl; tauto)
      end.
    reflexivity.
  - intros customer Hp Hr Hd. unfold sync_single_entity. cbv zeta.
    rewrite Hp.
    rewrite (bind_inr _ _ _ (stripe_retrieve_inr env _ _ w Hr)).
    rewrite Hd. rewrite andb_false_r. reflexivity.
Qed.

(** A Stripe account whose only object is the deleted customer [cus_9]. *)
Definition deleted_customer_api : stripe_api :=
  {| retrieve := fun r id =>
       match r, id with
       | Customer, VStr "cus_9" =>
           inr [("id", VStr "cus_9"); ("object", VStr "customer");
                ("deleted", VBool true)]
       | _, _ => inl (InvalidRequestError (Some "resource_missing"))
       end;
     list_objects := fun _ =>
       inr {| data := []; later_pages := []; paging_error := None |};
     object_str := fun _ => "" |}.

Lemma C10_unknown_prefix_is_ignored_witness :
  sync_single_entity (make_env deleted_customer_api plain_config)
    "acct_123" empty_world = (inr tt, empty_world)
  /\ sync_single_entity (make_env deleted_customer_api plain_config)
       "cus_9" empty_world
     = (inr tt,
        {| db := db empty_world;
           log := [ApiRetrieve Customer (VStr "cus_9")] |}).
Proof.
  split.
  - apply (proj1 (C10_unknown_prefix_is_ignored
                    (make_env deleted_customer_api plain_config)
                    "acct_123" empty_world)).
    intros p Hp. simpl in Hp.
    repeat (destruct Hp as [Hp | Hp]; [subst p; reflexivity |]).
    contradiction.
  - apply (proj2 (C10_unknown_prefix_is_ignored
                    (make_env deleted_customer_api plain_config)
                    "cus_9" empty_world)
             [("id", VStr "cus_9"); ("object", VStr "customer");
              ("deleted", VBool true)]); reflexivity.
Defined.

(* ================================================================== *)
(** * The router as a table of handlers *)
(* ================================================================== *)

(** The common shape of the branches of [process_event] that upsert the
    event's object: decide between payload and refetch, log, upsert with
    the timestamp [_get_sync_timestamp] gives. *)
Definition entity_branch (env : environment) (ev : event) (r : resource)
  (final : option (dict -> bool))
  (upsert : dict -> option timestamp -> M unit) : M unit :=
  '(entity, refetched) <-
    _fetch_or_use_webhook_data env (ev_object ev) (stripe_retrieve env r)
      final ;;
  log_info_id env entity ;;
  ts <- call_get_sync_timestamp env ev refetched ;;
  upsert entity (Some ts).

(** What a branch of [process_event] does: the resource it may refetch,
    the terminal-state predicate it passes, the upsert it calls, and the
    table it deletes from when the refetch answers [resource_missing]. *)
Inductive handler : Type :=
| HEntity (r : resource) (final : option (dict -> bool))
    (upsert : environment -> dict -> option timestamp -> M unit)
    (delete_on_404 : option table)
| HCustomerDeleted
| HDelete (t : table)
| HEntitlementSummary
| HUnhandled.

Definition handler_of (event_type : string) : handler :=
  if in_list event_type charge_events then
    HEntity Charge (Some (status_in ["failed"; "succeeded"]))
      (fun env e ts => ignore (_upsert_charges env [e] (Some false) ts)) None
  else if String.eqb event_type "customer.deleted" then HCustomerDeleted
  else if in_list event_type checkout_session_events then
    HEntity CheckoutSession None
      (fun env e ts => ignore (_upsert_checkout_sessions env [e] (Some false) ts))
      None
  else if in_list event_type customer_events then
    HEntity Customer (Some customer_is_deleted)
      (fun env e ts => ignore (_upsert_customers [e] ts)) None
  else if in_list event_type subscription_events then
    HEntity Subscription (Some (status_in ["canceled"; "incomplete_expired"]))
      (fun env e ts => ignore (_upsert_subscriptions env [e] (Some false) ts))
      None
  else if in_list event_type tax_id_events then
    HEntity TaxId None
      (fun env e ts => ignore (_upsert_tax_ids env [e] (Some false) ts)) None
  else if String.eqb event_type "customer.tax_id.deleted" then
    HDelete tbl_tax_ids
  else if in_list event_type invoice_events then
    HEntity Invoice (Some (fun inv => py_eq_str (py_get inv "status") "void"))
      (fun env e ts => ignore (_upsert_invoices env [e] (Some false) ts)) None
  else if in_list event_type product_events then
    HEntity Product None
      (fun env e ts => ignore (_upsert_products [e] ts)) (Some tbl_products)
  else if String.eqb event_type "product.deleted" then HDelete tbl_products
  else if in_list event_type price_events then
    HEntity Price None
      (fun env e ts => ignore (_upsert_prices env [e] (Some false) ts))
      (Some tbl_prices)
  else if String.eqb event_type "price.deleted" then HDelete tbl_prices
  else if in_list event_type plan_events then
    HEntity Plan None
      (fun env e ts => ignore (_upsert_plans env [e] (Some false) ts))
      (Some tbl_plans)
  else if String.eqb event_type "plan.deleted" then HDelete tbl_plans
  else if in_list event_type setup_intent_events then
    HEntity SetupIntent (Some (status_in ["canceled"; "succeeded"]))
      (fun env e ts => ignore (_upsert_setup_intents env [e] (Some false) ts))
      None
  else if in_list event_type subscription_schedule_events then
    HEntity SubscriptionSchedule (Some (status_in ["canceled"; "completed"]))
      (fun env e ts =>
         ignore (_upsert_subscription_schedules env [e] (Some false) ts))
      None
  else if in_list event_type payment_method_events then
    HEntity PaymentMethod None
      (fun env e ts => ignore (_upsert_payment_methods env [e] (Some false) ts))
      None
  else if in_list event_type dispute_events then
    HEntity Dispute (Some (status_in ["won"; "lost"]))
      (fun env e ts => ignore (_upsert_disputes env [e] (Some false) ts)) None
  else if in_list event_type payment_intent_events then
    HEntity PaymentIntent (Some (status_in ["canceled"; "succeeded"]))
      (fun env e ts => ignore (_upsert_payment_intents env [e] (Some false) ts))
      None
  else if in_list event_type credit_note_events then
    HEntity CreditNote (Some (fun cn => py_eq_str (py_get cn "status") "void"))
      (fun env e ts => ignore (_upsert_credit_notes env [e] (Some false) ts))
      None
  else if in_list event_type early_fraud_warning_events then
    HEntity EarlyFraudWarning None
      (fun env e ts =>
         ignore (_upsert_early_fraud_warning env [e] (Some false) ts)) None
  else if in_list event_type refund_events then
    HEntity Refund None
      (fun env e ts => ignore (_upsert_refunds env [e] (Some false) ts)) None
  else if in_list event_type review_events then
    HEntity Review None
      (fun env e ts => ignore (_upsert_reviews env [e] (Some false) ts)) None
  else if String.eqb event_type
            "entitlements.active_entitlement_summary.updated" then
    HEntitlementSummary
  else if String.eqb event_type "invoice_payment.paid" then
    HEntity InvoicePayment None
      (fun env e ts => ignore (_upsert_invoice_payments env [e] (Some false) ts))
      None
  else HUnhandled.

Definition run_handler (env : environment) (ev : event) (h : handler)
  : M unit :=
  match h with
  | HEntity r final upsert None => entity_branch env ev r final (upsert env)
  | HEntity r final upsert (Some t) =>
      try_except (entity_branch env ev r final (upsert env))
        (deletion_via_404 ev (delete t))
  | HCustomerDeleted =>
      id <- py_item (ev_object ev) "id" ;;
      let customer :=
        [("id", id); ("object", VStr "customer"); ("deleted", VBool true)] in
      log_info_id env customer ;;
      ts <- call_get_sync_timestamp env ev false ;;
      ignore (_upsert_customers [customer] (Some ts))
  | HDelete t =>
      log_info_id env (ev_object ev) ;;
      id <- py_item (ev_object ev) "id" ;;
      ignore (delete t id)
  | HEntitlementSummary => process_entitlement_summary env ev
  | HUnhandled => raise UnhandledWebhookEvent
  end.

(** [process_event] is the table-driven router. *)
Lemma process_event_route (env : environment) (ev : event) :
  process_event env ev = run_handler env ev (handler_of (ev_type ev)).
Proof.
  unfold process_event, handler_of. cbv zeta.
  repeat match goal with
    | |- context [in_list (ev_type ev) ?l] =>
        destruct (in_list (ev_type ev) l); [reflexivity |]
    | |- context [String.eqb (ev_type ev) ?s] =>
        destruct (String.eqb (ev_type ev) s); [reflexivity |]
    end.
  reflexivity.
Qed.

(* ================================================================== *)
(** * Refetch decision and sync timestamps *)
(* ================================================================== *)

(** A call is [stamped ts] when, if it is an upsert, it carries the sync
    timestamp [ts]; the only upserts without a timestamp are the price and
    product backfills of checkout-session line items. *)
Definition stamped (ts : timestamp) (o : op) : Prop :=
  match o with
  | DbUpsert t _ _ ts' =>
      ts' = Some ts \/ (ts' = None /\ (t = tbl_prices \/ t = tbl_products))
  | _ => True
  end.

(** The calls by which [process_event] refetches: the retrieval of the
    event's object, or the listing of a customer's entitlements. *)
Definition is_refetch (o : op) : bool :=
  match o with
  | ApiRetrieve _ _ => true
  | ApiList (ListActiveEntitlements _) => true
  | _ => false
  end.

(** A run of [process_event] refetched when its first call is a refetch:
    the refetch, when there is one, precedes every other call. *)
Definition refetch_first (new : list op) : bool :=
  match new with
  | o :: _ => is_refetch o
  | [] => false
  end.

Definition quiet_write (ts : timestamp) (o : op) : Prop :=
  stamped ts o /\ is_refetch o = false.

Definition writes_stamped (upsert : option timestamp -> M unit) : Prop :=
  forall ts w,
  exists new,
    log (snd (upsert (Some ts) w)) = log w ++ new
    /\ Forall (stamped ts) new
    /\ refetch_first new = false.

Lemma quiet_refetch_first ts new :
  Forall (quiet_write ts) new -> refetch_first new = false.
Proof. intro H. destruct H as [| o l [_ Ho] _]; [reflexivity | exact Ho]. Qed.

Lemma quiet_stamped ts new :
  Forall (quiet_write ts) new -> Forall (stamped ts) new.
Proof. apply Forall_impl. intros o [H _]. exact H. Qed.

Lemma uses_writes_stamped (upsert : option timestamp -> M unit) :
  (forall ts, uses (quiet_write ts) (upsert (Some ts))) ->
  writes_stamped upsert.
Proof.
  intros H ts w. destruct (H ts w) as [new [L [F _]]]. exists new.
  split; [exact L |]. split; [apply quiet_stamped; exact F |].
  apply (quiet_refetch_first F).
Qed.

Ltac quiet_side := solve [split; [simpl; auto | reflexivity]].



(** [starts_with o P m]: the first call [m] issues is [o], and the calls
    that follow satisfy [P]. *)
Definition starts_with {A : Type} (o : op) (P : op -> Prop) (m : M A) : Prop :=
  forall w,
  exists rest, log (snd (m w)) = log w ++ o :: rest /\ Forall P rest.

Lemma starts_with_bind {A B : Type} o P (m : M A) (k : A -> M B) :
  starts_with o P m -> (forall a, uses P (k a)) ->
  starts_with o P (bind m k).
Proof.
  intros Hm Hk w. destruct (Hm w) as [r1 [L1 F1]].
  unfold bind. destruct (m w) as [[e | a] w1]; simpl in *.
  - exists r1. auto.
  - destruct (Hk a w1) as [n2 [L2 [F2 _]]].
    exists (r1 ++ n2). rewrite L2, L1, <- app_assoc. simpl.
    split; [reflexivity | apply Forall_app; auto].
Qed.

Lemma starts_with_upsert_many P entries t schema ts :
  starts_with (DbUpsert t entries schema ts) P
    (upsert_many_with_timestamp_protection entries t schema ts).
Proof.
  intro w. exists []. split; [| constructor].
  unfold upsert_many_with_timestamp_protection, bind, issue, read_table,
    write_table. simpl.
  destruct (upsert_many entries schema ts (db w t)) as [[rows' written] |];
    reflexivity.
Qed.

Lemma checkout_sessions_writes_stamped env e :
  writes_stamped
    (fun ts => ignore (_upsert_checkout_sessions env [e] (Some false) ts)).
Proof.
  intros ts w.
  assert (S : starts_with
                (DbUpsert tbl_checkout_sessions [e]
                   (checkout_session_schema (schemas env)) (Some ts))
                (stamped ts)
                (ignore (_upsert_checkout_sessions env [e] (Some false)
                           (Some ts)))).
  { unfold ignore, _upsert_checkout_sessions. simpl when.
    apply starts_with_bind; [| intro; apply uses_ret].
    match goal with
    | |- starts_with _ _ (bind (ret tt) ?k) =>
        change (bind (ret tt) k) with (k tt)
    end.
    cbv beta.
    apply starts_with_bind;
      [apply starts_with_upsert_many | intro rows].
    uses_tac ltac:(solve [simpl; auto]). }
  destruct (S w) as [rest [L F]].
  eexists. split; [exact L |]. split; [| reflexivity].
  constructor; [simpl; auto | exact F].
Qed.

Lemma handler_of_stamped event_type r final upsert del :
  handler_of event_type = HEntity r final upsert del ->
  forall env e, writes_stamped (upsert env e).
Proof.
  unfold handler_of.
  repeat match goal with
    | |- context [if ?b then _ else _] => destruct b
    end;
    intros H env e; try discriminate H;
    inversion H; subst;
    lazymatch goal with
    | |- writes_stamped
           (fun ts => ignore (_upsert_checkout_sessions _ _ _ ts)) =>
        apply checkout_sessions_writes_stamped
    | _ => apply uses_writes_stamped; intro ts; uses_tac quiet_side
    end.
Qed.

(** The timestamp a run of [process_event] must attach, read off the
    calls it issued. *)
Definition expected_stamp (env : environment) (ev : event) (new : list op)
  : timestamp :=
  if refetch_first new then utcnow (clk env)
  else fromtimestamp (clk env) (ev_created ev).

(** The conditions under which [_fetch_or_use_webhook_data] refetches. *)
Definition refetch_allowed (env : environment) (entity : dict)
  (final : option (dict -> bool)) : Prop :=
  truthy (py_get entity "id") = true
  /\ (forall f, final = Some f -> f entity = false)
  /\ _should_refetch_entity env entity = true.

Lemma log_info_id_run env e w :
  log_info_id env e w = (inr tt, w)
  \/ log_info_id env e w = (inl (KeyError "id"), w).
Proof.
  unfold log_info_id, ignore, py_item, bind.
  destruct (logger (cfg env)); [| left; reflexivity].
  destruct (lookup_key "id" e); [left | right]; reflexivity.
Qed.

Lemma logged_upsert_stamped env ev e refetched
  (upsert : dict -> option timestamp -> M unit) :
  writes_stamped (upsert e) ->
  forall w,
  exists new,
    log (snd ((log_info_id env e ;;
               ts <- call_get_sync_timestamp env ev refetched ;;
               upsert e (Some ts)) w)) = log w ++ new
    /\ Forall (stamped (_get_sync_timestamp env ev refetched)) new
    /\ refetch_first new = false.
Proof.
  intros H w. destruct (log_info_id_run env e w) as [R | R].
  - rewrite (bind_inr _ _ _ R).
    destruct (call_get_sync_timestamp_run env ev refetched w)
      as [T | [err [_ [_ T]]]].
    + rewrite (bind_inr _ _ _ T). apply H.
    + rewrite (bind_inl _ _ _ T). exists []. simpl. rewrite app_nil_r. auto.
  - rewrite (bind_inl _ _ _ R). exists []. simpl. rewrite app_nil_r. auto.
Qed.

Lemma entity_branch_log env ev r final upsert :
  (forall e, writes_stamped (upsert e)) ->
  forall w,
  exists new,
    log (snd (entity_branch env ev r final upsert w)) = log w ++ new
    /\ Forall (stamped (expected_stamp env ev new)) new
    /\ (refetch_first new = true <-> refetch_allowed env (ev_object ev) final).
Proof.
  intros Hup w. unfold entity_branch, _fetch_or_use_webhook_data.
  set (obj := ev_object ev).
  assert (Quiet : forall (k : M unit) new,
             log (snd (k w)) = log w ++ new ->
             Forall (stamped (fromtimestamp (clk env) (ev_created ev))) new ->
             refetch_first new = false ->
             ~ refetch_allowed env obj final ->
             exists new',
               log (snd (k w)) = log w ++ new'
               /\ Forall (stamped (expected_stamp env ev new')) new'
               /\ (refetch_first new' = true <-> refetch_allowed env obj final)).
  { intros k new L F R Hn. exists new. split; [exact L |].
    unfold expected_stamp. rewrite R. split; [exact F |].
    split; [discriminate | contradiction]. }
  destruct (truthy (py_get obj "id")) eqn:Hid; simpl negb; cbv iota.
  2:{ destruct (logged_upsert_stamped env ev obj false upsert (Hup obj) w)
        as [new [L [F R]]].
      apply (Quiet _ new L F R). intros [H _]. congruence. }
  destruct (match final with Some f => f obj | None => false end) eqn:Hfin.
  { destruct (logged_upsert_stamped env ev obj false upsert (Hup obj) w)
      as [new [L [F R]]].
    apply (Quiet _ new L F R). intros [_ [H _]].
    destruct final as [f |]; [| discriminate Hfin].
    rewrite (H f eq_refl) in Hfin. discriminate Hfin. }
  destruct (_should_refetch_entity env obj) eqn:Hre.
  2:{ destruct (logged_upsert_stamped env ev obj false upsert (Hup obj) w)
        as [new [L [F R]]].
      apply (Quiet _ new L F R). intros [_ [_ H]]. congruence. }
  assert (Allowed : refetch_allowed env obj final).
  { split; [exact Hid |]. split; [| exact Hre].
    intros f E. subst final. exact Hfin. }
  rewrite bind_assoc.
  destruct (retrieve (stripe env) r (py_get obj "id")) as [err | fetched] eqn:Hr.
  - rewrite (bind_inl _ _ _ (stripe_retrieve_inl env _ _ w Hr)).
    exists [ApiRetrieve r (py_get obj "id")]. split; [reflexivity |].
    split; [| split; [intro; exact Allowed | reflexivity]].
    constructor; [exact I | constructor].
  - rewrite (bind_inr _ _ _ (stripe_retrieve_inr env _ _ w Hr)).
    match goal with
    | |- context [bind (ret ?a) ?k ?w0] =>
        change (bind (ret a) k w0) with (k a w0)
    end.
    cbv beta iota.
    destruct (logged_upsert_stamped env ev fetched true upsert (Hup fetched)
                (logged w (ApiRetrieve r (py_get obj "id"))))
      as [new [L [F R]]].
    exists (ApiRetrieve r (py_get obj "id") :: new). split.
    + etransitivity; [exact L |]. simpl log. rewrite <- app_assoc.
      reflexivity.
    + split; [| split; [intro; exact Allowed | reflexivity]].
      constructor; [exact I | exact F].
Qed.

Lemma refetch_first_app (l1 l2 : list op) :
  Forall (fun o => is_refetch o = false) l2 ->
  refetch_first (l1 ++ l2) = refetch_first l1.
Proof.
  intro H. destruct l1 as [| o l1]; [| reflexivity].
  simpl. destruct H as [| o l Ho _]; [reflexivity | exact Ho].
Qed.

Lemma uses_quiet_log env ev (m : M unit) :
  uses (quiet_write (fromtimestamp (clk env) (ev_created ev))) m ->
  forall w,
  exists new,
    log (snd (m w)) = log w ++ new
    /\ Forall (stamped (expected_stamp env ev new)) new
    /\ refetch_first new = false.
Proof.
  intros H w. destruct (H w) as [new [L [F _]]]. exists new.
  split; [exact L |].
  pose proof (quiet_refetch_first F) as R.
  unfold expected_stamp. rewrite R.
  split; [apply quiet_stamped; exact F | reflexivity].
Qed.

Definition is_delete (o : op) : Prop :=
  match o with DbDelete _ _ => True | _ => False end.

Lemma deletion_via_404_uses ev t err :
  uses is_delete (deletion_via_404 ev (delete t) err).
Proof. uses_tac ltac:(exact I). Qed.

(** The conditions under which the entitlement branch lists the
    customer's entitlements again. *)
Definition entitlements_refetched (env : environment) (ev : event) : Prop :=
  lookup_key "entitlements" (ev_object ev) <> None
  /\ lookup_key "customer" (ev_object ev) <> None
  /\ exists l, revalidate_objects_via_stripe_api (cfg env) = Some l
               /\ In "entitlements" l.

(** When a run of [process_event] on [ev] refetches. *)
Definition event_refetch_allowed (env : environment) (ev : event) : Prop :=
  match handler_of (ev_type ev) with
  | HEntity _ final _ _ => refetch_allowed env (ev_object ev) final
  | HEntitlementSummary => entitlements_refetched env ev
  | _ => False
  end.

Lemma reconcile_entitlements_quiet env ev entitlements refetched :
  uses (quiet_write (_get_sync_timestamp env ev refetched))
    (reconcile_entitlements env ev entitlements refetched).
Proof. uses_tac quiet_side. Qed.

Lemma entitlement_summary_log env ev w :
  exists new,
    log (snd (process_entitlement_summary env ev w)) = log w ++ new
    /\ Forall (stamped (expected_stamp env ev new)) new
    /\ (refetch_first new = true <-> entitlements_refetched env ev).
Proof.
  unfold process_entitlement_summary, entitlements_in_effect,
    entitlements_refetched.
  cbv zeta. rewrite bind_assoc. unfold py_item at 1.
  destruct (lookup_key "entitlements" (ev_object ev)) as [ents |].
  2:{ exists []. simpl. rewrite app_nil_r.
      split; [reflexivity |]. split; [constructor |].
      split; [discriminate | intros [H _]; congruence]. }
  match goal with
  | |- context [bind (ret ?a) ?k ?w0] =>
      change (bind (ret a) k w0) with (k a w0)
  end.
  cbv beta.
  assert (Plain : forall w0 new,
             log (snd (reconcile_entitlements env ev ents false w0))
             = log w0 ++ new ->
             Forall (quiet_write (fromtimestamp (clk env) (ev_created ev))) new ->
             Forall (stamped (expected_stamp env ev new)) new).
  { intros w0 new _ F. unfold expected_stamp.
    rewrite (quiet_refetch_first F). apply (quiet_stamped F). }
  destruct (revalidate_objects_via_stripe_api (cfg env)) as [l |] eqn:Hl.
  2:{ match goal with
      | |- context [bind (ret ?a) ?k ?w0] =>
          change (bind (ret a) k w0) with (k a w0)
      end.
      cbv beta iota.
      destruct (reconcile_entitlements_quiet env ev ents false w)
        as [new [L [F _]]].
      exists new. split; [exact L |]. split; [apply (Plain w new L F) |].
      rewrite (quiet_refetch_first F).
      split; [discriminate | intros [_ [_ [l [E _]]]]; discriminate E]. }
  destruct (in_list "entitlements" l) eqn:Hin.
  2:{ match goal with
      | |- context [bind (ret ?a) ?k ?w0] =>
          change (bind (ret a) k w0) with (k a w0)
      end.
      cbv beta iota.
      destruct (reconcile_entitlements_quiet env ev ents false w)
        as [new [L [F _]]].
      exists new. split; [exact L |]. split; [apply (Plain w new L F) |].
      rewrite (quiet_refetch_first F).
      split; [discriminate |].
      intros [_ [_ [l' [E Hl']]]]. inversion E; subst l'.
      apply in_list_In in Hl'. congruence. }
  rewrite bind_assoc. unfold py_item at 1.
  destruct (lookup_key "customer" (ev_object ev)) as [customer |] eqn:Hc.
  2:{ exists []. simpl. rewrite app_nil_r.
      split; [reflexivity |]. split; [constructor |].
      split; [discriminate | intros [_ [H _]]; congruence]. }
  match goal with
  | |- context [bind (ret ?a) ?k ?w0] =>
      change (bind (ret a) k w0) with (k a w0)
  end.
  cbv beta. rewrite bind_assoc.
  assert (Yes : Some ents <> None /\ Some customer <> None
                /\ exists l0, Some l = Some l0 /\ In "entitlements" l0).
  { split; [discriminate |]. split; [discriminate |].
    exists l. split; [reflexivity | apply in_list_In; exact Hin]. }
  destruct (list_objects (stripe env) (ListActiveEntitlements customer))
    as [err | result] eqn:Hr.
  - unfold stripe_list_call at 1. rewrite bind_assoc.
    rewrite (bind_inr _ _ _ (eq_refl : issue _ w = (inr tt, _))).
    rewrite Hr. simpl.
    exists [ApiList (ListActiveEntitlements customer)].
    split; [reflexivity |]. split; [constructor; [exact I | constructor] |].
    split; [intros _; exact Yes | reflexivity].
  - rewrite (bind_inr _ _ _ (stripe_list_call_inr env _ w Hr)).
    match goal with
    | |- context [bind (ret ?a) ?k ?w0] =>
        change (bind (ret a) k w0) with (k a w0)
    end.
    cbv beta iota.
    destruct (reconcile_entitlements_quiet env ev (list_object result) true
                (logged w (ApiList (ListActiveEntitlements customer))))
      as [new [L [F _]]].
    exists (ApiList (ListActiveEntitlements customer) :: new). split.
    + etransitivity; [exact L |]. simpl log. rewrite <- app_assoc.
      reflexivity.
    + split; [| split; [intros _; exact Yes | reflexivity]].
      constructor; [exact I |]. apply (quiet_stamped F).
Qed.

Lemma is_delete_quiet ts new :
  Forall is_delete new ->
  Forall (stamped ts) new /\ Forall (fun o => is_refetch o = false) new.
Proof.
  intro H. split; (eapply Forall_impl; [| exact H]);
    intros o Ho; destruct o; simpl in *; auto; contradiction.
Qed.

(** The calls of one run of [process_event]: every upsert carries the
    timestamp the run must attach, and the run starts with a refetch
    exactly when the event's handler allows one. *)
Lemma process_event_log env ev w :
  exists new,
    log (snd (process_event env ev w)) = log w ++ new
    /\ Forall (stamped (expected_stamp env ev new)) new
    /\ (refetch_first new = true <-> event_refetch_allowed env ev).
Proof.
  rewrite process_event_route. unfold event_refetch_allowed.
  destruct (handler_of (ev_type ev)) as [r final upsert del | | t | |] eqn:Hh;
    simpl run_handler.
  - pose proof (entity_branch_log env ev r final (upsert env)
                  (handler_of_stamped _ Hh env) w) as [new1 [L1 [F1 I1]]].
    destruct del as [t |]; [| exists new1; auto].
    unfold try_except.
    destruct (entity_branch env ev r final (upsert env) w) as [[e | a] w1];
      simpl in L1; [| exists new1; auto].
    destruct (deletion_via_404_uses ev t e w1) as [new2 [L2 [F2 _]]].
    destruct (is_delete_quiet (expected_stamp env ev new1) F2) as [S2 Q2].
    exists (new1 ++ new2).
    assert (R : refetch_first (new1 ++ new2) = refetch_first new1)
      by (apply refetch_first_app; exact Q2).
    split; [rewrite L2, L1, app_assoc; reflexivity |].
    unfold expected_stamp in *. rewrite R.
    split; [apply Forall_app; auto | exact I1].
  - assert (U : uses (quiet_write (fromtimestamp (clk env) (ev_created ev)))
                  (run_handler env ev HCustomerDeleted))
      by (unfold run_handler; uses_tac quiet_side).
    destruct (@uses_quiet_log env ev _ U w) as [new [L [F R]]].
    exists new. split; [exact L |]. split; [exact F |].
    rewrite R. split; [discriminate | contradiction].
  - assert (U : uses (quiet_write (fromtimestamp (clk env) (ev_created ev)))
                  (run_handler env ev (HDelete t)))
      by (unfold run_handler; uses_tac quiet_side).
    destruct (@uses_quiet_log env ev _ U w) as [new [L [F R]]].
    exists new. split; [exact L |]. split; [exact F |].
    rewrite R. split; [discriminate | contradiction].
  - apply entitlement_summary_log.
  - exists []. simpl. rewrite app_nil_r. split; [reflexivity |].
    split; [constructor |]. split; [discriminate | contradiction].
Qed.


Lemma fetch_or_use_refetched env entity fetch_fn final_opt fetched w w' :
  _fetch_or_use_webhook_data env entity fetch_fn final_opt w
  = (inr (fetched, true), w') ->
  truthy (py_get entity "id") = true
  /\ (forall f, final_opt = Some f -> f entity = false)
  /\ _should_refetch_entity env entity = true.
Proof.
  unfold _fetch_or_use_webhook_data.
  destruct (truthy (py_get entity "id")); simpl negb; cbv iota;
    [| intro H; inversion H].
  destruct (match final_opt with Some f => f entity | None => false end)
    eqn:Hfin; [intro H; inversion H |].
  destruct (_should_refetch_entity env entity); [| intro H; inversion H].
  intros _. split; [reflexivity |]. split; [| reflexivity].
  intros f E. subst final_opt. exact Hfin.
Qed.



(** A call is [timestamped_for event_type] unless it is an upsert without
    a sync timestamp; such upserts are made only for a checkout-session
    event, by the backfill of the prices of its line items and of the
    products of these prices. *)
Definition timestamped_for (event_type : string) (o : op) : Prop :=
  match o with
  | DbUpsert t _ _ None =>
      In event_type checkout_session_events
      /\ (t = tbl_prices \/ t = tbl_products)
  | _ => True
  end.

Ltac timestamped_side :=
  solve [ exact I
        | split;
          [ apply (proj1 (in_list_In _ _)); assumption
          | first [left; reflexivity | right; reflexivity] ] ].

Lemma handler_of_timestamped event_type r final upsert del :
  handler_of event_type = HEntity r final upsert del ->
  forall env e ts,
    uses (timestamped_for event_type) (upsert env e (Some ts)).
Proof.
  unfold handler_of.
  repeat match goal with
    | |- context [if ?b then _ else _] =>
        let E := fresh "E" in destruct b eqn:E
    end;
    intros H env e ts; try discriminate H;
    inversion H; subst;
    uses_tac timestamped_side.
Qed.

Lemma entity_branch_timestamped event_type env ev r final upsert :
  (forall e ts, uses (timestamped_for event_type) (upsert e (Some ts))) ->
  uses (timestamped_for event_type) (entity_branch env ev r final upsert).
Proof.
  intro H. unfold entity_branch.
  apply uses_bind; [uses_tac ltac:(exact I) | intros [entity refetched]].
  apply uses_bind; [uses_tac ltac:(exact I) | intro].
  apply uses_call_get_sync_timestamp. apply H.
Qed.

(** In a run of [process_event], an upsert without a sync timestamp occurs
    only in the backfills of a checkout-session event. *)
Lemma process_event_timestamped env ev :
  uses (timestamped_for (ev_type ev)) (process_event env ev).
Proof.
  rewrite process_event_route.
  destruct (handler_of (ev_type ev)) as [r final upsert del | | t | |] eqn:Hh;
    cbn [run_handler].
  - pose proof (@entity_branch_timestamped (ev_type ev) env ev r final
                  (upsert env)
                  (fun e ts => handler_of_timestamped _ Hh env e ts)) as U.
    destruct del as [t |]; [| exact U].
    apply uses_try_except; [exact U | intro err].
    uses_tac ltac:(exact I).
  - uses_tac ltac:(exact I).
  - uses_tac ltac:(exact I).
  - uses_tac ltac:(exact I).
  - apply uses_raise.
Qed.

(** C8. In a run of [process_event], every upsert carries the sync
    timestamp [_get_sync_timestamp] gives: the event's creation time when
    the run did not refetch, and the current wall-clock time when it did
    (a run refetched when its first call is the retrieval of the event's
    object or the listing of the customer's entitlements).  This holds of
    the write of the event's own object for every event type.  The only
    upserts without a timestamp are made for a checkout-session event, by
    the backfill of the prices of its line items and of the products of
    these prices. *)
Theorem C8_sync_timestamp_source :
  forall env ev w new t entries schema ts,
    log (snd (process_event env ev w)) = log w ++ new ->
    In (DbUpsert t entries schema ts) new ->
    ts = Some (if refetch_first new then utcnow (clk env)
               else fromtimestamp (clk env) (ev_created ev))
    \/ (ts = None
        /\ In (ev_type ev) checkout_session_events
        /\ (t = tbl_prices \/ t = tbl_products)).
Proof.
  intros env ev w new t entries schema ts L Hin.
  destruct (process_event_log env ev w) as [new' [L' [F _]]].
  rewrite L' in L. apply app_inv_head in L. subst new'.
  destruct (process_event_timestamped env ev w) as [new' [L2 [F2 _]]].
  rewrite L' in L2. apply app_inv_head in L2. subst new'.
  rewrite Forall_forall in F, F2.
  destruct (F _ Hin) as [E | [E _]]; [left; exact E |].
  right. subst ts. split; [reflexivity |]. exact (F2 _ Hin).
Qed.

(** A Stripe account with one customer, one invoice and one charge. *)
Definition small_api : stripe_api :=
  {| retrieve := fun r id =>
       match r, id with
       | Customer, VStr "cus_1" =>
           inr [("id", VStr "cus_1"); ("object", VStr "customer")]
       | Customer, VStr "cus_2" =>
           inr [("id", VStr "cus_2"); ("object", VStr "customer")]
       | Invoice, VStr "in_1" =>
           inr [("id", VStr "in_1"); ("object", VStr "invoice");
                ("customer", VStr "cus_2")]
       | Charge, VStr "ch_1" =>
           inr [("id", VStr "ch_1"); ("object", VStr "charge");
                ("status", VStr "succeeded"); ("customer", VStr "cus_1")]
       | _, _ => inl (InvalidRequestError (Some "resource_missing"))
       end;
     list_objects := fun _ =>
       inr {| data := []; later_pages := []; paging_error := None |};
     object_str := fun _ => "" |}.

(** A configuration that revalidates charges, products and
    entitlements. *)
Definition revalidating_config : config :=
  {| auto_expand_lists := None;
     backfill_related_entities := None;
     revalidate_objects_via_stripe_api :=
       Some ["charge"; "product"; "entitlements"];
     logger := true |}.

Definition charge_succeeded_event : event :=
  {| ev_id := "evt_2"; ev_type := "charge.succeeded"; ev_created := 7%Z;
     ev_object := [("id", VStr "ch_1"); ("object", VStr "charge");
                   ("status", VStr "succeeded")] |}.

Definition charge_pending_event : event :=
  {| ev_id := "evt_3"; ev_type := "charge.pending"; ev_created := 8%Z;
     ev_object := [("id", VStr "ch_1"); ("object", VStr "charge");
                   ("status", VStr "pending")] |}.


Definition price_created_event : event :=
  {| ev_id := "evt_4"; ev_type := "price.created"; ev_created := 11%Z;
     ev_object := [("id", VStr "price_1"); ("object", VStr "price");
                   ("product", VStr "prod_1")] |}.

Lemma C8_sync_timestamp_source_witness :
  let env := make_env small_api revalidating_config in
  let fetched := [("id", VStr "ch_1"); ("object", VStr "charge");
                  ("status", VStr "succeeded"); ("customer", VStr "cus_1")] in
  let refetching := [ApiRetrieve Charge (VStr "ch_1");
                     DbUpsert tbl_charges [fetched]
                       (charge_schema test_schemas) (Some 1000%Z)] in
  let plain := [DbUpsert tbl_prices [ev_object price_created_event]
                  (price_schema test_schemas) (Some 11%Z)] in
  (log (snd (process_event env charge_pending_event empty_world))
   = log empty_world ++ refetching
   /\ (Some 1000%Z
       = Some (if refetch_first refetching then utcnow (clk env)
               else fromtimestamp (clk env)
                      (ev_created charge_pending_event))
       \/ (Some 1000%Z = None
           /\ In (ev_type charge_pending_event) checkout_session_events
           /\ (tbl_charges = tbl_prices \/ tbl_charges = tbl_products))))
  /\ (log (snd (process_event env price_created_event empty_world))
      = log empty_world ++ plain
      /\ (Some 11%Z
          = Some (if refetch_first plain then utcnow (clk env)
                  else fromtimestamp (clk env)
                         (ev_created price_created_event))
          \/ (Some 11%Z = None
              /\ In (ev_type price_created_event) checkout_session_events
              /\ (tbl_prices = tbl_prices \/ tbl_prices = tbl_products)))).
Proof.
  intros env fetched refetching plain. split.
  - split; [reflexivity |].
    apply (@C8_sync_timestamp_source env charge_pending_event empty_world
             refetching tbl_charges [fetched] (charge_schema test_schemas)
             (Some 1000%Z)).
    + reflexivity.
    + right. left. reflexivity.
  - split; [reflexivity |].
    apply (@C8_sync_timestamp_source env price_created_event empty_world
             plain tbl_prices [ev_object price_created_event]
             (price_schema test_schemas) (Some 11%Z)).
    + reflexivity.
    + left. reflexivity.
Defined.

(* ================================================================== *)
(** * Deletion through a failed refetch *)
(* ================================================================== *)

Lemma truthy_get_lookup (d : dict) (k : string) :
  truthy (py_get d k) = true -> lookup_key k d = Some (py_get d k).
Proof.
  unfold py_get. destruct (lookup_key k d); [reflexivity | discriminate].
Qed.

Lemma find_row_delete (s : string) (rows : list row) :
  find_row s (fst (delete_row (VStr s) rows)) = None.
Proof.
  unfold delete_row, row_has_id, py_eq_str. simpl fst.
  induction rows as [| r rows IH]; [reflexivity |].
  simpl. destruct (String.eqb s (row_id r)) eqn:E; simpl; [exact IH |].
  rewrite String.eqb_sym, E. exact IH.
Qed.

Lemma handler_of_product event_type :
  In event_type product_events ->
  handler_of event_type
  = HEntity Product None
      (fun env e ts => ignore (_upsert_products [e] ts)) (Some tbl_products).
Proof.
  intros [H | [H | []]]; subst event_type; reflexivity.
Qed.

(** C5. For a [product.created] or [product.updated] event whose object
    is refetched (it has an id and its object type is in the revalidation
    list): if the retrieval fails with [resource_missing], [process_event]
    returns normally, its only calls are the retrieval and the deletion of
    the product row with the event object's id, and the row is gone; if the
    retrieval fails with any other error, that error reaches the caller and
    the store is untouched. *)
Theorem C5_product_refetch_404_deletes :
  forall env ev w,
    In (ev_type ev) product_events ->
    truthy (py_get (ev_object ev) "id") = true ->
    _should_refetch_entity env (ev_object ev) = true ->
    let id := py_get (ev_object ev) "id" in
    (retrieve (stripe env) Product id
     = inl (InvalidRequestError (Some "resource_missing")) ->
     process_event env ev w
     = (inr tt,
        {| db := set_table (db w) tbl_products
                   (fst (delete_row id (db w tbl_products)));
           log := log w ++ [ApiRetrieve Product id;
                            DbDelete tbl_products id] |})
     /\ forall s, id = VStr s ->
          has_row (fst (delete_row id (db w tbl_products))) s = false)
    /\ (forall err,
          retrieve (stripe env) Product id = inl err ->
          err <> InvalidRequestError (Some "resource_missing") ->
          process_event env ev w
          = (inl err, logged w (ApiRetrieve Product id))).
Proof.
  intros env ev w Hty Hid Hre id.
  assert (Run : forall err,
             retrieve (stripe env) Product id = inl err ->
             process_event env ev w
             = deletion_via_404 ev (delete tbl_products) err
                 (logged w (ApiRetrieve Product id))).
  { intros err Hr. rewrite process_event_route.
    rewrite (handler_of_product Hty). simpl run_handler.
    unfold try_except, entity_branch, _fetch_or_use_webhook_data.
    rewrite Hid. simpl negb. cbv iota. rewrite Hre.
    rewrite !bind_assoc.
    rewrite (bind_inl _ _ _ (stripe_retrieve_inl env _ _ w Hr)).
    reflexivity. }
  split.
  - intro Hr. rewrite (Run _ Hr). split.
    + unfold deletion_via_404. simpl String.eqb. cbv iota.
      unfold py_item. rewrite (truthy_get_lookup _ _ Hid).
      unfold logged. unfold ignore, delete, bind, issue, read_table,
        write_table. simpl. rewrite <- app_assoc. reflexivity.
    + intros s E. unfold has_row. fold id in E. rewrite E.
      rewrite find_row_delete. reflexivity.
  - intros err Hr Hne. rewrite (Run _ Hr). unfold deletion_via_404.
    destruct err as [[c |] | | | | | | |]; try reflexivity.
    destruct (String.eqb c "resource_missing") eqn:E; [| reflexivity].
    apply String.eqb_eq in E. subst c. contradiction.
Qed.

(** A Stripe account whose products are gone, and one that is down. *)
Definition unavailable_api : stripe_api :=
  {| retrieve := fun _ _ => inl (StripeError "APIConnectionError");
     list_objects := fun _ => inl (StripeError "APIConnectionError");
     object_str := fun _ => "" |}.

Definition product_updated_event : event :=
  {| ev_id := "evt_4"; ev_type := "product.updated"; ev_created := 9%Z;
     ev_object := [("id", VStr "prod_1"); ("object", VStr "product")] |}.

Definition world_with_product : world :=
  {| db := set_table (fun _ => []) tbl_products
             [{| row_id := "prod_1";
                 row_fields := [("id", VStr "prod_1")];
                 last_synced_at := Some 3%Z |}];
     log := [] |}.

Lemma C5_product_refetch_404_deletes_witness :
  (process_event (make_env empty_api revalidating_config)
     product_updated_event world_with_product
   = (inr tt,
      {| db := set_table (db world_with_product) tbl_products
                 (fst (delete_row (VStr "prod_1")
                         (db world_with_product tbl_products)));
         log := [ApiRetrieve Product (VStr "prod_1");
                 DbDelete tbl_products (VStr "prod_1")] |})
   /\ forall s, VStr "prod_1" = VStr s ->
        has_row (fst (delete_row (VStr "prod_1")
                        (db world_with_product tbl_products))) s = false)
  /\ process_event (make_env unavailable_api revalidating_config)
       product_updated_event world_with_product
     = (inl (StripeError "APIConnectionError"),
        logged world_with_product (ApiRetrieve Product (VStr "prod_1"))).
Proof.
  split.
  - apply (C5_product_refetch_404_deletes
             (make_env empty_api revalidating_config)
             product_updated_event world_with_product);
      [right; left; reflexivity | reflexivity | reflexivity | reflexivity].
  - apply (proj2 (C5_product_refetch_404_deletes
                    (make_env unavailable_api revalidating_config)
                    product_updated_event world_with_product
                    (or_intror (or_introl eq_refl)) eq_refl eq_refl)
             (StripeError "APIConnectionError")).
    + reflexivity.
    + discriminate.
Defined.

(* ================================================================== *)
(** * Backfill chunking *)
(* ================================================================== *)

Section Chunks.

Variable A : Type.
Variable n : nat.
Hypothesis n_pos : (0 < n)%nat.

Lemma slices_nil (fuel : nat) : slices fuel (@nil A) n = [].
Proof. destruct fuel; reflexivity. Qed.

Lemma slices_enough (fuel1 fuel2 : nat) (l : list A) :
  (List.length l <= fuel1)%nat -> (List.length l <= fuel2)%nat ->
  slices fuel1 l n = slices fuel2 l n.
Proof.
  revert fuel2 l. induction fuel1 as [| fuel1 IH]; intros fuel2 l H1 H2.
  - destruct l; [| simpl in H1; lia]. rewrite !slices_nil. reflexivity.
  - destruct l as [| x l]; [rewrite !slices_nil; reflexivity |].
    destruct fuel2 as [| fuel2]; [simpl in H2; lia |].
    cbn [slices]. f_equal.
    assert (Hs : (List.length (skipn n (x :: l)) <= List.length l)%nat).
    { rewrite length_skipn.
      change (List.length (x :: l)) with (S (List.length l)). lia. }
    apply IH; simpl in H1, H2; lia.
Qed.

Lemma slices_fuel (fuel : nat) (l : list A) :
  (List.length l <= fuel)%nat -> slices fuel l n = slices (List.length l) l n.
Proof. intro H. apply slices_enough; [exact H | lia]. Qed.

Lemma slices_short (l : list A) :
  l <> [] -> (List.length l <= n)%nat ->
  slices (List.length l) l n = [l].
Proof.
  intros Hne Hle. destruct l as [| x l]; [contradiction |].
  change (List.length (x :: l)) with (S (List.length l)). cbn [slices].
  rewrite firstn_all2 by exact Hle.
  rewrite skipn_all2 by exact Hle.
  rewrite slices_nil. reflexivity.
Qed.

Lemma slices_full (c l : list A) :
  List.length c = n ->
  slices (List.length (c ++ l)) (c ++ l) n = c :: slices (List.length l) l n.
Proof.
  intro Hc. destruct c as [| x c]; [simpl in Hc; lia |].
  change (List.length ((x :: c) ++ l)) with (S (List.length (c ++ l))).
  cbn [slices app].
  change (x :: c ++ l) with ((x :: c) ++ l).
  rewrite firstn_app, skipn_app, Hc, Nat.sub_diag.
  rewrite firstn_all2 by lia. rewrite skipn_all2 by lia.
  simpl. rewrite app_nil_r. f_equal.
  apply slices_fuel. rewrite length_app. lia.
Qed.

Lemma slices_concat (fuel : nat) (l : list A) :
  (List.length l <= fuel)%nat -> List.concat (slices fuel l n) = l.
Proof.
  revert l. induction fuel as [| fuel IH]; intros l H.
  - destruct l; [reflexivity | simpl in H; lia].
  - destruct l as [| x l]; [reflexivity |].
    cbn [slices List.concat]. rewrite IH.
    + apply firstn_skipn.
    + rewrite length_skipn.
      change (List.length (x :: l)) with (S (List.length l)) in *. lia.
Qed.

Lemma slices_lengths (fuel : nat) (l : list A) :
  (List.length l <= fuel)%nat ->
  map (@List.length A) (slices fuel l n)
  = repeat n (List.length l / n)
    ++ (if Nat.eqb (List.length l mod n) 0 then []
        else [(List.length l mod n)%nat]).
Proof.
  revert l. induction fuel as [| fuel IH]; intros l H.
  - destruct l; [| simpl in H; lia]. simpl.
    rewrite Nat.Div0.div_0_l, Nat.Div0.mod_0_l. reflexivity.
  - destruct l as [| x l].
    { simpl. rewrite Nat.Div0.div_0_l, Nat.Div0.mod_0_l. reflexivity. }
    cbn [slices map].
    rewrite IH
      by (rewrite length_skipn;
          change (List.length (x :: l)) with (S (List.length l)) in *; lia).
    rewrite length_firstn, length_skipn.
    set (N := List.length (x :: l)).
    assert (HN : (0 < N)%nat) by (unfold N; simpl; lia).
    destruct (Nat.lt_ge_cases N n) as [Hlt | Hge].
    + rewrite (Nat.div_small N n Hlt), (Nat.mod_small N n Hlt).
      replace (N - n)%nat with 0%nat by lia.
      rewrite Nat.Div0.div_0_l, Nat.Div0.mod_0_l.
      rewrite Nat.min_r by lia.
      destruct (Nat.eqb_spec N 0); [lia | reflexivity].
    + rewrite Nat.min_l by lia.
      assert (E : N = ((N - n) + 1 * n)%nat) by lia.
      assert (Hd : (N / n = S ((N - n) / n))%nat).
      { rewrite E at 1. rewrite Nat.div_add by lia. lia. }
      assert (Hm : (N mod n = (N - n) mod n)%nat).
      { rewrite E at 1. apply Nat.Div0.mod_add. }
      rewrite Hd, Hm. reflexivity.
Qed.

End Chunks.

Lemma ceil_div_250 (N : nat) :
  ((N / 250) + (if Nat.eqb (N mod 250) 0 then 0 else 1) = (N + 249) / 250)%nat.
Proof.
  pose proof (Nat.div_mod_eq N 250) as E.
  pose proof (Nat.mod_upper_bound N 250 ltac:(lia)) as B.
  destruct (Nat.eqb_spec (N mod 250) 0) as [Z | NZ].
  - apply Nat.div_unique with (r := 249%nat); lia.
  - apply Nat.div_unique with (r := (N mod 250 - 1)%nat); lia.
Qed.

(** The loop of [_fetch_and_upsert] followed by the upsert of the pending
    chunk makes exactly the upsert calls of [chunk_array]'s slices, in
    order. *)
Lemma fetch_loop_slices (n : nat) (upsert : list dict -> M unit) :
  (0 < n)%nat ->
  forall items chunk count w,
    (List.length chunk < n)%nat ->
    bind (fetch_loop n upsert items chunk count)
      (fun p => let '(c, s) := p in
                ret tt ;;
                when (Nat.ltb 0 (List.length c)) (upsert c) ;;
                ret {| synced := s |}) w
    = bind (for_each upsert
              (slices (List.length (chunk ++ items)) (chunk ++ items) n))
        (fun _ => ret {| synced := count + List.length items |}) w.
Proof.
  intros n_pos items.
  induction items as [| item items IH]; intros chunk count w Hlen.
  - rewrite app_nil_r, Nat.add_0_r. cbn [fetch_loop].
    change (bind (ret (chunk, count)) ?k w) with (k (chunk, count) w).
    destruct chunk as [| x chunk]; [reflexivity |].
    rewrite (@slices_short _ n (x :: chunk))
      by first [discriminate | simpl in *; lia].
    cbn [for_each List.length Nat.ltb Nat.leb when].
    change (bind (ret tt) ?k w) with (k tt w). cbv beta.
    rewrite bind_assoc.
    destruct (upsert (x :: chunk) w) as [[e | []] w1] eqn:E.
    + rewrite (bind_inl _ _ _ E), (bind_inl _ _ _ E). reflexivity.
    + rewrite (bind_inr _ _ _ E), (bind_inr _ _ _ E). reflexivity.
  - cbn [fetch_loop]. cbv zeta.
    assert (Hc : List.length (chunk ++ [item]) = S (List.length chunk))
      by (rewrite length_app; simpl; lia).
    replace (chunk ++ item :: items) with ((chunk ++ [item]) ++ items)
      by (rewrite <- app_assoc; reflexivity).
    replace (count + List.length (item :: items))%nat
      with (S count + List.length items)%nat by (simpl; lia).
    destruct (Nat.leb n (List.length (chunk ++ [item]))) eqn:Hfull.
    + apply Nat.leb_le in Hfull.
      rewrite (slices_full n_pos) by lia.
      cbn [for_each]. rewrite !bind_assoc.
      destruct (upsert (chunk ++ [item]) w) as [[e | []] w1] eqn:E.
      * rewrite (bind_inl _ _ _ E), (bind_inl _ _ _ E). reflexivity.
      * rewrite (bind_inr _ _ _ E), (bind_inr _ _ _ E).
        rewrite (IH [] (S count) w1 n_pos). reflexivity.
    + apply Nat.leb_gt in Hfull.
      rewrite (IH (chunk ++ [item]) (S count) w Hfull). reflexivity.
Qed.

Lemma for_each_succeeds {A : Type} (f : A -> M unit) (l : list A) :
  (forall x w, In x l -> fst (f x w) = inr tt) ->
  forall w, fst (for_each f l w) = inr tt.
Proof.
  induction l as [| x l IH]; intros H w; [reflexivity |].
  cbn [for_each]. unfold bind. pose proof (H x w (or_introl eq_refl)) as Hx.
  destruct (f x w) as [[e | []] w1]; simpl in Hx; [discriminate |].
  apply IH. intros y w0 Hy. apply H. right. exact Hy.
Qed.

(** C9. A run of [_fetch_and_upsert] whose listing yields [N] records
    makes exactly the upsert calls of the slices of size 250 of those
    records, in order: [ceil(N/250)] calls, [N / 250] of them with exactly
    250 records, followed by one with the [N mod 250] remaining records when
    that is not zero; and, when the upserts of these chunks succeed, it
    returns [{'synced': N}]. *)
Theorem C9_backfill_chunking :
  forall fetch upsert w stripe_list w1,
    fetch w = (inr stripe_list, w1) ->
    paging_error stripe_list = None ->
    let items := data stripe_list ++ later_pages stripe_list in
    let N := List.length items in
    exists chunks,
      chunk_array items 250 = Some chunks
      /\ _fetch_and_upsert fetch upsert w
         = (for_each upsert chunks ;; ret {| synced := N |}) w1
      /\ List.concat chunks = items
      /\ map (@List.length dict) chunks
         = repeat 250%nat (N / 250)
           ++ (if Nat.eqb (N mod 250) 0 then [] else [(N mod 250)%nat])
      /\ List.length chunks = ((N + 249) / 250)%nat
      /\ ((forall c w0, In c chunks -> fst (upsert c w0) = inr tt) ->
          fst (_fetch_and_upsert fetch upsert w) = inr {| synced := N |}).
Proof.
  intros fetch upsert w stripe_list w1 Hf Hpe items N.
  assert (P250 : (0 < 250)%nat) by lia.
  exists (slices N items 250).
  assert (Run : _fetch_and_upsert fetch upsert w
                = (for_each upsert (slices N items 250) ;;
                   ret {| synced := N |}) w1).
  { unfold _fetch_and_upsert. cbv zeta. rewrite (bind_inr _ _ _ Hf).
    rewrite Hpe. fold items.
    rewrite (@fetch_loop_slices 250 upsert P250 items [] 0%nat w1)
      by (simpl; lia).
    reflexivity. }
  pose proof (@slices_lengths dict 250 P250 N items (Nat.le_refl _)) as Hl.
  fold N in Hl.
  split; [reflexivity |]. split; [exact Run |].
  split; [apply (slices_concat P250); apply Nat.le_refl |].
  split; [exact Hl |]. split.
  - rewrite <- (length_map (@List.length dict)), Hl, length_app,
      repeat_length, <- ceil_div_250.
    destruct (Nat.eqb (N mod 250) 0); reflexivity.
  - intro Hok. rewrite Run. unfold bind.
    pose proof (for_each_succeeds upsert (slices N items 250) Hok w1) as Hs.
    destruct (for_each upsert (slices N items 250) w1) as [[e | []] w2];
      simpl in Hs; [discriminate | reflexivity].
Qed.

(** A Stripe account that lists 551 products, 100 on the first page. *)
Definition product_entity : dict :=
  [("id", VStr "prod_1"); ("object", VStr "product")].

Definition catalog_api : stripe_api :=
  {| retrieve := fun _ _ => inl (InvalidRequestError (Some "resource_missing"));
     list_objects := fun c =>
       match c with
       | ListObjects Product _ =>
           inr {| data := repeat product_entity 100;
                  later_pages := repeat product_entity 451;
                  paging_error := None |}
       | _ => inr {| data := []; later_pages := []; paging_error := None |}
       end;
     object_str := fun _ => "" |}.

Lemma C9_backfill_chunking_witness :
  exists chunks,
    chunk_array (repeat product_entity 100 ++ repeat product_entity 451) 250
    = Some chunks
    /\ map (@List.length dict) chunks = [250; 250; 51]%nat
    /\ fst (sync_products (make_env catalog_api plain_config) None empty_world)
       = inr {| synced := 551 |}.
Proof.
  destruct (@C9_backfill_chunking
              (stripe_list_call (make_env catalog_api plain_config)
                 (ListObjects Product VNone))
              (fun products => ignore (_upsert_products products None))
              empty_world
              {| data := repeat product_entity 100;
                 later_pages := repeat product_entity 451;
                 paging_error := None |}
              (logged empty_world (ApiList (ListObjects Product VNone)))
              eq_refl eq_refl)
    as [chunks [H1 [_ [_ [H4 _]]]]].
  exists chunks. split; [exact H1 |]. split; [exact H4 |].
  vm_compute. reflexivity.
Defined.

(** The 551 products reach the store in three upsert calls. *)
Example sync_products_551_upserts :
  map (fun o => match o with
                | DbUpsert tbl_products entries _ None => List.length entries
                | _ => 0%nat
                end)
      (log (snd (sync_products (make_env catalog_api plain_config) None
                   empty_world)))
  = [0; 250; 250; 51]%nat.
Proof. vm_compute. reflexivity. Qed.

(* ================================================================== *)
(** * The store: effect of an upsert on one row *)
(* ================================================================== *)

Lemma find_row_upsert_row (id : string) (new : row) (ts : option timestamp)
  (rows : list row) :
  find_row id (fst (upsert_row new ts rows))
  = if String.eqb (row_id new) id
    then match find_row id rows with
         | Some r => if stored_is_newer ts r then Some r else Some new
         | None => Some new
         end
    else find_row id rows.
Proof.
  induction rows as [| r rows IH]; simpl.
  - destruct (String.eqb (row_id new) id); reflexivity.
  - destruct (String.eqb (row_id r) (row_id new)) eqn:Ern.
    + apply String.eqb_eq in Ern.
      destruct (String.eqb (row_id new) id) eqn:Eni.
      * rewrite Ern, Eni.
        destruct (stored_is_newer ts r); simpl; [rewrite Ern, Eni |
          rewrite Eni]; reflexivity.
      * rewrite Ern, Eni.
        destruct (stored_is_newer ts r); simpl; [rewrite Ern, Eni |
          rewrite Eni]; reflexivity.
    + destruct (upsert_row new ts rows) as [rows'' applied] eqn:Eu.
      simpl in *. destruct (String.eqb (row_id r) id) eqn:Eri.
      * apply String.eqb_eq in Eri. subst id.
        rewrite String.eqb_sym, Ern. reflexivity.
      * exact IH.
Qed.

Lemma make_rows_ids (schema : list string) (ts : option timestamp)
  (entries : list dict) (news : list row) :
  make_rows schema ts entries = Some news ->
  Forall2 (fun e n => make_row schema ts e = Some n) entries news.
Proof.
  revert news. induction entries as [| e entries IH]; intros news H.
  - inversion H. constructor.
  - simpl in H. destruct (make_row schema ts e) as [n |] eqn:En;
      [| discriminate].
    destruct (make_rows schema ts entries) as [ns |]; [| discriminate].
    inversion H. subst. constructor; [exact En | apply IH; reflexivity].
Qed.

(** A stored row that is newer than the supplied timestamp survives any
    batch. *)
Lemma upsert_rows_guard (id : string) (r : row) (ts : option timestamp)
  (news rows : list row) :
  find_row id rows = Some r ->
  stored_is_newer ts r = true ->
  find_row id (fst (upsert_rows news ts rows)) = Some r.
Proof.
  revert rows. induction news as [| n news IH]; intros rows Hf Hs;
    [exact Hf |].
  simpl. destruct (upsert_row n ts rows) as [rows1 applied] eqn:E1.
  pose proof (find_row_upsert_row id n ts rows) as H1.
  rewrite E1, Hf, Hs in H1. simpl in H1.
  assert (Hf1 : find_row id rows1 = Some r)
    by (destruct (String.eqb (row_id n) id); exact H1).
  specialize (IH rows1 Hf1 Hs).
  destruct (upsert_rows news ts rows1) as [rows2 written]. exact IH.
Qed.

Lemma upsert_many_guard (id : string) (r : row) (t1 t2 : timestamp)
  (entries : list dict) (schema : list string) (rows rows' written : list row) :
  find_row id rows = Some r ->
  last_synced_at r = Some t1 ->
  (t2 < t1)%Z ->
  upsert_many entries schema (Some t2) rows = Some (rows', written) ->
  find_row id rows' = Some r.
Proof.
  intros Hf Hl Hlt Hu. unfold upsert_many in Hu.
  destruct (make_rows schema (Some t2) entries) as [news |]; [| discriminate].
  inversion Hu as [E].
  pose proof (@upsert_rows_guard id r (Some t2) news rows Hf) as G.
  rewrite E in G. apply G. unfold stored_is_newer. rewrite Hl.
  apply Z.ltb_lt. exact Hlt.
Qed.

Lemma set_table_same (s : store) (t : table) (rows : list row) :
  set_table s t rows t = rows.
Proof. unfold set_table. destruct (table_eq_dec t t); congruence. Qed.

Lemma set_table_other (s : store) (t t' : table) (rows : list row) :
  t <> t' -> set_table s t rows t' = s t'.
Proof. unfold set_table. destruct (table_eq_dec t t'); congruence. Qed.




Lemma upsert_rows_keeps (id : string) (target : row) (ts : option timestamp)
  (news rows : list row) :
  (forall n, In n news -> row_id n = id -> n = target) ->
  stored_is_newer ts target = false ->
  find_row id rows = Some target ->
  find_row id (fst (upsert_rows news ts rows)) = Some target.
Proof.
  intros Huniq Hnew. revert rows.
  induction news as [| n news IH]; intros rows Hf; [exact Hf |].
  simpl. destruct (upsert_row n ts rows) as [rows1 applied] eqn:E1.
  pose proof (find_row_upsert_row id n ts rows) as H1.
  rewrite E1, Hf, Hnew in H1. simpl in H1.
  assert (Hf1 : find_row id rows1 = Some target).
  { destruct (String.eqb (row_id n) id) eqn:E; [| exact H1].
    apply String.eqb_eq in E.
    rewrite (Huniq n (or_introl eq_refl) E) in H1. exact H1. }
  assert (IH' := IH (fun m Hm => Huniq m (or_intror Hm)) rows1 Hf1).
  destruct (upsert_rows news ts rows1) as [rows2 written]. exact IH'.
Qed.

(** A row of the batch whose stored counterpart is absent or not newer is
    written, whatever happens to the other rows of the batch. *)
Lemma upsert_rows_writes (id : string) (target : row) (ts : option timestamp)
  (news rows : list row) :
  (forall n, In n news -> row_id n = id -> n = target) ->
  stored_is_newer ts target = false ->
  In target news ->
  row_id target = id ->
  match find_row id rows with
  | Some r => stored_is_newer ts r = false
  | None => True
  end ->
  find_row id (fst (upsert_rows news ts rows)) = Some target.
Proof.
  intros Huniq Hnew. revert rows.
  induction news as [| n news IH]; intros rows Hin Hid Hold; [contradiction |].
  simpl. destruct (upsert_row n ts rows) as [rows1 applied] eqn:E1.
  pose proof (find_row_upsert_row id n ts rows) as H1. rewrite E1 in H1.
  simpl in H1.
  destruct (String.eqb (row_id n) id) eqn:E.
  - apply String.eqb_eq in E.
    pose proof (Huniq n (or_introl eq_refl) E) as En. subst n.
    assert (Hf1 : find_row id rows1 = Some target).
    { rewrite H1. destruct (find_row id rows) as [r |]; [| reflexivity].
      rewrite Hold. reflexivity. }
    pose proof (@upsert_rows_keeps id target ts news rows1
                  (fun m Hm => Huniq m (or_intror Hm)) Hnew Hf1) as K.
    destruct (upsert_rows news ts rows1) as [rows2 written]. exact K.
  - assert (Hin' : In target news).
    { destruct Hin as [Hin | Hin]; [| exact Hin].
      subst n. rewrite Hid, String.eqb_refl in E. discriminate. }
    assert (Hold' : match find_row id rows1 with
                    | Some r => stored_is_newer ts r = false
                    | None => True
                    end) by (rewrite H1; exact Hold).
    pose proof (IH (fun m Hm => Huniq m (or_intror Hm)) rows1 Hin' Hid Hold')
      as K.
    destruct (upsert_rows news ts rows1) as [rows2 written]. exact K.
Qed.

Lemma make_rows_In (schema : list string) (ts : option timestamp)
  (entries : list dict) (news : list row) :
  make_rows schema ts entries = Some news ->
  (forall e, In e entries -> exists n, make_row schema ts e = Some n /\ In n news)
  /\ (forall n, In n news ->
        exists e, In e entries /\ make_row schema ts e = Some n).
Proof.
  intro H. apply make_rows_ids in H.
  induction H as [| e n entries news Hen F IH].
  - split; intros x [].
  - destruct IH as [IH1 IH2]. split.
    + intros e' [E | Hin].
      * subst e'. exists n. split; [exact Hen | left; reflexivity].
      * destruct (IH1 e' Hin) as [n' [Hn' Hin']]. exists n'.
        split; [exact Hn' | right; exact Hin'].
    + intros n' [E | Hin].
      * subst n'. exists e. split; [left; reflexivity | exact Hen].
      * destruct (IH2 n' Hin) as [e' [He' Hn']]. exists e'.
        split; [right; exact He' | exact Hn'].
Qed.

Lemma make_row_id (schema : list string) (ts : option timestamp)
  (e : dict) (n : row) :
  make_row schema ts e = Some n ->
  record_id e = Some (row_id n)
  /\ n = {| row_id := row_id n; row_fields := project schema e;
            last_synced_at := ts |}.
Proof.
  unfold make_row. destruct (record_id e) as [id |]; [| discriminate].
  intro H. inversion H. simpl. auto.
Qed.

Lemma upsert_many_writes (entries : list dict) (schema : list string)
  (t2 : timestamp) (rows rows' written : list row) (e : dict) (id : string) :
  upsert_many entries schema (Some t2) rows = Some (rows', written) ->
  In e entries ->
  record_id e = Some id ->
  (forall e', In e' entries -> record_id e' = Some id -> e' = e) ->
  (forall r t1, find_row id rows = Some r -> last_synced_at r = Some t1 ->
                (t1 <= t2)%Z) ->
  find_row id rows'
  = Some {| row_id := id; row_fields := project schema e;
            last_synced_at := Some t2 |}.
Proof.
  intros Hu Hin Hid Huniq Hold. unfold upsert_many in Hu.
  destruct (make_rows schema (Some t2) entries) as [news |] eqn:Em;
    [| discriminate].
  inversion Hu as [E]. destruct (make_rows_In _ _ _ Em) as [M1 M2].
  set (target := {| row_id := id; row_fields := project schema e;
                    last_synced_at := Some t2 |}).
  assert (Ht : make_row schema (Some t2) e = Some target)
    by (unfold make_row; rewrite Hid; reflexivity).
  pose proof (@upsert_rows_writes id target (Some t2) news rows) as W.
  rewrite E in W. apply W.
  - intros n Hn Hnid. destruct (M2 n Hn) as [e' [He' Hm]].
    destruct (make_row_id _ _ _ Hm) as [Hrid _]. rewrite Hnid in Hrid.
    rewrite (Huniq e' He' Hrid) in Hm. congruence.
  - unfold stored_is_newer. simpl. apply Z.ltb_irrefl.
  - destruct (M1 e Hin) as [n [Hn Hnin]]. congruence.
  - reflexivity.
  - destruct (find_row id rows) as [r |] eqn:Ef; [| exact I].
    unfold stored_is_newer. destruct (last_synced_at r) as [t1 |] eqn:El;
      [| reflexivity].
    apply Z.ltb_ge. apply (Hold r t1 eq_refl El).
Qed.

(* ================================================================== *)
(** * The timestamp guard on every write path *)
(* ================================================================== *)

(** The upsert methods of the engine, one per stored kind, with the
    arguments they take besides the sync timestamp. *)
Inductive upsert_call : Type :=
| UpsertCharges (entries : list dict) (backfill : option bool)
| UpsertCreditNotes (entries : list dict) (backfill : option bool)
| UpsertCheckoutSessions (entries : list dict) (backfill : option bool)
| UpsertCheckoutSessionLineItems (entries : list dict) (session : value)
| UpsertEarlyFraudWarnings (entries : list dict) (backfill : option bool)
| UpsertRefunds (entries : list dict) (backfill : option bool)
| UpsertReviews (entries : list dict) (backfill : option bool)
| UpsertCustomers (entries : list dict)
| UpsertDisputes (entries : list dict) (backfill : option bool)
| UpsertInvoices (entries : list dict) (backfill : option bool)
| UpsertInvoicePayments (entries : list dict) (backfill : option bool)
| UpsertPlans (entries : list dict) (backfill : option bool)
| UpsertPrices (entries : list dict) (backfill : option bool)
| UpsertProducts (entries : list dict)
| UpsertPaymentIntents (entries : list dict) (backfill : option bool)
| UpsertPaymentMethods (entries : list dict) (backfill : option bool)
| UpsertSetupIntents (entries : list dict) (backfill : option bool)
| UpsertTaxIds (entries : list dict) (backfill : option bool)
| UpsertSubscriptionItems (items : list value)
| UpsertSubscriptionSchedules (entries : list dict) (backfill : option bool)
| UpsertSubscriptions (entries : list dict) (backfill : option bool)
| UpsertFeatures (entries : list dict)
| UpsertActiveEntitlements (customer : value) (entries : list dict)
    (backfill : option bool).

Definition run_upsert (env : environment) (c : upsert_call)
  (ts : option timestamp) : M unit :=
  match c with
  | UpsertCharges l b => ignore (_upsert_charges env l b ts)
  | UpsertCreditNotes l b => ignore (_upsert_credit_notes env l b ts)
  | UpsertCheckoutSessions l b => ignore (_upsert_checkout_sessions env l b ts)
  | UpsertCheckoutSessionLineItems l s =>
      _upsert_checkout_session_line_items env l s ts
  | UpsertEarlyFraudWarnings l b =>
      ignore (_upsert_early_fraud_warning env l b ts)
  | UpsertRefunds l b => ignore (_upsert_refunds env l b ts)
  | UpsertReviews l b => ignore (_upsert_reviews env l b ts)
  | UpsertCustomers l => ignore (_upsert_customers l ts)
  | UpsertDisputes l b => ignore (_upsert_disputes env l b ts)
  | UpsertInvoices l b => ignore (_upsert_invoices env l b ts)
  | UpsertInvoicePayments l b => ignore (_upsert_invoice_payments env l b ts)
  | UpsertPlans l b => ignore (_upsert_plans env l b ts)
  | UpsertPrices l b => ignore (_upsert_prices env l b ts)
  | UpsertProducts l => ignore (_upsert_products l ts)
  | UpsertPaymentIntents l b => ignore (_upsert_payment_intents env l b ts)
  | UpsertPaymentMethods l b => ignore (_upsert_payment_methods env l b ts)
  | UpsertSetupIntents l b => ignore (_upsert_setup_intents env l b ts)
  | UpsertTaxIds l b => ignore (_upsert_tax_ids env l b ts)
  | UpsertSubscriptionItems l => _upsert_subscription_items env l ts
  | UpsertSubscriptionSchedules l b =>
      ignore (_upsert_subscription_schedules env l b ts)
  | UpsertSubscriptions l b => ignore (_upsert_subscriptions env l b ts)
  | UpsertFeatures l => ignore (_upsert_features env l ts)
  | UpsertActiveEntitlements c l b =>
      ignore (_upsert_active_entitlements env c l b ts)
  end.

(** The table of the kind an upsert method stores. *)
Definition table_of (c : upsert_call) : table :=
  match c with
  | UpsertCharges _ _ => tbl_charges
  | UpsertCreditNotes _ _ => tbl_credit_notes
  | UpsertCheckoutSessions _ _ => tbl_checkout_sessions
  | UpsertCheckoutSessionLineItems _ _ => tbl_checkout_session_line_items
  | UpsertEarlyFraudWarnings _ _ => tbl_early_fraud_warnings
  | UpsertRefunds _ _ => tbl_refunds
  | UpsertReviews _ _ => tbl_reviews
  | UpsertCustomers _ => tbl_customers
  | UpsertDisputes _ _ => tbl_disputes
  | UpsertInvoices _ _ => tbl_invoices
  | UpsertInvoicePayments _ _ => tbl_invoice_payments
  | UpsertPlans _ _ => tbl_plans
  | UpsertPrices _ _ => tbl_prices
  | UpsertProducts _ => tbl_products
  | UpsertPaymentIntents _ _ => tbl_payment_intents
  | UpsertPaymentMethods _ _ => tbl_payment_methods
  | UpsertSetupIntents _ _ => tbl_setup_intents
  | UpsertTaxIds _ _ => tbl_tax_ids
  | UpsertSubscriptionItems _ => tbl_subscription_items
  | UpsertSubscriptionSchedules _ _ => tbl_subscription_schedules
  | UpsertSubscriptions _ _ => tbl_subscriptions
  | UpsertFeatures _ => tbl_features
  | UpsertActiveEntitlements _ _ _ => tbl_active_entitlements
  end.




(** Two stored charges: [ch_1] synced at 10, [ch_2] synced at 3. *)
Definition stored_charges : list row :=
  [{| row_id := "ch_1";
      row_fields := project (charge_schema test_schemas)
                      [("id", VStr "ch_1"); ("status", VStr "succeeded")];
      last_synced_at := Some 10%Z |};
   {| row_id := "ch_2";
      row_fields := project (charge_schema test_schemas)
                      [("id", VStr "ch_2"); ("status", VStr "pending")];
      last_synced_at := Some 3%Z |}].

Definition world_with_charges : world :=
  {| db := set_table (fun _ => []) tbl_charges stored_charges; log := [] |}.



(* ================================================================== *)
(** * The store: rows that stay, rows that are flagged *)
(* ================================================================== *)

Lemma upsert_rows_other (id : string) (ts : option timestamp)
  (news rows : list row) :
  (forall n, In n news -> row_id n <> id) ->
  find_row id (fst (upsert_rows news ts rows)) = find_row id rows.
Proof.
  revert rows. induction news as [| n news IH]; intros rows H; [reflexivity |].
  simpl. destruct (upsert_row n ts rows) as [rows1 applied] eqn:E1.
  pose proof (find_row_upsert_row id n ts rows) as H1. rewrite E1 in H1.
  simpl in H1.
  destruct (String.eqb (row_id n) id) eqn:E.
  - apply String.eqb_eq in E. exfalso. apply (H n (or_introl eq_refl) E).
  - pose proof (IH rows1 (fun m Hm => H m (or_intror Hm))) as K.
    destruct (upsert_rows news ts rows1) as [rows2 written].
    simpl in *. congruence.
Qed.

(** A property shared by the stored row and by every row of the batch
    holds of the row found afterwards. *)
Lemma upsert_rows_property (Q : row -> Prop) (id : string)
  (ts : option timestamp) (news rows : list row) :
  (forall n, In n news -> row_id n = id -> Q n) ->
  match find_row id rows with Some r => Q r | None => True end ->
  match find_row id (fst (upsert_rows news ts rows)) with
  | Some r => Q r
  | None => True
  end.
Proof.
  revert rows. induction news as [| n news IH]; intros rows Hn Hold;
    [exact Hold |].
  simpl. destruct (upsert_row n ts rows) as [rows1 applied] eqn:E1.
  pose proof (find_row_upsert_row id n ts rows) as H1. rewrite E1 in H1.
  simpl in H1.
  assert (Hold1 : match find_row id rows1 with Some r => Q r | None => True end).
  { rewrite H1. destruct (String.eqb (row_id n) id) eqn:E; [| exact Hold].
    apply String.eqb_eq in E. pose proof (Hn n (or_introl eq_refl) E) as Qn.
    destruct (find_row id rows) as [r |]; [| exact Qn].
    destruct (stored_is_newer ts r); [exact Hold | exact Qn]. }
  pose proof (IH rows1 (fun m Hm => Hn m (or_intror Hm)) Hold1) as K.
  destruct (upsert_rows news ts rows1) as [rows2 written]. exact K.
Qed.

Lemma upsert_rows_has_row (id : string) (ts : option timestamp)
  (news rows : list row) :
  has_row rows id = true ->
  has_row (fst (upsert_rows news ts rows)) id = true.
Proof.
  revert rows. induction news as [| n news IH]; intros rows H; [exact H |].
  simpl. destruct (upsert_row n ts rows) as [rows1 applied] eqn:E1.
  pose proof (find_row_upsert_row id n ts rows) as H1. rewrite E1 in H1.
  simpl in H1.
  assert (H' : has_row rows1 id = true).
  { unfold has_row in *. rewrite H1.
    destruct (String.eqb (row_id n) id); [| exact H].
    destruct (find_row id rows) as [r |]; [| reflexivity].
    destruct (stored_is_newer ts r); reflexivity. }
  pose proof (IH rows1 H') as K.
  destruct (upsert_rows news ts rows1) as [rows2 written]. exact K.
Qed.

(** After a batch, every row of the batch has a stored row. *)
Lemma upsert_rows_stores (id : string) (ts : option timestamp)
  (news rows : list row) :
  (exists n, In n news /\ row_id n = id) ->
  has_row (fst (upsert_rows news ts rows)) id = true.
Proof.
  revert rows. induction news as [| n news IH]; intros rows [m [Hin Hid]];
    [contradiction |].
  simpl. destruct (upsert_row n ts rows) as [rows1 applied] eqn:E1.
  pose proof (find_row_upsert_row id n ts rows) as H1. rewrite E1 in H1.
  simpl in H1.
  destruct Hin as [E | Hin].
  - subst m. rewrite Hid, String.eqb_refl in H1.
    assert (H' : has_row rows1 id = true).
    { unfold has_row. rewrite H1.
      destruct (find_row id rows) as [r |]; [| reflexivity].
      destruct (stored_is_newer ts r); reflexivity. }
    pose proof (@upsert_rows_has_row id ts news rows1 H') as K.
    destruct (upsert_rows news ts rows1) as [rows2 written]. exact K.
  - pose proof (IH rows1 (ex_intro _ m (conj Hin Hid))) as K.
    destruct (upsert_rows news ts rows1) as [rows2 written]. exact K.
Qed.

Lemma find_row_mark_deleted (id : string) (ids : list string)
  (rows : list row) :
  find_row id (mark_deleted ids rows)
  = match find_row id rows with
    | Some r => Some (if in_list id ids then set_deleted r else r)
    | None => None
    end.
Proof.
  induction rows as [| r rows IH]; [reflexivity |].
  simpl. destruct (in_list (row_id r) ids) eqn:Ein; simpl;
    destruct (String.eqb (row_id r) id) eqn:E; try exact IH;
    apply String.eqb_eq in E; subst id; rewrite Ein; reflexivity.
Qed.

Lemma find_row_In (id : string) (rows : list row) (r : row) :
  find_row id rows = Some r -> In r rows /\ row_id r = id.
Proof.
  induction rows as [| x rows IH]; [discriminate |].
  simpl. destruct (String.eqb (row_id x) id) eqn:E.
  - intro H. inversion H. subst x. apply String.eqb_eq in E. auto.
  - intro H. destruct (IH H). auto.
Qed.

(** Calls that leave table [t] alone. *)
Definition off_table (t : table) (o : op) : Prop :=
  match o with
  | DbUpsert t' _ _ _ => t' <> t
  | DbDelete t' _ => t' <> t
  | DbMarkItemsDeleted _ => tbl_subscription_items <> t
  | DbDeleteEntitlementsExcept _ _ => tbl_active_entitlements <> t
  | _ => True
  end.

Lemma replay_off_table (t : table) (ops : list op) (s : store) :
  Forall (off_table t) ops -> replay ops s t = s t.
Proof.
  intro F. revert s. induction F as [| o ops Ho F IH]; intro s;
    [reflexivity |].
  simpl. rewrite IH. destruct o; simpl in *; try reflexivity.
  - destruct (upsert_many entries schema ts (s t0)) as [[rows' written] |];
      [apply set_table_other; exact Ho | reflexivity].
  - apply set_table_other; exact Ho.
  - apply set_table_other; exact Ho.
  - apply set_table_other; exact Ho.
Qed.

Lemma uses_off_table {A : Type} (t : table) (m : M A) (w : world) :
  uses (off_table t) m -> db (snd (m w)) t = db w t.
Proof.
  intro U. destruct (U w) as [new [_ [F D]]]. rewrite D.
  apply replay_off_table. exact F.
Qed.

(** Calls that remove no row: everything but the two deletions. *)
Definition keeps_rows (o : op) : Prop :=
  match o with
  | DbDelete _ _ => False
  | DbDeleteEntitlementsExcept _ _ => False
  | _ => True
  end.

Lemma has_row_mark_deleted (id : string) (ids : list string) (rows : list row) :
  has_row (mark_deleted ids rows) id = has_row rows id.
Proof.
  unfold has_row. rewrite find_row_mark_deleted.
  destruct (find_row id rows); reflexivity.
Qed.

Lemma apply_op_keeps_rows (o : op) (s : store) (t : table) (id : string) :
  keeps_rows o ->
  has_row (s t) id = true -> has_row (apply_op o s t) id = true.
Proof.
  intros Ho H. destruct o; simpl in *; try exact H; try contradiction.
  - unfold upsert_many.
    destruct (make_rows schema ts entries) as [news |]; [| exact H].
    destruct (upsert_rows news ts (s t0)) as [rows' written] eqn:E.
    destruct (table_eq_dec t0 t) as [Et | Nt].
    + subst t0. rewrite set_table_same.
      pose proof (@upsert_rows_has_row id ts news (s t) H) as K.
      rewrite E in K. exact K.
    + rewrite set_table_other by exact Nt. exact H.
  - destruct (table_eq_dec tbl_subscription_items t) as [Et | Nt].
    + subst t. rewrite set_table_same, has_row_mark_deleted. exact H.
    + rewrite set_table_other by exact Nt. exact H.
Qed.

Lemma replay_keeps_rows (ops : list op) (s : store) (t : table) (id : string) :
  Forall keeps_rows ops ->
  has_row (s t) id = true -> has_row (replay ops s t) id = true.
Proof.
  intro F. revert s. induction F as [| o ops Ho F IH]; intros s H;
    [exact H |].
  simpl. apply IH. apply apply_op_keeps_rows; assumption.
Qed.

(* ================================================================== *)
(** * Subscription items: reconciliation by flag *)
(* ================================================================== *)

Lemma lookup_set_key (k k' : string) (v : value) (d : dict) :
  lookup_key k (set_key k' v d)
  = if String.eqb k k' then Some v else lookup_key k d.
Proof.
  induction d as [| [k0 v0] d IH]; simpl.
  - destruct (String.eqb k k'); reflexivity.
  - destruct (String.eqb k' k0) eqn:E0; simpl.
    + apply String.eqb_eq in E0. subst k0.
      destruct (String.eqb k k'); reflexivity.
    + destruct (String.eqb k k0) eqn:E1.
      * apply String.eqb_eq in E1. subst k0.
        rewrite String.eqb_sym in E0. rewrite E0. reflexivity.
      * exact IH.
Qed.

(** What [_upsert_subscription_items] stores for one item of the
    payload. *)
Definition row_of_item (ts : option timestamp) (item : value) (n : row)
  : Prop :=
  exists d,
    item = VDict d
    /\ lookup_key "id" d = Some (VStr (row_id n))
    /\ py_get (row_fields n) "deleted" = py_get_default d "deleted" (VBool false)
    /\ last_synced_at n = ts.

Lemma modified_subscription_item_run env item w m w1 :
  modified_subscription_item env item w = (inr m, w1) ->
  w1 = w
  /\ exists d,
       item = VDict d
       /\ lookup_key "id" m = lookup_key "id" d
       /\ py_get m "deleted" = py_get_default d "deleted" (VBool false).
Proof.
  unfold modified_subscription_item. destruct item as [| | | | | d];
    try discriminate.
  intro H. apply bind_inv_ok in H. destruct H as [price_id [w2 [Hp H]]].
  assert (w2 = w).
  { destruct (py_get d "price") as [| | | | | price];
      try (inversion Hp; reflexivity).
    unfold py_item in Hp. destruct (lookup_key "id" price);
      inversion Hp; reflexivity. }
  subst w2. inversion H. subst. split; [reflexivity |].
  exists d. split; [reflexivity |].
  unfold py_get. rewrite !lookup_set_key. simpl. auto.
Qed.

Lemma modified_items_run env items :
  forall w ms w1,
    map_m (modified_subscription_item env) items w = (inr ms, w1) ->
    w1 = w
    /\ Forall2 (fun item m =>
                  exists d,
                    item = VDict d
                    /\ lookup_key "id" m = lookup_key "id" d
                    /\ py_get m "deleted"
                       = py_get_default d "deleted" (VBool false))
         items ms.
Proof.
  induction items as [| item items IH]; intros w ms w1 H.
  - inversion H. auto.
  - cbn [map_m] in H. apply bind_inv_ok in H.
    destruct H as [m [w2 [Hm H]]].
    apply modified_subscription_item_run in Hm. destruct Hm as [E Hm].
    subst w2. apply bind_inv_ok in H. destruct H as [ms' [w3 [Hms H]]].
    apply IH in Hms. destruct Hms as [E Hms]. subst w3.
    inversion H. subst. split; [reflexivity |]. constructor; assumption.
Qed.

Lemma upsert_many_run entries t schema ts w written w' :
  upsert_many_with_timestamp_protection entries t schema ts w
  = (inr written, w') ->
  exists news,
    make_rows schema ts entries = Some news
    /\ db w' = set_table (db w) t (fst (upsert_rows news ts (db w t)))
    /\ log w' = log w ++ [DbUpsert t entries schema ts].
Proof.
  unfold upsert_many_with_timestamp_protection, bind, issue, read_table,
    write_table, upsert_many. simpl.
  destruct (make_rows schema ts entries) as [news |]; [| discriminate].
  destruct (upsert_rows news ts (db w t)) as [rows' wr] eqn:E. simpl.
  intro H. inversion H. subst. exists news. simpl. rewrite E. auto.
Qed.

Lemma upsert_subscription_items_run env items ts w w' :
  _upsert_subscription_items env items ts w = (inr tt, w') ->
  exists news,
    Forall2 (row_of_item ts) items news
    /\ db w' = set_table (db w) tbl_subscription_items
                 (fst (upsert_rows news ts (db w tbl_subscription_items))).
Proof.
  unfold _upsert_subscription_items. intro H.
  apply bind_inv_ok in H. destruct H as [ms [w1 [Hms H]]].
  apply modified_items_run in Hms. destruct Hms as [E Hms]. subst w1.
  unfold ignore in H. apply bind_inv_ok in H.
  destruct H as [written [w2 [Hu H]]]. inversion H. subst w2.
  apply upsert_many_run in Hu. destruct Hu as [news [Hn [Hd _]]].
  exists news. split; [| exact Hd].
  apply make_rows_ids in Hn. clear - Hms Hn.
  revert news Hn. induction Hms as [| item m items ms Hhead F IH];
    intros news Hn; inversion Hn as [| m0 n ms0 news0 Hrow Hrest]; subst;
    constructor; [| apply IH; exact Hrest].
  destruct Hhead as [d [Ei [Eid Edel]]].
  apply make_row_id in Hrow. destruct Hrow as [Hrid Hn'].
  exists d. split; [exact Ei |].
  unfold record_id in Hrid. rewrite Eid in Hrid.
  split.
  - destruct (lookup_key "id" d) as [[| | | s | |] |]; try discriminate.
    inversion Hrid. reflexivity.
  - rewrite Hn'. simpl. split; [| reflexivity]. exact Edel.
Qed.

(** The ids [_mark_deleted_subscription_items] flags: the live items of
    the subscription that are not in the current list. *)
Definition dropped_items (subscription : value) (current : list value)
  (rows : list row) : list string :=
  filter (fun id => negb (existsb (fun v => py_eq_str v id) current))
         (select_live_items subscription rows).

Lemma mark_deleted_subscription_items_run subscription current w :
  forall id,
    find_row id
      (db (snd (_mark_deleted_subscription_items subscription current w))
          tbl_subscription_items)
    = match find_row id (db w tbl_subscription_items) with
      | Some r =>
          Some (if in_list id
                     (dropped_items subscription current
                        (db w tbl_subscription_items))
                then set_deleted r else r)
      | None => None
      end.
Proof.
  intro id. unfold _mark_deleted_subscription_items.
  unfold query_select_live_items at 1. rewrite !bind_assoc.
  rewrite (bind_inr _ _ _ (eq_refl : issue _ w = (inr tt, _))).
  rewrite bind_assoc.
  rewrite (bind_inr _ _ _ (eq_refl : read_table _ _ = (inr _, _))).
  change (bind (ret ?a) ?k ?w0) with (k a w0). cbv beta.
  simpl db. fold (dropped_items subscription current
                    (db w tbl_subscription_items)).
  destruct (dropped_items subscription current (db w tbl_subscription_items))
    as [| x l] eqn:Ed.
  - simpl. destruct (find_row id (db w tbl_subscription_items)); reflexivity.
  - cbn [List.length Nat.ltb Nat.leb].
    unfold query_mark_items_deleted, bind, issue, read_table, write_table.
    simpl. rewrite set_table_same. apply find_row_mark_deleted.
Qed.

Definition complete_items (subscription : dict) : Prop :=
  match py_get subscription "items" with
  | VDict d => truthy (py_get d "has_more") = false
  | _ => True
  end.

(** The items an update of a subscription carries. *)
Definition carried_items (subscription : dict) : list value :=
  match items_data_of subscription with
  | Some (VList l) => l
  | _ => []
  end.

Lemma expand_complete_items env subscription list_fn w :
  complete_items subscription ->
  _expand_entity env [subscription] "items" list_fn w
  = (inr [subscription], w).
Proof.
  unfold complete_items, _expand_entity. intro H.
  destruct (auto_expand_lists (cfg env)) as [[|] |]; try reflexivity.
  cbn [map_m]. unfold expand_one.
  destruct (py_get subscription "items"); try reflexivity.
  rewrite H. reflexivity.
Qed.

Lemma carried_items_run subscription w l w1 :
  match items_data_of subscription with
  | Some items => iter_list items
  | None => ret []
  end w = (inr l, w1) ->
  w1 = w /\ l = carried_items subscription.
Proof.
  unfold carried_items. destruct (items_data_of subscription) as [v |].
  - destruct v; try discriminate. intro H. inversion H. auto.
  - intro H. inversion H. auto.
Qed.

Lemma item_ids_run items :
  forall w ids w1,
    map_m item_id items w = (inr ids, w1) ->
    w1 = w
    /\ Forall2 (fun item v => exists d, item = VDict d
                                       /\ lookup_key "id" d = Some v)
         items ids.
Proof.
  induction items as [| item items IH]; intros w ids w1 H.
  - inversion H. auto.
  - cbn [map_m] in H. apply bind_inv_ok in H.
    destruct H as [v [w2 [Hv H]]].
    assert (Hitem : w2 = w /\ exists d, item = VDict d
                                        /\ lookup_key "id" d = Some v).
    { unfold item_id, py_item in Hv. destruct item; try discriminate.
      destruct (lookup_key "id" d) eqn:E; inversion Hv. subst.
      split; [reflexivity |]. exists d. auto. }
    destruct Hitem as [E Hitem]. subst w2.
    apply bind_inv_ok in H. destruct H as [ids' [w3 [Hids H]]].
    apply IH in Hids. destruct Hids as [E Hids]. subst w3.
    inversion H. subst. split; [reflexivity |]. constructor; assumption.
Qed.

Lemma item_ids_of_rows ts items news ids :
  Forall2 (row_of_item ts) items news ->
  Forall2 (fun item v => exists d, item = VDict d
                                     /\ lookup_key "id" d = Some v)
    items ids ->
  ids = map (fun n => VStr (row_id n)) news.
Proof.
  intro F. revert ids. induction F as [| item n items news Hn F IH];
    intros ids Hids; inversion Hids as [| i v its vs Hv Hrest]; subst;
    [reflexivity |].
  simpl. f_equal; [| apply IH; exact Hrest].
  destruct Hn as [d [E [Hid _]]]. destruct Hv as [d' [E' Hid']].
  rewrite E in E'. inversion E'. subst d'. congruence.
Qed.

Ltac off_table_side := solve [exact I | simpl; discriminate].

(** The subscription-items table after [_upsert_subscriptions] on one
    subscription whose embedded item list is complete: the rows of the
    carried items are upserted, then the live items of the subscription
    that the list does not carry are flagged. *)
Lemma upsert_subscriptions_single env subscription bf ts w rows w' pid :
  complete_items subscription ->
  lookup_key "id" subscription = Some pid ->
  _upsert_subscriptions env [subscription] bf ts w = (inr rows, w') ->
  exists news,
    Forall2 (row_of_item ts) (carried_items subscription) news
    /\ forall id,
         let rows4 :=
           fst (upsert_rows news ts (db w tbl_subscription_items)) in
         find_row id (db w' tbl_subscription_items)
         = match find_row id rows4 with
           | Some r =>
               Some (if in_list id
                          (dropped_items pid
                             (map (fun n => VStr (row_id n)) news) rows4)
                     then set_deleted r else r)
           | None => None
           end.
Proof.
  intros Hc Hid H. unfold _upsert_subscriptions in H.
  apply bind_inv_ok in H. destruct H as [[] [w1 [Hwhen H]]].
  assert (D1 : db w1 tbl_subscription_items = db w tbl_subscription_items).
  { match type of Hwhen with
    | ?m w = _ =>
        assert (U : uses (off_table tbl_subscription_items) m)
          by uses_tac off_table_side;
        pose proof (@uses_off_table _ tbl_subscription_items m w U) as D
    end.
    rewrite Hwhen in D. exact D. }
  apply bind_inv_ok in H. destruct H as [subs [w2 [Hexp H]]].
  rewrite expand_complete_items in Hexp by exact Hc.
  inversion Hexp. subst subs w2. clear Hexp.
  apply bind_inv_ok in H. destruct H as [rows0 [w3 [Hup H]]].
  apply upsert_many_run in Hup. destruct Hup as [news0 [_ [D3 _]]].
  assert (D3' : db w3 tbl_subscription_items = db w tbl_subscription_items).
  { rewrite D3, set_table_other by discriminate. exact D1. }
  apply bind_inv_ok in H. destruct H as [per [w4 [Hper H]]].
  cbn [map_m] in Hper.
  apply bind_inv_ok in Hper. destruct Hper as [l [w5 [Hl Hper]]].
  apply carried_items_run in Hl. destruct Hl as [E El]. subst w5 l.
  inversion Hper. subst per w4. clear Hper.
  apply bind_inv_ok in H. destruct H as [[] [w4 [Hitems H]]].
  simpl List.concat in Hitems. rewrite app_nil_r in Hitems.
  apply upsert_subscription_items_run in Hitems.
  destruct Hitems as [news [Hnews D4]].
  apply bind_inv_ok in H. destruct H as [[] [w5 [Hmark H]]].
  inversion H. subst rows0 w5. clear H.
  cbn [for_each] in Hmark.
  apply bind_inv_ok in Hmark. destruct Hmark as [[] [w5 [Hmark H]]].
  inversion H. subst w5. clear H.
  apply bind_inv_ok in Hmark. destruct Hmark as [l [w5 [Hl Hmark]]].
  apply carried_items_run in Hl. destruct Hl as [E El]. subst w5 l.
  apply bind_inv_ok in Hmark. destruct Hmark as [ids [w5 [Hids Hmark]]].
  apply item_ids_run in Hids. destruct Hids as [E Hids]. subst w5.
  pose proof (item_ids_of_rows Hnews Hids) as Eids. subst ids.
  apply bind_inv_ok in Hmark. destruct Hmark as [pid' [w5 [Hp Hmark]]].
  unfold py_item in Hp. rewrite Hid in Hp. inversion Hp. subst pid' w5.
  unfold ignore in Hmark. apply bind_inv_ok in Hmark.
  destruct Hmark as [k [w5 [Hmark H]]]. inversion H. subst w5. clear H.
  exists news. split; [exact Hnews |].
  intro id. cbv zeta.
  pose proof (@mark_deleted_subscription_items_run pid
                (map (fun n => VStr (row_id n)) news) w4 id) as M.
  rewrite Hmark in M. simpl snd in M.
  rewrite D4, set_table_same, D3' in M. exact M.
Qed.

Lemma Forall2_In_l {A B : Type} (R : A -> B -> Prop) l1 l2 x :
  Forall2 R l1 l2 -> In x l1 -> exists y, In y l2 /\ R x y.
Proof.
  intro F. induction F as [| a b l1 l2 Hab F IH]; intro Hin; [contradiction |].
  destruct Hin as [E | Hin].
  - subst x. exists b. split; [left; reflexivity | exact Hab].
  - destruct (IH Hin) as [y [Hy Hr]]. exists y. split; [right; exact Hy | exact Hr].
Qed.

Lemma Forall2_In_r {A B : Type} (R : A -> B -> Prop) l1 l2 y :
  Forall2 R l1 l2 -> In y l2 -> exists x, In x l1 /\ R x y.
Proof.
  intro F. induction F as [| a b l1 l2 Hab F IH]; intro Hin; [contradiction |].
  destruct Hin as [E | Hin].
  - subst y. exists a. split; [left; reflexivity | exact Hab].
  - destruct (IH Hin) as [x [Hx Hr]]. exists x. split; [right; exact Hx | exact Hr].
Qed.

(** The update carries an item with this id. *)
Definition carries (subscription : dict) (id : string) : Prop :=
  exists d, In (VDict d) (carried_items subscription)
            /\ lookup_key "id" d = Some (VStr id).

(** The item does not come flagged as deleted
    ([item.get('deleted', False)] is [False]). *)
Definition not_flagged (item : value) : Prop :=
  forall d, item = VDict d ->
            py_get_default d "deleted" (VBool false) = VBool false.

Definition live (r : row) : Prop :=
  py_get (row_fields r) "deleted" = VBool false.

Definition flagged (r : row) : Prop :=
  py_get (row_fields r) "deleted" = VBool true.

Lemma set_deleted_flagged (r : row) : flagged (set_deleted r).
Proof.
  unfold flagged, set_deleted, py_get. simpl. rewrite lookup_set_key.
  reflexivity.
Qed.

Lemma current_ids_mem (news : list row) (id : string) :
  existsb (fun v => py_eq_str v id) (map (fun n => VStr (row_id n)) news)
  = existsb (fun n => String.eqb (row_id n) id) news.
Proof.
  induction news as [| n news IH]; [reflexivity |].
  simpl. rewrite IH. reflexivity.
Qed.

Lemma upsert_subscriptions_keeps_rows env subs bf ts :
  uses keeps_rows (_upsert_subscriptions env subs bf ts).
Proof. uses_tac ltac:(exact I). Qed.

(** C3. Processing an update of one subscription whose embedded item list
    is complete and whose items do not come flagged: (1) every stored live
    item of the subscription that the update does not carry ends with
    [deleted = true], the rest of its row unchanged; every item the update
    carries, stored live or not stored before, ends stored with
    [deleted = false].  (2) [_upsert_subscriptions] removes no row of any
    table, whatever its outcome.  (3) The reconciliation step changes the
    subscription-items table only by setting the flag of the dropped
    items. *)
Theorem C3_subscription_items_are_flagged :
  (forall env subscription bf ts w rows w' pid,
      complete_items subscription ->
      lookup_key "id" subscription = Some pid ->
      Forall not_flagged (carried_items subscription) ->
      _upsert_subscriptions env [subscription] bf ts w = (inr rows, w') ->
      (forall id b,
          find_row id (db w tbl_subscription_items) = Some b ->
          live_item_of pid b = true ->
          ~ carries subscription id ->
          find_row id (db w' tbl_subscription_items) = Some (set_deleted b)
          /\ flagged (set_deleted b))
      /\ (forall id,
            carries subscription id ->
            (forall a, find_row id (db w tbl_subscription_items) = Some a ->
                       live a) ->
            exists a', find_row id (db w' tbl_subscription_items) = Some a'
                       /\ live a'))
  /\ (forall env subscriptions bf ts w t id,
        has_row (db w t) id = true ->
        has_row (db (snd (_upsert_subscriptions env subscriptions bf ts w)) t)
          id = true)
  /\ (forall subscription current w id,
        find_row id
          (db (snd (_mark_deleted_subscription_items subscription current w))
              tbl_subscription_items)
        = match find_row id (db w tbl_subscription_items) with
          | Some r =>
              Some (if in_list id
                         (dropped_items subscription current
                            (db w tbl_subscription_items))
                    then set_deleted r else r)
          | None => None
          end).
Proof.
  split; [| split].
  - intros env subscription bf ts w rows w' pid Hc Hid Hnf Hrun.
    destruct (upsert_subscriptions_single env _ _ _ _ Hc Hid Hrun)
      as [news [Hnews Hfind]].
    set (rows4 := fst (upsert_rows news ts (db w tbl_subscription_items)))
      in *.
    assert (Carried : forall n, In n news -> carries subscription (row_id n)).
    { intros n Hn. destruct (Forall2_In_r _ Hnews Hn) as [item [Hi Hr]].
      destruct Hr as [d [E [Hd _]]]. subst item. exists d. auto. }
    split.
    + intros id b Hb Hlive Hnot.
      assert (Other : forall n, In n news -> row_id n <> id).
      { intros n Hn E. apply Hnot. rewrite <- E. apply Carried. exact Hn. }
      assert (Hb4 : find_row id rows4 = Some b).
      { unfold rows4. rewrite upsert_rows_other by exact Other. exact Hb. }
      split; [| apply set_deleted_flagged].
      rewrite Hfind. cbv zeta. fold rows4. rewrite Hb4.
      assert (Hin : in_list id
                      (dropped_items pid
                         (map (fun n => VStr (row_id n)) news) rows4) = true).
      { apply in_list_In. unfold dropped_items. apply filter_In. split.
        - destruct (find_row_In _ _ Hb4) as [Hbin Hbid].
          unfold select_live_items. rewrite <- Hbid. apply in_map.
          apply filter_In. auto.
        - rewrite current_ids_mem. apply negb_true_iff.
          destruct (existsb (fun n => String.eqb (row_id n) id) news) eqn:E;
            [| reflexivity].
          apply existsb_exists in E. destruct E as [n [Hn En]].
          apply String.eqb_eq in En. exfalso. apply (Other n Hn En). }
      rewrite Hin. reflexivity.
    + intros id [d [Hd Hdid]] Hold.
      destruct (Forall2_In_l _ Hnews Hd) as [n [Hn Hr]].
      assert (Hnid : row_id n = id).
      { destruct Hr as [d' [E [Hd' _]]]. inversion E. subst d'.
        rewrite Hdid in Hd'. inversion Hd'. reflexivity. }
      assert (Hhas : has_row rows4 id = true).
      { apply upsert_rows_stores. exists n. auto. }
      assert (Hlive : match find_row id rows4 with
                      | Some r => live r
                      | None => True
                      end).
      { apply upsert_rows_property.
        - intros m Hm _. destruct (Forall2_In_r _ Hnews Hm) as [item [Hi Hm']].
          destruct Hm' as [d' [E [_ [Hdel _]]]].
          unfold live. rewrite Hdel.
          rewrite Forall_forall in Hnf. apply (Hnf item Hi d' E).
        - destruct (find_row id (db w tbl_subscription_items)) as [a |] eqn:Ea;
            [apply Hold; reflexivity | exact I]. }
      unfold has_row in Hhas.
      destruct (find_row id rows4) as [a' |] eqn:Ea'; [| discriminate].
      exists a'. split; [| exact Hlive].
      rewrite Hfind. cbv zeta. fold rows4. rewrite Ea'.
      assert (Hin : in_list id
                      (dropped_items pid
                         (map (fun n => VStr (row_id n)) news) rows4) = false).
      { apply in_list_not_In. unfold dropped_items. intro Hf.
        apply filter_In in Hf. destruct Hf as [_ Hf].
        rewrite current_ids_mem in Hf. apply negb_true_iff in Hf.
        assert (Ht : existsb (fun n => String.eqb (row_id n) id) news = true).
        { apply existsb_exists. exists n. split; [exact Hn |].
          apply String.eqb_eq. exact Hnid. }
        congruence. }
      rewrite Hin. reflexivity.
  - intros env subscriptions bf ts w t id H.
    destruct (upsert_subscriptions_keeps_rows env subscriptions bf ts w)
      as [new [_ [F D]]].
    rewrite D. apply replay_keeps_rows; assumption.
  - intros. apply mark_deleted_subscription_items_run.
Qed.

(** A stored subscription with three live items, and an update that
    carries two of them. *)
Definition stored_item (id : string) : row :=
  {| row_id := id;
     row_fields := project subscription_item_schema
                     [("id", VStr id); ("object", VStr "subscription_item");
                      ("deleted", VBool false);
                      ("subscription", VStr "sub_1")];
     last_synced_at := Some 3%Z |}.

Definition world_with_items : world :=
  {| db := set_table (fun _ => []) tbl_subscription_items
             [stored_item "si_A"; stored_item "si_B"; stored_item "si_C"];
     log := [] |}.

Definition carried_item (id : string) : value :=
  VDict [("id", VStr id); ("object", VStr "subscription_item");
         ("subscription", VStr "sub_1"); ("price", VStr "price_1")].

Definition subscription_update : dict :=
  [("id", VStr "sub_1"); ("object", VStr "subscription");
   ("status", VStr "active");
   ("items", VDict [("object", VStr "list");
                    ("data", VList [carried_item "si_A"; carried_item "si_C"]);
                    ("has_more", VBool false)])].

Lemma C3_subscription_items_are_flagged_witness :
  let w' := snd (_upsert_subscriptions (make_env small_api plain_config)
                   [subscription_update] (Some false) (Some 5%Z)
                   world_with_items) in
  (find_row "si_B" (db w' tbl_subscription_items)
   = Some (set_deleted (stored_item "si_B"))
   /\ flagged (set_deleted (stored_item "si_B")))
  /\ (exists a', find_row "si_A" (db w' tbl_subscription_items) = Some a'
                 /\ live a')
  /\ (exists c', find_row "si_C" (db w' tbl_subscription_items) = Some c'
                 /\ live c').
Proof.
  cbv zeta.
  destruct (_upsert_subscriptions (make_env small_api plain_config)
              [subscription_update] (Some false) (Some 5%Z) world_with_items)
    as [[e | rows] w'] eqn:Hrun.
  { exfalso. vm_compute in Hrun. discriminate Hrun. }
  simpl snd.
  assert (Hc : complete_items subscription_update) by reflexivity.
  assert (Hid : lookup_key "id" subscription_update = Some (VStr "sub_1"))
    by reflexivity.
  assert (Hnf : Forall not_flagged (carried_items subscription_update)).
  { repeat constructor; intros d E; inversion E; reflexivity. }
  destruct (proj1 C3_subscription_items_are_flagged
              (make_env small_api plain_config) subscription_update
              (Some false) (Some 5%Z) world_with_items rows w' (VStr "sub_1")
              Hc Hid Hnf Hrun) as [HB HA].
  split; [| split].
  - apply HB; [reflexivity | reflexivity |].
    intros [d [Hin Hd]]. simpl in Hin.
    destruct Hin as [E | [E | []]]; inversion E; subst d; discriminate Hd.
  - apply HA.
    + eexists. split; [left; reflexivity | reflexivity].
    + intros a Ha. inversion Ha. reflexivity.
  - apply HA.
    + eexists. split; [right; left; reflexivity | reflexivity].
    + intros a Ha. inversion Ha. reflexivity.
Defined.

(* ================================================================== *)
(** * The timestamp guard and the reconciliation of subscription items *)
(* ================================================================== *)





(* ================================================================== *)
(** * Active entitlements: reconciliation by deletion *)
(* ================================================================== *)

Lemma upsert_row_In (r n : row) (ts : option timestamp) (rows : list row) :
  In r (fst (upsert_row n ts rows)) -> In r rows \/ r = n.
Proof.
  induction rows as [| x rows IH]; simpl.
  - intros [E | []]. right. symmetry. exact E.
  - destruct (String.eqb (row_id x) (row_id n)).
    + destruct (stored_is_newer ts x); simpl.
      * intro H. left. exact H.
      * intros [E | H]; [right; symmetry; exact E | left; right; exact H].
    + destruct (upsert_row n ts rows) as [rows'' applied]. simpl in *.
      intros [E | H]; [left; left; exact E |].
      destruct (IH H) as [H' | H']; [left; right; exact H' | right; exact H'].
Qed.

Lemma upsert_rows_In (r : row) (ts : option timestamp) (news rows : list row) :
  In r (fst (upsert_rows news ts rows)) -> In r rows \/ In r news.
Proof.
  revert rows. induction news as [| n news IH]; intros rows H;
    [left; exact H |].
  simpl in H. destruct (upsert_row n ts rows) as [rows1 applied] eqn:E1.
  pose proof (IH rows1) as K.
  destruct (upsert_rows news ts rows1) as [rows2 written]. simpl in *.
  destruct (K H) as [H1 | H1]; [| right; right; exact H1].
  pose proof (@upsert_row_In r n ts rows) as U. rewrite E1 in U.
  destruct (U H1) as [H2 | H2]; [left; exact H2 | right; left; symmetry; exact H2].
Qed.

Lemma find_row_none (id : string) (rows : list row) :
  (forall r, In r rows -> row_id r <> id) -> find_row id rows = None.
Proof.
  induction rows as [| x rows IH]; intro H; [reflexivity |].
  simpl. destruct (String.eqb (row_id x) id) eqn:E.
  - apply String.eqb_eq in E. exfalso. apply (H x (or_introl eq_refl) E).
  - apply IH. intros r Hr. apply H. right. exact Hr.
Qed.

(** In a table whose ids are distinct, the row found for an id is the only
    row with that id. *)
Lemma find_row_unique (rows : list row) (r r' : row) :
  NoDup (map row_id rows) ->
  find_row (row_id r') rows = Some r -> In r' rows -> r' = r.
Proof.
  induction rows as [| x rows IH]; intros ND Hf Hin; [contradiction |].
  simpl in Hf. inversion ND as [| a l Hnot ND']. subst.
  destruct (String.eqb (row_id x) (row_id r')) eqn:E.
  - inversion Hf. subst x. apply String.eqb_eq in E.
    destruct Hin as [H | H]; [symmetry; exact H |].
    exfalso. apply Hnot. rewrite E. apply in_map. exact H.
  - destruct Hin as [H | H].
    + subst x. rewrite String.eqb_refl in E. discriminate.
    + apply IH; assumption.
Qed.

Lemma find_row_filter_out (f : row -> bool) (id : string) (rows : list row)
  (r : row) :
  NoDup (map row_id rows) ->
  find_row id rows = Some r -> f r = false ->
  find_row id (filter f rows) = None.
Proof.
  intros ND Hf Hr. apply find_row_none. intros r' Hin E.
  apply filter_In in Hin. destruct Hin as [Hin Hfr].
  subst id. rewrite (@find_row_unique rows r r' ND Hf Hin) in Hfr.
  congruence.
Qed.

Lemma differs_from_all_strings (id : string) (ids : list string) :
  differs_from_all id (map VStr ids) = negb (in_list id ids).
Proof.
  unfold differs_from_all, in_list.
  induction ids as [| x ids IH]; [reflexivity |].
  simpl. rewrite IH. destruct (String.eqb id x); reflexivity.
Qed.

(** [entitlements['data']] when it can be iterated. *)
Definition entitlement_items (entitlements : value) : option (list value) :=
  match entitlements with
  | VDict d =>
      match lookup_key "data" d with
      | Some (VList l) => Some l
      | _ => None
      end
  | _ => None
  end.

Lemma entitlements_data_run entitlements w l w1 :
  entitlements_data entitlements w = (inr l, w1) ->
  w1 = w /\ entitlement_items entitlements = Some l.
Proof.
  unfold entitlements_data, entitlement_items, py_item.
  destruct entitlements as [| | | | | d]; try discriminate.
  destruct (lookup_key "data" d) as [v |]; [| discriminate].
  change (bind (ret v) ?k w) with (k v w). cbv beta.
  destruct v; try discriminate. intro H. inversion H. auto.
Qed.

Lemma entitlement_record_run z d w m w1 :
  entitlement_record z d w = (inr m, w1) ->
  w1 = w
  /\ lookup_key "id" m = lookup_key "id" d
  /\ py_get m "customer" = z.
Proof.
  unfold entitlement_record. intro H.
  apply bind_inv_ok in H. destruct H as [feature_id [w2 [Hf H]]].
  assert (w2 = w).
  { destruct (py_get d "feature"); try discriminate; inversion Hf;
      reflexivity. }
  subst w2. unfold py_item in H.
  destruct (lookup_key "id" d) as [id |]; [| discriminate].
  change (bind (ret id) ?k w) with (k id w) in H. cbv beta in H.
  destruct (lookup_key "object" d) as [object |]; [| discriminate].
  change (bind (ret object) ?k w) with (k object w) in H. cbv beta in H.
  destruct (lookup_key "livemode" d) as [livemode |]; [| discriminate].
  change (bind (ret livemode) ?k w) with (k livemode w) in H. cbv beta in H.
  inversion H. subst. auto.
Qed.

Lemma entitlement_records_run z ds :
  forall w ms w1,
    map_m (entitlement_record z) ds w = (inr ms, w1) ->
    w1 = w
    /\ Forall2 (fun d m => lookup_key "id" m = lookup_key "id" d
                           /\ py_get m "customer" = z) ds ms.
Proof.
  induction ds as [| d ds IH]; intros w ms w1 H.
  - inversion H. auto.
  - cbn [map_m] in H. apply bind_inv_ok in H.
    destruct H as [m [w2 [Hm H]]].
    apply entitlement_record_run in Hm. destruct Hm as [E Hm]. subst w2.
    apply bind_inv_ok in H. destruct H as [ms' [w3 [Hms H]]].
    apply IH in Hms. destruct Hms as [E Hms]. subst w3.
    inversion H. subst. split; [reflexivity |]. constructor; assumption.
Qed.

(** What the entitlement branch stores for one item of the list in
    effect. *)
Definition stored_entitlement (z : value) (ts : option timestamp)
  (item : value) (n : row) : Prop :=
  exists d,
    item = VDict d
    /\ lookup_key "id" d = Some (VStr (row_id n))
    /\ py_get (row_fields n) "customer" = z
    /\ last_synced_at n = ts.

Lemma Forall2_cons_l (A B : Type) (R : A -> B -> Prop) a l l' :
  Forall2 R (a :: l) l' ->
  exists b l'', l' = b :: l'' /\ R a b /\ Forall2 R l l''.
Proof.
  intro H. inversion H. subst. eauto.
Qed.

Lemma stored_entitlements_of z ts items :
  forall ids ms news,
    Forall2 (fun item v => exists d, item = VDict d
                                       /\ lookup_key "id" d = Some v)
      items ids ->
    Forall2 (fun d m => lookup_key "id" m = lookup_key "id" d
                        /\ py_get m "customer" = z) (dicts_of items) ms ->
    Forall2 (fun m n => make_row active_entitlement_schema ts m = Some n)
      ms news ->
    Forall2 (stored_entitlement z ts) items news
    /\ ids = map (fun n => VStr (row_id n)) news.
Proof.
  induction items as [| item items IH]; intros ids ms news Hids Hms Hnews.
  - inversion Hids as [E1 E2 |]. simpl in Hms.
    inversion Hms as [E3 E4 |]. rewrite <- E4 in Hnews.
    inversion Hnews. split; [constructor | reflexivity].
  - apply Forall2_cons_l in Hids.
    destruct Hids as [v [ids' [Eids [[d [Ei Hv]] Hrest]]]].
    rewrite Ei in Hms. simpl in Hms. apply Forall2_cons_l in Hms.
    destruct Hms as [m [ms' [Ems [[Hid Hcust] Hms']]]].
    rewrite Ems in Hnews. apply Forall2_cons_l in Hnews.
    destruct Hnews as [n [news' [Enews [Hrow Hnews']]]].
    destruct (IH _ _ _ Hrest Hms' Hnews') as [F E].
    apply make_row_id in Hrow. destruct Hrow as [Hrid Hn].
    unfold record_id in Hrid. rewrite Hid, Hv in Hrid.
    assert (Ev : v = VStr (row_id n)).
    { destruct v; try discriminate. inversion Hrid. reflexivity. }
    rewrite Enews, Eids. split.
    + constructor; [| exact F]. exists d. split; [exact Ei |].
      split; [congruence |]. rewrite Hn. simpl. split; [| reflexivity].
      exact Hcust.
    + simpl. rewrite Ev, E. reflexivity.
Qed.

(** Whether the configuration asks for entitlements to be listed again:
    [self.config.revalidate_objects_via_stripe_api and 'entitlements' in
     self.config.revalidate_objects_via_stripe_api]. *)
Definition revalidates_entitlements (env : environment) : bool :=
  match revalidate_objects_via_stripe_api (cfg env) with
  | Some l => in_list "entitlements" l
  | None => false
  end.

Lemma entitlements_in_effect_run env ev w entitlements refetched w1 :
  entitlements_in_effect env ev w = (inr (entitlements, refetched), w1) ->
  (revalidates_entitlements env = false
   /\ refetched = false
   /\ lookup_key "entitlements" (ev_object ev) = Some entitlements
   /\ w1 = w)
  \/ (revalidates_entitlements env = true
      /\ refetched = true
      /\ exists z result,
           lookup_key "customer" (ev_object ev) = Some z
           /\ list_objects (stripe env) (ListActiveEntitlements z) = inr result
           /\ entitlements = list_object result
           /\ w1 = logged w (ApiList (ListActiveEntitlements z))).
Proof.
  unfold entitlements_in_effect. cbv zeta.
  fold (revalidates_entitlements env). unfold py_item at 1.
  destruct (lookup_key "entitlements" (ev_object ev)) as [ents |];
    [| discriminate].
  change (bind (ret ents) ?k w) with (k ents w). cbv beta.
  destruct (revalidates_entitlements env).
  - unfold py_item.
    destruct (lookup_key "customer" (ev_object ev)) as [z |]; [| discriminate].
    change (bind (ret z) ?k w) with (k z w). cbv beta.
    intro H. apply bind_inv_ok in H. destruct H as [result [w2 [Hl H]]].
    right. split; [reflexivity |].
    unfold stripe_list_call, bind, issue in Hl. simpl in Hl.
    destruct (list_objects (stripe env) (ListActiveEntitlements z))
      as [err | l] eqn:El; [discriminate |].
    inversion Hl. subst. inversion H. subst.
    split; [reflexivity |]. exists z, result. auto.
  - intro H. inversion H. subst. left. auto.
Qed.

Lemma reconcile_entitlements_run env ev entitlements refetched w w' :
  reconcile_entitlements env ev entitlements refetched w = (inr tt, w') ->
  let ts := Some (_get_sync_timestamp env ev refetched) in
  exists z items news entries,
    lookup_key "customer" (ev_object ev) = Some z
    /\ entitlement_items entitlements = Some items
    /\ Forall2 (stored_entitlement z ts) items news
    /\ db w' tbl_active_entitlements
       = fst (upsert_rows news ts
                (delete_entitlements_except z
                   (map (fun n => VStr (row_id n)) news)
                   (db w tbl_active_entitlements)))
    /\ log w'
       = log w
         ++ [DbDeleteEntitlementsExcept z
               (map (fun n => VStr (row_id n)) news);
             DbUpsert tbl_active_entitlements entries
               active_entitlement_schema ts].
Proof.
  unfold reconcile_entitlements. cbv zeta. intro H.
  apply bind_inv_ok in H. destruct H as [[] [w0 [Hlog H]]].
  assert (w0 = w).
  { destruct (logger (cfg env)); [| inversion Hlog; reflexivity].
    unfold ignore, py_item in Hlog.
    destruct (lookup_key "customer" (ev_object ev)); [| discriminate].
    inversion Hlog. reflexivity. }
  subst w0. unfold py_item in H.
  destruct (lookup_key "customer" (ev_object ev)) as [z |] eqn:Hz;
    [| discriminate].
  change (bind (ret z) ?k w) with (k z w) in H. cbv beta in H.
  apply bind_inv_ok in H. destruct H as [items [w1 [Hitems H]]].
  apply entitlements_data_run in Hitems. destruct Hitems as [E Hitems].
  subst w1.
  apply bind_inv_ok in H. destruct H as [ids [w1 [Hids H]]].
  apply item_ids_run in Hids. destruct Hids as [E Hids]. subst w1.
  apply bind_inv_ok in H. destruct H as [count [w1 [Hdel H]]].
  unfold _delete_removed_active_entitlements, query_delete_entitlements_except,
    bind, issue, read_table, write_table, ret in Hdel.
  simpl in Hdel. inversion Hdel as [[Ec Ew]]. clear Hdel.
  change (bind (ret z) ?k w1) with (k z w1) in H. cbv beta in H.
  apply bind_inv_ok in H. destruct H as [items' [w2 [Hitems' H]]].
  apply entitlements_data_run in Hitems'. destruct Hitems' as [E Hitems'].
  subst w2. assert (items' = items) by congruence. subst items'.
  apply bind_inv_ok in H. destruct H as [ts0 [w2 [Hts H]]].
  destruct (call_get_sync_timestamp_run env ev refetched w1)
    as [T | [err [_ [_ T]]]]; rewrite T in Hts; [| discriminate Hts].
  inversion Hts. subst ts0 w2. clear Hts T.
  unfold ignore in H. apply bind_inv_ok in H.
  destruct H as [written [w2 [Hup H]]]. inversion H. subst w2. clear H.
  unfold _upsert_active_entitlements, backfill_enabled, when in Hup.
  change (bind (ret tt) ?k w1) with (k tt w1) in Hup. cbv beta in Hup.
  apply bind_inv_ok in Hup. destruct Hup as [entries [w2 [Hrec Hup]]].
  apply entitlement_records_run in Hrec. destruct Hrec as [E Hrec]. subst w2.
  apply upsert_many_run in Hup. destruct Hup as [news [Hrows [Hdb Hlog']]].
  apply make_rows_ids in Hrows.
  destruct (@stored_entitlements_of z
              (Some (_get_sync_timestamp env ev refetched))
              items ids entries news Hids Hrec Hrows) as [F Eids].
  exists z, items, news, entries.
  split; [reflexivity |]. split; [exact Hitems |]. split; [exact F |].
  rewrite Hdb, Hlog'. rewrite <- Ew. simpl.
  rewrite !set_table_same. rewrite <- Eids, <- app_assoc.
  split; reflexivity.
Qed.

(** The list the entitlement branch reconciles the store against: the
    one the summary carries or, when entitlements are revalidated, the
    first page of the customer's current listing. *)
Definition list_in_effect (env : environment) (ev : event) (z : value)
  : option (list value) :=
  if revalidates_entitlements env then
    match list_objects (stripe env) (ListActiveEntitlements z) with
    | inr result => Some (map VDict (data result))
    | inl _ => None
    end
  else
    match lookup_key "entitlements" (ev_object ev) with
    | Some entitlements => entitlement_items entitlements
    | None => None
    end.

Definition listing_calls (env : environment) (z : value) : list op :=
  if revalidates_entitlements env
  then [ApiList (ListActiveEntitlements z)]
  else [].

(** A row of [active_entitlements] that belongs to customer [z]. *)
Definition entitlement_of (z : value) (r : row) : bool :=
  sql_eq (py_get (row_fields r) "customer") z.

Lemma in_list_map_row_id (id : string) (news : list row) :
  differs_from_all id (map (fun n => VStr (row_id n)) news)
  = negb (in_list id (map row_id news)).
Proof.
  rewrite <- differs_from_all_strings, map_map. reflexivity.
Qed.

Lemma reconciled_rows (z : value) (ts : option timestamp)
  (news rows : list row) :
  NoDup (map row_id rows) ->
  let ids := map row_id news in
  let rows' :=
    fst (upsert_rows news ts
           (delete_entitlements_except z
              (map (fun n => VStr (row_id n)) news) rows)) in
  (forall r, In r rows -> entitlement_of z r = true ->
             ~ In (row_id r) ids -> find_row (row_id r) rows' = None)
  /\ (forall id, In id ids -> has_row rows' id = true)
  /\ (forall r, In r rows' -> entitlement_of z r = true ->
                In (row_id r) ids).
Proof.
  intros ND ids rows'. subst ids rows'. split; [| split].
  - intros r Hin Hz Hout. rewrite upsert_rows_other.
    + apply find_row_none. intros r' Hin' E.
      unfold delete_entitlements_except in Hin'.
      apply filter_In in Hin'. destruct Hin' as [Hin' Hkeep].
      assert (Er : r' = r).
      { destruct (find_row (row_id r') rows) as [r0 |] eqn:F.
        - pose proof (@find_row_unique rows r0 r' ND F Hin') as E1.
          rewrite E in F.
          pose proof (@find_row_unique rows r0 r ND F Hin) as E2.
          congruence.
        - exfalso. revert F Hin'. clear. induction rows as [| x rows IH].
          + intros _ [].
          + simpl. destruct (String.eqb (row_id x) (row_id r')) eqn:E;
              [discriminate |].
            intros F [H | H]; [| exact (IH F H)].
            subst x. rewrite String.eqb_refl in E. discriminate. }
      subst r'. unfold removed_entitlement in Hkeep.
      unfold entitlement_of in Hz. rewrite Hz, in_list_map_row_id in Hkeep.
      rewrite (in_list_not_In _ _ Hout) in Hkeep. discriminate.
    + intros n Hn E. apply Hout. rewrite <- E. apply in_map. exact Hn.
  - intros id Hin. apply upsert_rows_stores.
    apply in_map_iff in Hin. destruct Hin as [n [E Hn]]. exists n. auto.
  - intros r Hin Hz. apply upsert_rows_In in Hin.
    destruct Hin as [Hin | Hin]; [| apply in_map; exact Hin].
    unfold delete_entitlements_except in Hin. apply filter_In in Hin.
    destruct Hin as [_ Hkeep]. unfold removed_entitlement in Hkeep.
    unfold entitlement_of in Hz. rewrite Hz, in_list_map_row_id in Hkeep.
    apply in_list_In. destruct (in_list (row_id r) (map row_id news));
      [reflexivity | discriminate].
Qed.

(** C4 (amended).  When [process_event] handles an
    [entitlements.active_entitlement_summary.updated] event for customer
    [z] and returns, over a table whose ids are distinct:
    the list in effect is the [data] of the summary's [entitlements],
    unless [entitlements] is in [revalidate_objects_via_stripe_api], in
    which case it is the first page of the customer's current listing,
    fetched first; its ids are the ids of the rows written; the run issues
    the deletion for [z] and these ids and then the upsert of the list,
    in this order and nothing else; afterwards every row that was stored
    for [z] with an id outside the list is physically gone, every id of
    the list has a row, and every remaining row of [z] has its id in the
    list. *)
Theorem C4_entitlement_diff env ev w w' z :
  ev_type ev = "entitlements.active_entitlement_summary.updated" ->
  lookup_key "customer" (ev_object ev) = Some z ->
  NoDup (map row_id (db w tbl_active_entitlements)) ->
  process_event env ev w = (inr tt, w') ->
  let ts := Some (_get_sync_timestamp env ev (revalidates_entitlements env)) in
  exists items news entries,
    list_in_effect env ev z = Some items
    /\ Forall2 (stored_entitlement z ts) items news
    /\ log w'
       = log w ++ listing_calls env z
         ++ [DbDeleteEntitlementsExcept z
               (map (fun n => VStr (row_id n)) news);
             DbUpsert tbl_active_entitlements entries
               active_entitlement_schema ts]
    /\ (forall r, In r (db w tbl_active_entitlements) ->
                  entitlement_of z r = true ->
                  ~ In (row_id r) (map row_id news) ->
                  find_row (row_id r) (db w' tbl_active_entitlements) = None)
    /\ (forall id, In id (map row_id news) ->
                   has_row (db w' tbl_active_entitlements) id = true)
    /\ (forall r, In r (db w' tbl_active_entitlements) ->
                  entitlement_of z r = true ->
                  In (row_id r) (map row_id news)).
Proof.
  intros Hty Hz ND H ts. rewrite process_event_route, Hty in H.
  change (handler_of "entitlements.active_entitlement_summary.updated")
    with HEntitlementSummary in H.
  cbn [run_handler] in H. unfold process_entitlement_summary in H.
  apply bind_inv_ok in H. destruct H as [[ents refetched] [w1 [Hin H]]].
  cbv beta iota in H.
  apply reconcile_entitlements_run in H. cbv zeta in H.
  destruct H as [z' [items [news [entries [Hz' [Hitems [F [Hdb Hlog]]]]]]]].
  assert (z' = z) by congruence. subst z'.
  apply entitlements_in_effect_run in Hin.
  assert (K : revalidates_entitlements env = refetched
              /\ list_in_effect env ev z = Some items
              /\ db w1 = db w
              /\ log w1 = log w ++ listing_calls env z).
  { unfold list_in_effect, listing_calls.
    destruct Hin
      as [[Hr [Hf [He Hw]]] | [Hr [Hf [z1 [result [Hz1 [Hl [He Hw]]]]]]]].
    - rewrite Hr, He. subst. rewrite app_nil_r. auto.
    - assert (z1 = z) by congruence. subst z1. rewrite Hr, Hl.
      subst ents. simpl in Hitems. subst. simpl. auto. }
  destruct K as [Hr [Hl [Hdb1 Hlog1]]].
  exists items, news, entries. subst ts. rewrite Hr.
  split; [exact Hl |]. split; [exact F |].
  split; [rewrite Hlog, Hlog1, <- app_assoc; reflexivity |].
  rewrite Hdb, Hdb1.
  apply (@reconciled_rows z (Some (_get_sync_timestamp env ev refetched))
           news (db w tbl_active_entitlements) ND).
Qed.

(** Customer [cus_Z] with the stored entitlements [ent_X] and [ent_Y],
    and a summary that carries [ent_Y] only. *)
Definition entitlement_object (id : string) : dict :=
  [("id", VStr id); ("object", VStr "entitlements.active_entitlement");
   ("feature", VStr "feat_1"); ("livemode", VBool false);
   ("lookup_key", VStr "key_1")].

Definition entitlement_row (id : string) : row :=
  {| row_id := id;
     row_fields := project active_entitlement_schema
                     (("customer", VStr "cus_Z") :: entitlement_object id);
     last_synced_at := Some 3%Z |}.

Definition world_with_entitlements : world :=
  {| db := set_table (fun _ => []) tbl_active_entitlements
             [entitlement_row "ent_X"; entitlement_row "ent_Y"];
     log := [] |}.

Definition summary_event : event :=
  {| ev_id := "evt_5";
     ev_type := "entitlements.active_entitlement_summary.updated";
     ev_created := 9%Z;
     ev_object :=
       [("object", VStr "entitlements.active_entitlement_summary");
        ("customer", VStr "cus_Z");
        ("entitlements",
         VDict [("object", VStr "list");
                ("data", VList [VDict (entitlement_object "ent_Y")])])] |}.

(** An account whose listing for [cus_Z] still holds both entitlements. *)
Definition listing_api : stripe_api :=
  {| retrieve := fun _ _ => inl (InvalidRequestError (Some "resource_missing"));
     list_objects := fun c =>
       match c with
       | ListActiveEntitlements (VStr "cus_Z") =>
           inr {| data := [entitlement_object "ent_X";
                           entitlement_object "ent_Y"];
                  later_pages := []; paging_error := None |}
       | _ => inr {| data := []; later_pages := []; paging_error := None |}
       end;
     object_str := fun _ => "" |}.

(** With [entitlements] in the revalidation list, the summary that carries
    [ent_Y] only is processed without error and [ent_X] is still stored:
    the customer's listing took the place of the summary's list. *)
Lemma C4_entitlement_diff_counterexample :
  let env := make_env listing_api revalidating_config in
  let run := process_event env summary_event world_with_entitlements in
  map row_id (db world_with_entitlements tbl_active_entitlements)
  = ["ent_X"; "ent_Y"]
  /\ forallb (entitlement_of (VStr "cus_Z"))
       (db world_with_entitlements tbl_active_entitlements) = true
  /\ entitlement_items (py_get (ev_object summary_event) "entitlements")
     = Some [VDict (entitlement_object "ent_Y")]
  /\ fst run = inr tt
  /\ has_row (db (snd run) tbl_active_entitlements) "ent_X" = true
  /\ map row_id (db (snd run) tbl_active_entitlements) = ["ent_X"; "ent_Y"].
Proof. vm_compute. repeat split. Qed.

Lemma C4_entitlement_diff_witness :
  let env := make_env empty_api plain_config in
  let w' := snd (process_event env summary_event world_with_entitlements) in
  find_row "ent_X" (db w' tbl_active_entitlements) = None
  /\ has_row (db w' tbl_active_entitlements) "ent_Y" = true
  /\ exists entries,
       log w' = [DbDeleteEntitlementsExcept (VStr "cus_Z") [VStr "ent_Y"];
                 DbUpsert tbl_active_entitlements entries
                   active_entitlement_schema (Some 9%Z)].
Proof.
  cbv zeta.
  destruct (process_event (make_env empty_api plain_config) summary_event
              world_with_entitlements) as [[e | []] w'] eqn:Hrun.
  { exfalso. vm_compute in Hrun. discriminate Hrun. }
  simpl snd.
  assert (ND : NoDup (map row_id
                        (db world_with_entitlements tbl_active_entitlements))).
  { repeat constructor; simpl; intuition discriminate. }
  destruct (@C4_entitlement_diff (make_env empty_api plain_config)
              summary_event world_with_entitlements w' (VStr "cus_Z")
              eq_refl eq_refl ND Hrun)
    as [items [news [entries [Hl [F [Hlog [Hgone [Hkept _]]]]]]]].
  vm_compute in Hl. inversion Hl. subst items.
  apply Forall2_cons_l in F. destruct F as [n [news' [E [Hn F]]]].
  inversion F. subst news' news.
  destruct Hn as [d [Ed [Hid _]]]. inversion Ed. subst d.
  simpl in Hid. inversion Hid as [Eid].
  split; [| split].
  - apply (Hgone (entitlement_row "ent_X")).
    + left. reflexivity.
    + reflexivity.
    + simpl. rewrite <- Eid. intros [H | []]. discriminate H.
  - apply Hkept. simpl. rewrite <- Eid. left. reflexivity.
  - exists entries. rewrite Hlog. simpl. rewrite <- Eid. reflexivity.
Defined.

(* ================================================================== *)
(** * Referential backfill *)
(* ================================================================== *)

(** The kinds some upsert method backfills, with their table, their API
    resource, their backfill method and the upsert call it ends with. *)
Inductive dependency : Type :=
| DCustomer | DProduct | DSubscription | DInvoice | DCharge
| DPaymentIntent | DFeature.

Definition dep_table (d : dependency) : table :=
  match d with
  | DCustomer => tbl_customers
  | DProduct => tbl_products
  | DSubscription => tbl_subscriptions
  | DInvoice => tbl_invoices
  | DCharge => tbl_charges
  | DPaymentIntent => tbl_payment_intents
  | DFeature => tbl_features
  end.

Definition dep_resource (d : dependency) : resource :=
  match d with
  | DCustomer => Customer
  | DProduct => Product
  | DSubscription => Subscription
  | DInvoice => Invoice
  | DCharge => Charge
  | DPaymentIntent => PaymentIntent
  | DFeature => Feature
  end.

Definition dep_backfill (env : environment) (d : dependency)
  : list string -> M unit :=
  match d with
  | DCustomer => _backfill_customers env
  | DProduct => _backfill_products env
  | DSubscription => _backfill_subscriptions env
  | DInvoice => _backfill_invoices env
  | DCharge => _backfill_charges env
  | DPaymentIntent => _backfill_payment_intents env
  | DFeature => _backfill_features env
  end.

(** The call a backfill method makes on the entities it fetched: the
    upsert method of their kind, without override. *)
Definition dep_call (d : dependency) (fetched : list dict) : upsert_call :=
  match d with
  | DCustomer => UpsertCustomers fetched
  | DProduct => UpsertProducts fetched
  | DSubscription => UpsertSubscriptions fetched None
  | DInvoice => UpsertInvoices fetched None
  | DCharge => UpsertCharges fetched None
  | DPaymentIntent => UpsertPaymentIntents fetched None
  | DFeature => UpsertFeatures fetched
  end.

(** Where an upsert method reads the ids it backfills: a field of the
    entity, or the [payment] of an invoice payment. *)
Inductive source : Type :=
| Field (k : string)
| Payment (kind : string).

Definition collect (env : environment) (s : source) (entries : list dict)
  : list string :=
  match s with
  | Field k => get_unique_ids env entries k
  | Payment kind => dedup (payment_refs env kind entries)
  end.

(** The relations each upsert method backfills under its
    [backfill_related_entities] test, in the order of its calls. *)
Definition relations_of (c : upsert_call) : list (source * dependency) :=
  match c with
  | UpsertCharges _ _ | UpsertCreditNotes _ _ | UpsertPaymentIntents _ _ =>
      [(Field "customer", DCustomer); (Field "invoice", DInvoice)]
  | UpsertCheckoutSessions _ _ =>
      [(Field "customer", DCustomer); (Field "subscription", DSubscription);
       (Field "payment_intent", DPaymentIntent); (Field "invoice", DInvoice)]
  | UpsertEarlyFraudWarnings _ _ | UpsertRefunds _ _ | UpsertReviews _ _ =>
      [(Field "payment_intent", DPaymentIntent); (Field "charge", DCharge)]
  | UpsertDisputes _ _ => [(Field "charge", DCharge)]
  | UpsertInvoices _ _ =>
      [(Field "customer", DCustomer); (Field "subscription", DSubscription)]
  | UpsertInvoicePayments _ _ =>
      [(Field "invoice", DInvoice); (Payment "payment_intent", DPaymentIntent);
       (Payment "charge", DCharge)]
  | UpsertPlans _ _ | UpsertPrices _ _ => [(Field "product", DProduct)]
  | UpsertPaymentMethods _ _ | UpsertSetupIntents _ _ | UpsertTaxIds _ _
  | UpsertSubscriptionSchedules _ _ | UpsertSubscriptions _ _ =>
      [(Field "customer", DCustomer)]
  | UpsertActiveEntitlements _ _ _ =>
      [(Field "customer", DCustomer); (Field "feature", DFeature)]
  | UpsertCheckoutSessionLineItems _ _ | UpsertCustomers _
  | UpsertProducts _ | UpsertSubscriptionItems _ | UpsertFeatures _ => []
  end.

(** The batch of an upsert call and its [backfill_related_entities]
    argument, for the methods that have one. *)
Definition entries_of (c : upsert_call) : list dict :=
  match c with
  | UpsertCharges l _ | UpsertCreditNotes l _ | UpsertCheckoutSessions l _
  | UpsertCheckoutSessionLineItems l _ | UpsertEarlyFraudWarnings l _
  | UpsertRefunds l _ | UpsertReviews l _ | UpsertCustomers l
  | UpsertDisputes l _ | UpsertInvoices l _ | UpsertInvoicePayments l _
  | UpsertPlans l _ | UpsertPrices l _ | UpsertProducts l
  | UpsertPaymentIntents l _ | UpsertPaymentMethods l _
  | UpsertSetupIntents l _ | UpsertTaxIds l _
  | UpsertSubscriptionSchedules l _ | UpsertSubscriptions l _
  | UpsertFeatures l | UpsertActiveEntitlements _ l _ => l
  | UpsertSubscriptionItems items => dicts_of items
  end.

Definition backfill_flag (c : upsert_call) : option (option bool) :=
  match c with
  | UpsertCharges _ b | UpsertCreditNotes _ b | UpsertCheckoutSessions _ b
  | UpsertEarlyFraudWarnings _ b | UpsertRefunds _ b | UpsertReviews _ b
  | UpsertDisputes _ b | UpsertInvoices _ b | UpsertInvoicePayments _ b
  | UpsertPlans _ b | UpsertPrices _ b | UpsertPaymentIntents _ b
  | UpsertPaymentMethods _ b | UpsertSetupIntents _ b | UpsertTaxIds _ b
  | UpsertSubscriptionSchedules _ b | UpsertSubscriptions _ b
  | UpsertActiveEntitlements _ _ b => Some b
  | UpsertCheckoutSessionLineItems _ _ | UpsertCustomers _
  | UpsertProducts _ | UpsertSubscriptionItems _ | UpsertFeatures _ => None
  end.

(** The backfill calls of a list of relations, one after the other. *)
Fixpoint backfill_steps (env : environment) (rels : list (source * dependency))
  (entries : list dict) : M unit :=
  match rels with
  | [] => ret tt
  | [(s, d)] => dep_backfill env d (collect env s entries)
  | (s, d) :: rest =>
      dep_backfill env d (collect env s entries) ;;
      backfill_steps env rest entries
  end.

(** Every upsert method that takes the flag is its backfill steps, under
    the test of the flag, followed by a tail that removes no row. *)
Lemma run_upsert_shape env c bf ts :
  backfill_flag c = Some bf ->
  exists tail : M unit,
    (forall w,
        run_upsert env c ts w
        = (when (backfill_enabled env bf)
             (backfill_steps env (relations_of c) (entries_of c)) ;;
           tail) w)
    /\ uses keeps_rows tail.
Proof.
  intro H.
  destruct c; simpl in H; try discriminate H; inversion H; subst bf;
    eexists; (split; [ intro w; unfold run_upsert, ignore;
                       match goal with
                       | |- bind ?m _ _ = _ => let h := head_of m in unfold h
                       end;
                       rewrite bind_assoc; reflexivity
                     | uses_tac ltac:(exact I) ]).
Qed.

Lemma dedup_In (x : string) (l : list string) : In x (dedup l) <-> In x l.
Proof.
  induction l as [| y l IH]; simpl; [tauto |].
  destruct (in_list y l) eqn:E.
  - rewrite IH. split; [auto |].
    intros [H | H]; [subst; apply in_list_In; exact E | exact H].
  - simpl. rewrite IH. tauto.
Qed.

(** Entity [e] refers to the id [F] through the source [s]: the field, or
    the payment of the given type, holds the non-empty string [F]. *)
Definition refers (s : source) (e : dict) (F : string) : Prop :=
  F <> ""
  /\ match s with
     | Field k => lookup_key k e = Some (VStr F)
     | Payment kind =>
         exists p, lookup_key "payment" e = Some (VDict p)
                   /\ lookup_key "type" p = Some (VStr kind)
                   /\ lookup_key kind p = Some (VStr F)
     end.

Lemma collect_refers env s e F entries :
  refers s e F -> In e entries -> In F (collect env s entries).
Proof.
  intros [Hne H] Hin.
  assert (T : truthy (VStr F) = true).
  { simpl. destruct (String.eqb F "") eqn:E; [| reflexivity].
    apply String.eqb_eq in E. contradiction. }
  destruct s as [k | kind]; simpl.
  - unfold get_unique_ids. apply dedup_In. apply in_flat_map.
    exists e. split; [exact Hin |]. cbv zeta. unfold py_get.
    rewrite H, T. left. reflexivity.
  - destruct H as [p [Hp [Hty Hk]]]. apply dedup_In. unfold payment_refs.
    apply in_flat_map. exists e. split; [exact Hin |].
    unfold py_get_default, py_get. rewrite Hp, Hty, Hk.
    simpl py_eq_str. rewrite String.eqb_refl, T. left. reflexivity.
Qed.

(** The source API answers a retrieval with an object that carries the id
    asked for. *)
Definition faithful (api : stripe_api) : Prop :=
  forall r id e, retrieve api r (VStr id) = inr e ->
                 lookup_key "id" e = Some (VStr id).

Lemma fetch_missing_run env r ids :
  forall w fetched w1,
    _fetch_missing_entities ids (stripe_retrieve env r) w = (inr fetched, w1) ->
    Forall2 (fun id e => retrieve (stripe env) r (VStr id) = inr e) ids fetched
    /\ db w1 = db w
    /\ log w1 = log w ++ map (fun id => ApiRetrieve r (VStr id)) ids.
Proof.
  unfold _fetch_missing_entities.
  induction ids as [| id ids IH]; intros w fetched w1 H.
  - inversion H. subst. rewrite app_nil_r. auto.
  - cbn [map_m] in H. apply bind_inv_ok in H.
    destruct H as [e [w2 [He H]]].
    apply bind_inv_ok in H. destruct H as [es [w3 [Hes H]]].
    inversion H. subst. clear H.
    unfold stripe_retrieve, bind, issue in He. simpl in He.
    destruct (retrieve (stripe env) r (VStr id)) as [err | e'] eqn:R;
      [discriminate |].
    inversion He. subst. clear He.
    apply IH in Hes. destruct Hes as [F [D L]]. simpl in *.
    split; [constructor; assumption |]. split; [exact D |].
    rewrite L, <- app_assoc. reflexivity.
Qed.

(** A run of a backfill method: the ids without a live row are looked
    up, each is retrieved by a call of its own, and the fetched entities go
    through the upsert method of their kind, called without override. *)
Lemma backfill_run env d ids w w' :
  dep_backfill env d ids w = (inr tt, w') ->
  let missing := missing_entries ids (db w (dep_table d)) in
  exists fetched w1,
    Forall2 (fun id e => retrieve (stripe env) (dep_resource d) (VStr id)
                         = inr e) missing fetched
    /\ db w1 = db w
    /\ log w1 = log w
                ++ DbFindMissing (dep_table d) ids
                   :: map (fun id => ApiRetrieve (dep_resource d) (VStr id))
                        missing
    /\ run_upsert env (dep_call d fetched) None w1 = (inr tt, w').
Proof.
  intros H missing. subst missing.
  assert (K : exists fetched w1,
             _fetch_missing_entities
               (missing_entries ids (db w (dep_table d)))
               (stripe_retrieve env (dep_resource d))
               (logged w (DbFindMissing (dep_table d) ids))
             = (inr fetched, w1)
             /\ run_upsert env (dep_call d fetched) None w1 = (inr tt, w')).
  { destruct d; simpl in H |- *;
      match type of H with
      | ?f _ _ _ = _ => unfold f in H
      end;
      apply bind_inv_ok in H; destruct H as [m [w0 [Hm H]]];
      unfold find_missing_entries, bind, issue, read_table, ret in Hm;
      simpl in Hm; inversion Hm; subst m w0; clear Hm;
      apply bind_inv_ok in H; destruct H as [fetched [w1 [Hf H]]];
      exists fetched, w1; (split; [exact Hf | exact H]). }
  destruct K as [fetched [w1 [Hf H1]]].
  apply fetch_missing_run in Hf. destruct Hf as [F [D L]].
  exists fetched, w1. simpl in D, L. rewrite <- app_assoc in L.
  auto.
Qed.

Lemma keeps_run {A : Type} (m : M A) w r w' t id :
  uses keeps_rows m -> m w = (r, w') ->
  has_row (db w t) id = true -> has_row (db w' t) id = true.
Proof.
  intros U H Hrow. destruct (U w) as [new [_ [F D]]].
  rewrite H in D. simpl in D. rewrite D.
  apply replay_keeps_rows; assumption.
Qed.

Lemma has_row_In (rows : list row) (r : row) :
  In r rows -> has_row rows (row_id r) = true.
Proof.
  unfold has_row. induction rows as [| x rows IH]; [contradiction |].
  simpl. destruct (String.eqb (row_id x) (row_id r)) eqn:E; [reflexivity |].
  intros [H | H]; [| exact (IH H)].
  subst x. rewrite String.eqb_refl in E. discriminate.
Qed.

(** A batch write that returns has stored a row for each entry. *)
Lemma upsert_many_stores entries t schema ts w rows w' e F :
  upsert_many_with_timestamp_protection entries t schema ts w
  = (inr rows, w') ->
  In e entries -> lookup_key "id" e = Some (VStr F) ->
  has_row (db w' t) F = true.
Proof.
  intros H Hin Hid. apply upsert_many_run in H.
  destruct H as [news [Hrows [Hdb _]]]. rewrite Hdb, set_table_same.
  apply upsert_rows_stores. apply make_rows_In in Hrows.
  destruct Hrows as [Hrows _]. destruct (Hrows e Hin) as [n [Hn Hnin]].
  exists n. split; [exact Hnin |]. apply make_row_id in Hn.
  destruct Hn as [Hn _]. unfold record_id in Hn. rewrite Hid in Hn.
  inversion Hn. reflexivity.
Qed.

Lemma expand_one_id env property list_fn e w e' w' :
  expand_one env property list_fn e w = (inr e', w') ->
  String.eqb "id" property = false ->
  lookup_key "id" e' = lookup_key "id" e.
Proof.
  unfold expand_one. intros H Hp.
  destruct (py_get e property) as [| | | | | prop_value];
    try (inversion H; reflexivity).
  destruct (truthy (py_get prop_value "has_more"));
    [| inversion H; reflexivity].
  apply bind_inv_ok in H. destruct H as [id [w1 [_ H]]].
  apply bind_inv_ok in H. destruct H as [l [w2 [_ H]]].
  apply bind_inv_ok in H. destruct H as [all_data [w3 [_ H]]].
  inversion H. rewrite lookup_set_key, Hp. reflexivity.
Qed.

Lemma expand_entity_ids env entities property list_fn w es w' :
  _expand_entity env entities property list_fn w = (inr es, w') ->
  String.eqb "id" property = false ->
  forall e, In e entities ->
            exists e', In e' es /\ lookup_key "id" e' = lookup_key "id" e.
Proof.
  unfold _expand_entity. intros H Hp e Hin.
  destruct (auto_expand_lists (cfg env)) as [[|] |];
    [| inversion H; subst; exists e; auto
     | inversion H; subst; exists e; auto].
  revert w es w' H.
  induction entities as [| x entities IH]; intros w es w' H; [contradiction |].
  cbn [map_m] in H. apply bind_inv_ok in H. destruct H as [x' [w1 [Hx H]]].
  apply bind_inv_ok in H. destruct H as [es' [w2 [Hes H]]].
  inversion H. subst. destruct Hin as [E | Hin].
  - subst x. exists x'. split; [left; reflexivity |].
    eapply expand_one_id; [exact Hx | exact Hp].
  - destruct (IH Hin _ _ _ Hes) as [e' [He' Hid]].
    exists e'. split; [right; exact He' | exact Hid].
Qed.

Lemma dep_call_keeps env d fetched ts :
  uses keeps_rows (run_upsert env (dep_call d fetched) ts).
Proof. destruct d; uses_tac ltac:(exact I). Qed.

(** The upsert a backfill method ends with stores a row for each fetched
    entity. *)
Lemma dep_call_stores env d fetched ts w w' e F :
  run_upsert env (dep_call d fetched) ts w = (inr tt, w') ->
  In e fetched -> lookup_key "id" e = Some (VStr F) ->
  has_row (db w' (dep_table d)) F = true.
Proof.
  intros H Hin Hid.
  destruct d; simpl in H; unfold ignore in H;
    apply bind_inv_ok in H; destruct H as [res [w1 [H Hret]]];
    inversion Hret; subst w1; clear Hret; simpl dep_table.
  - (* customers *)
    unfold _upsert_customers in H. cbv zeta in H.
    apply bind_inv_ok in H. destruct H as [r1 [w1 [H1 H]]].
    apply bind_inv_ok in H. destruct H as [r2 [w2 [H2 H]]].
    inversion H. subst. clear H.
    destruct (truthy (py_get e "deleted")) eqn:Hd.
    + eapply upsert_many_stores; [exact H2 | | exact Hid].
      apply filter_In. split; [exact Hin | exact Hd].
    + eapply keeps_run; [| exact H2 |]; [uses_tac ltac:(exact I) |].
      eapply upsert_many_stores; [exact H1 | | exact Hid].
      apply filter_In. split; [exact Hin |]. rewrite Hd. reflexivity.
  - (* products *)
    eapply upsert_many_stores; [exact H | exact Hin | exact Hid].
  - (* subscriptions *)
    unfold _upsert_subscriptions in H.
    apply bind_inv_ok in H. destruct H as [[] [w1 [_ H]]].
    apply bind_inv_ok in H. destruct H as [es [w2 [Hex H]]].
    destruct (@expand_entity_ids _ _ _ _ _ _ _ Hex eq_refl e Hin)
      as [e' [Hin' Hid']].
    apply bind_inv_ok in H. destruct H as [rows [w3 [Hup H]]].
    eapply keeps_run; [| exact H |]; [uses_tac ltac:(exact I) |].
    eapply upsert_many_stores; [exact Hup | exact Hin' | congruence].
  - (* invoices *)
    unfold _upsert_invoices in H.
    apply bind_inv_ok in H. destruct H as [[] [w1 [_ H]]].
    apply bind_inv_ok in H. destruct H as [es [w2 [Hex H]]].
    destruct (@expand_entity_ids _ _ _ _ _ _ _ Hex eq_refl e Hin)
      as [e' [Hin' Hid']].
    eapply upsert_many_stores; [exact H | exact Hin' | congruence].
  - (* charges *)
    unfold _upsert_charges in H.
    apply bind_inv_ok in H. destruct H as [[] [w1 [_ H]]].
    apply bind_inv_ok in H. destruct H as [es [w2 [Hex H]]].
    destruct (@expand_entity_ids _ _ _ _ _ _ _ Hex eq_refl e Hin)
      as [e' [Hin' Hid']].
    eapply upsert_many_stores; [exact H | exact Hin' | congruence].
  - (* payment intents *)
    unfold _upsert_payment_intents in H.
    apply bind_inv_ok in H. destruct H as [[] [w1 [_ H]]].
    eapply upsert_many_stores; [exact H | exact Hin | exact Hid].
  - (* features *)
    eapply upsert_many_stores; [exact H | exact Hin | exact Hid].
Qed.

Lemma missing_entries_not (ids : list string) (rows : list row) (F : string) :
  In F ids -> ~ In F (missing_entries ids rows) -> has_row rows F = true.
Proof.
  intros Hin Hnot. unfold missing_entries in Hnot.
  destruct (existsb (fun r => String.eqb (row_id r) F && negb (soft_deleted r))
              rows) eqn:E.
  - apply existsb_exists in E. destruct E as [r [Hr E]].
    apply andb_true_iff in E. destruct E as [E _].
    apply String.eqb_eq in E. subst F. apply has_row_In. exact Hr.
  - exfalso. apply Hnot. apply filter_In. split; [exact Hin |].
    rewrite E. reflexivity.
Qed.

(** After a backfill method returns, every id it was given has a row. *)
Lemma backfill_stores env d ids w w' F :
  faithful (stripe env) ->
  dep_backfill env d ids w = (inr tt, w') ->
  In F ids -> has_row (db w' (dep_table d)) F = true.
Proof.
  intros Hf H Hin. apply backfill_run in H. cbv zeta in H.
  destruct H as [fetched [w1 [F2 [D [_ Hup]]]]].
  destruct (in_dec string_dec F (missing_entries ids (db w (dep_table d))))
    as [Hm | Hm].
  - destruct (Forall2_In_l _ F2 Hm) as [e [He Hr]].
    eapply dep_call_stores; [exact Hup | exact He |].
    eapply Hf. exact Hr.
  - eapply keeps_run; [| exact Hup |]; [apply dep_call_keeps |].
    rewrite D. eapply missing_entries_not; [exact Hin | exact Hm].
Qed.

(** The state reached from [w] by the calls [ops]. *)
Definition after (w : world) (ops : list op) : world :=
  {| db := replay ops (db w); log := log w ++ ops |}.

Lemma after_nil w : after w [] = w.
Proof. destruct w. unfold after. simpl. rewrite app_nil_r. reflexivity. Qed.

Lemma after_after w a b : after (after w a) b = after w (a ++ b).
Proof.
  unfold after. simpl. rewrite replay_app, app_assoc. reflexivity.
Qed.

Lemma run_after {A : Type} (P : op -> Prop) (m : M A) (w : world) :
  uses P m -> exists new, snd (m w) = after w new /\ Forall P new.
Proof.
  intro U. destruct (U w) as [new [L [F D]]]. exists new.
  split; [| exact F]. destruct (snd (m w)). simpl in *. subst.
  reflexivity.
Qed.

(** The calls of one backfill method up to its upsert: the lookup of the
    ids without a live row and one retrieval for each of them. *)
Definition lookups (d : dependency) (ids missing : list string) : list op :=
  DbFindMissing (dep_table d) ids
  :: map (fun id => ApiRetrieve (dep_resource d) (VStr id)) missing.

Lemma after_lookups w d ids missing (w1 : world) :
  db w1 = db w -> log w1 = log w ++ lookups d ids missing ->
  w1 = after w (lookups d ids missing).
Proof.
  intros D L. destruct w1 as [s l]. simpl in *. subst. unfold after.
  f_equal. unfold lookups. simpl.
  induction missing as [| x missing IH]; [reflexivity | exact IH].
Qed.

Lemma dep_backfill_keeps env d ids : uses keeps_rows (dep_backfill env d ids).
Proof. destruct d; uses_tac ltac:(exact I). Qed.

Lemma backfill_steps_uses (P : op -> Prop) env rels entries :
  (forall s d, In (s, d) rels -> forall ids, uses P (dep_backfill env d ids)) ->
  uses P (backfill_steps env rels entries).
Proof.
  induction rels as [| [s d] rels IH]; intro H; [apply uses_ret |].
  destruct rels as [| p rels].
  - simpl. apply (H s d). left. reflexivity.
  - change (uses P (dep_backfill env d (collect env s entries) ;;
                    backfill_steps env (p :: rels) entries)).
    apply uses_bind; [apply (H s d); left; reflexivity | intro].
    apply IH. intros s' d' Hin. apply (H s' d'). right. exact Hin.
Qed.

(** In a run of the backfill steps that returns, the step of each relation
    has run and returned, and nothing after it removes a row. *)
Lemma backfill_steps_run env rels entries :
  forall w wS,
    backfill_steps env rels entries w = (inr tt, wS) ->
    forall s d, In (s, d) rels ->
    exists a w1 b,
      dep_backfill env d (collect env s entries) (after w a) = (inr tt, w1)
      /\ wS = after w1 b
      /\ Forall keeps_rows b.
Proof.
  induction rels as [| [s0 d0] rels IH]; intros w wS H s d Hin;
    [contradiction |].
  destruct rels as [| p rels].
  - destruct Hin as [E | []]. inversion E. subst s0 d0. simpl in H.
    exists [], wS, []. rewrite !after_nil. auto.
  - change ((dep_backfill env d0 (collect env s0 entries) ;;
             backfill_steps env (p :: rels) entries) w = (inr tt, wS)) in H.
    apply bind_inv_ok in H. destruct H as [[] [wA [Hhead Hrest]]].
    destruct Hin as [E | Hin].
    + inversion E. subst s0 d0. exists [], wA.
      destruct (@run_after _ keeps_rows
                  (backfill_steps env (p :: rels) entries) wA) as [b [Eb Fb]].
      { apply backfill_steps_uses. intros. apply dep_backfill_keeps. }
      rewrite Hrest in Eb. simpl in Eb. exists b. rewrite after_nil. auto.
    + destruct (@run_after _ keeps_rows
                  (dep_backfill env d0 (collect env s0 entries)) w
                  (dep_backfill_keeps env d0 _)) as [n1 [E1 _]].
      rewrite Hhead in E1. simpl in E1. subst wA.
      destruct (IH _ _ Hrest s d Hin) as [a [w1 [b [Hstep [EwS Fb]]]]].
      rewrite after_after in Hstep. exists (n1 ++ a), w1, b. auto.
Qed.

(** The tables a backfill method writes, through the upsert of the
    fetched entities and their own backfills. *)
Definition writes (d : dependency) : list table :=
  match d with
  | DCustomer => [tbl_customers]
  | DProduct => [tbl_products]
  | DFeature => [tbl_features]
  | DSubscription => [tbl_customers; tbl_subscriptions; tbl_subscription_items]
  | DInvoice =>
      [tbl_customers; tbl_subscriptions; tbl_subscription_items; tbl_invoices]
  | DCharge =>
      [tbl_customers; tbl_subscriptions; tbl_subscription_items; tbl_invoices;
       tbl_charges]
  | DPaymentIntent =>
      [tbl_customers; tbl_subscriptions; tbl_subscription_items; tbl_invoices;
       tbl_payment_intents]
  end.

Lemma dep_backfill_off env d ids t :
  ~ In t (writes d) -> uses (off_table t) (dep_backfill env d ids).
Proof.
  intro Hnot.
  destruct d;
    uses_tac ltac:(solve [ exact I
                         | simpl; intro E; apply Hnot; subst t; simpl; tauto ]).
Qed.

Lemma relations_off_own c s d :
  In (s, d) (relations_of c) -> ~ In (table_of c) (writes d).
Proof.
  destruct c; simpl; intro H;
    repeat match goal with
      | H : _ \/ _ |- _ => destruct H as [H | H]
      | H : False |- _ => contradiction
      | H : (_, _) = (_, _) |- _ => inversion H; subst; clear H
      end;
    simpl; intuition discriminate.
Qed.

(** Within the calls [pre] made from [w], the backfill of [ids] for the
    kind [d]: after some calls [a], the ids without a live row at that
    point are looked up, each is retrieved by a call of its own, and the
    fetched entities go through the upsert method of their kind, called
    without override, which returns. *)
Definition fetched_one_by_one (env : environment) (w : world)
  (pre : list op) (d : dependency) (ids : list string) : Prop :=
  exists a fetched nested rest,
    let missing := missing_entries ids (replay a (db w) (dep_table d)) in
    Forall2 (fun id e => retrieve (stripe env) (dep_resource d) (VStr id)
                         = inr e) missing fetched
    /\ pre = a ++ lookups d ids missing ++ nested ++ rest
    /\ run_upsert env (dep_call d fetched) None
         (after w (a ++ lookups d ids missing))
       = (inr tt, after w (a ++ lookups d ids missing ++ nested)).

(** C2 (amended).  When the source API answers each retrieval with the
    object asked for, and related-entity backfill is enabled for the call
    (the per-call override when given, otherwise the configuration toggle):
    for every upsert of a batch that returns, every relation [(s, d)] the
    method backfills ([relations_of]) and every entity of the batch that
    refers to a non-empty id [F] through it, a row for [F] exists in the
    table of [d] after the call, and it already exists after a prefix
    [pre] of the calls that does not write the table of the referencing
    kind; within [pre], the ids without a live row are looked up, each is
    retrieved individually, and the fetched entities are written by the
    upsert method of their kind called without override (so their own
    dependencies are backfilled under the configuration toggle alone). *)
Theorem C2_referential_backfill env c bf ts w w' s d e F :
  faithful (stripe env) ->
  backfill_flag c = Some bf ->
  backfill_enabled env bf = true ->
  In (s, d) (relations_of c) ->
  In e (entries_of c) ->
  refers s e F ->
  run_upsert env c ts w = (inr tt, w') ->
  has_row (db w' (dep_table d)) F = true
  /\ exists pre post,
       w' = after w (pre ++ post)
       /\ Forall (off_table (table_of c)) pre
       /\ has_row (replay pre (db w) (dep_table d)) F = true
       /\ fetched_one_by_one env w pre d (collect env s (entries_of c)).
Proof.
  intros Hf Hflag Hen Hrel Hin Href Hrun.
  destruct (@run_upsert_shape env c bf ts Hflag) as [tail [Hshape Utail]].
  rewrite Hshape, Hen in Hrun. unfold when in Hrun.
  apply bind_inv_ok in Hrun. destruct Hrun as [[] [wS [Hsteps Htail]]].
  pose proof (@collect_refers env s e F (entries_of c) Href Hin) as HF.
  destruct (@backfill_steps_run env _ _ _ _ Hsteps s d Hrel)
    as [a [w1 [b [Hstep [EwS Kb]]]]].
  (* the whole of the backfill steps, off the referencing table *)
  destruct (@run_after _ (off_table (table_of c))
              (backfill_steps env (relations_of c) (entries_of c)) w)
    as [pre [Epre Fpre]].
  { apply backfill_steps_uses. intros s' d' Hin' ids.
    apply dep_backfill_off. eapply relations_off_own. exact Hin'. }
  rewrite Hsteps in Epre. simpl in Epre.
  destruct (@run_after _ keeps_rows tail wS Utail) as [post [Epost Fpost]].
  rewrite Htail in Epost. simpl in Epost.
  (* the row exists when the steps are over *)
  assert (HS : has_row (db wS (dep_table d)) F = true).
  { rewrite EwS. simpl. apply replay_keeps_rows; [exact Kb |].
    eapply backfill_stores; [exact Hf | exact Hstep | exact HF]. }
  split.
  { rewrite Epost. simpl. apply replay_keeps_rows; assumption. }
  exists pre, post. split.
  { rewrite Epost, Epre, after_after. reflexivity. }
  split; [exact Fpre |]. split.
  { rewrite Epre in HS. exact HS. }
  (* the step of the relation *)
  apply backfill_run in Hstep. cbv zeta in Hstep.
  destruct Hstep as [fetched [w0 [F2 [D0 [L0 Hup]]]]].
  fold (lookups d (collect env s (entries_of c))
          (missing_entries (collect env s (entries_of c))
             (db (after w a) (dep_table d)))) in L0.
  apply after_lookups in L0; [| exact D0]. subst w0.
  rewrite after_after in Hup.
  destruct (@run_after _ keeps_rows
              (run_upsert env (dep_call d fetched) None)
              (after w (a ++ lookups d (collect env s (entries_of c))
                           (missing_entries (collect env s (entries_of c))
                              (db (after w a) (dep_table d)))))
              (dep_call_keeps env d fetched None)) as [nested [En _]].
  rewrite Hup in En. simpl snd in En. rewrite after_after in En.
  exists a, fetched, nested, b. cbv zeta. simpl db in *.
  split; [exact F2 |]. split.
  - rewrite En, after_after in EwS. rewrite EwS in Epre.
    apply (f_equal log) in Epre. simpl in Epre.
    apply app_inv_head in Epre. rewrite <- Epre.
    rewrite <- !app_assoc. reflexivity.
  - rewrite Hup, En, <- app_assoc. reflexivity.
Qed.

(** An account with two customers and one invoice, billed to the second
    customer. *)
Definition ledger_api : stripe_api :=
  {| retrieve := fun r id =>
       match r, id with
       | Customer, VStr s =>
           if in_list s ["cus_1"; "cus_2"]
           then inr [("id", VStr s); ("object", VStr "customer")]
           else inl (InvalidRequestError (Some "resource_missing"))
       | Invoice, VStr s =>
           if String.eqb s "in_1"
           then inr [("id", VStr s); ("object", VStr "invoice");
                     ("customer", VStr "cus_2")]
           else inl (InvalidRequestError (Some "resource_missing"))
       | _, _ => inl (InvalidRequestError (Some "resource_missing"))
       end;
     list_objects := fun _ =>
       inr {| data := []; later_pages := []; paging_error := None |};
     object_str := fun _ => "" |}.

Lemma ledger_api_faithful : faithful ledger_api.
Proof.
  intros r id e H. destruct r; simpl in H; try discriminate H;
    match type of H with
    | (if ?b then _ else _) = _ => destruct b
    end;
    try discriminate H; inversion H; reflexivity.
Qed.

(** The configuration whose toggle asks for related entities. *)
Definition backfilling_config : config :=
  {| auto_expand_lists := None;
     backfill_related_entities := Some true;
     revalidate_objects_via_stripe_api := None;
     logger := true |}.

Definition referencing_charge : dict :=
  [("id", VStr "ch_1"); ("object", VStr "charge");
   ("customer", VStr "cus_1"); ("invoice", VStr "in_1")].

Definition referencing_schedule : dict :=
  [("id", VStr "sub_sched_1"); ("object", VStr "subscription_schedule");
   ("customer", VStr "cus_1"); ("subscription", VStr "sub_1")].

(** Two runs that return with backfill enabled.  Under the per-call
    override alone, the invoice of the charge is fetched and stored but the
    customer the invoice is billed to is not.  Under the configuration
    toggle, the subscription that a subscription schedule refers to is not
    stored: the method backfills the customer only. *)
Lemma C2_referential_backfill_counterexample :
  (let env := make_env ledger_api plain_config in
   let run := run_upsert env (UpsertCharges [referencing_charge] (Some true))
                (Some 5%Z) empty_world in
   backfill_enabled env (Some true) = true
   /\ fst run = inr tt
   /\ (exists r, find_row "in_1" (db (snd run) tbl_invoices) = Some r
                 /\ py_get (row_fields r) "customer" = VStr "cus_2")
   /\ has_row (db (snd run) tbl_customers) "cus_2" = false)
  /\ (let env := make_env ledger_api backfilling_config in
      let run := run_upsert env
                   (UpsertSubscriptionSchedules [referencing_schedule] None)
                   (Some 5%Z) empty_world in
      backfill_enabled env None = true
      /\ fst run = inr tt
      /\ lookup_key "subscription" referencing_schedule = Some (VStr "sub_1")
      /\ In "subscription" subscription_schedule_schema
      /\ has_row (db (snd run) tbl_subscriptions) "sub_1" = false).
Proof.
  split.
  - vm_compute. repeat split. eexists. split; reflexivity.
  - cbv zeta. split; [reflexivity |]. split; [vm_compute; reflexivity |].
    split; [reflexivity |]. split; [| vm_compute; reflexivity].
    apply in_list_In. vm_compute. reflexivity.
Qed.

Lemma C2_referential_backfill_witness :
  let env := make_env ledger_api backfilling_config in
  let w' := snd (run_upsert env (UpsertCharges [referencing_charge] None)
                   (Some 5%Z) empty_world) in
  has_row (db w' tbl_invoices) "in_1" = true
  /\ has_row (db w' tbl_customers) "cus_1" = true.
Proof.
  cbv zeta.
  destruct (run_upsert (make_env ledger_api backfilling_config)
              (UpsertCharges [referencing_charge] None) (Some 5%Z)
              empty_world) as [[err | []] w'] eqn:Hrun.
  { exfalso. vm_compute in Hrun. discriminate Hrun. }
  simpl snd.
  assert (Hne1 : "in_1" <> ""%string) by discriminate.
  assert (Hne2 : "cus_1" <> ""%string) by discriminate.
  split.
  - apply (proj1 (@C2_referential_backfill
                    (make_env ledger_api backfilling_config)
                    (UpsertCharges [referencing_charge] None) None (Some 5%Z)
                    empty_world w' (Field "invoice") DInvoice
                    referencing_charge "in_1"
                    ledger_api_faithful eq_refl eq_refl
                    (or_intror (or_introl eq_refl)) (or_introl eq_refl)
                    (conj Hne1 eq_refl) Hrun)).
  - apply (proj1 (@C2_referential_backfill
                    (make_env ledger_api backfilling_config)
                    (UpsertCharges [referencing_charge] None) None (Some 5%Z)
                    empty_world w' (Field "customer") DCustomer
                    referencing_charge "cus_1"
                    ledger_api_faithful eq_refl eq_refl
                    (or_introl eq_refl) (or_introl eq_refl)
                    (conj Hne2 eq_refl) Hrun)).
Defined.

(* ================================================================== *)
(** * Further properties: the helpers *)
(* ================================================================== *)

Lemma dedup_NoDup (l : list string) : NoDup (dedup l).
Proof.
  induction l as [| x l IH]; simpl; [constructor |].
  destruct (in_list x l) eqn:E; [exact IH |].
  constructor; [| exact IH].
  intro H. apply (proj1 (dedup_In x l)) in H.
  apply (proj2 (in_list_In x l)) in H.
  congruence.
Qed.

(** X1. [get_unique_ids] returns each id once, and exactly the renderings
    of the truthy values found under the key: entries that lack the key or
    hold [None], an empty string or zero there contribute nothing. *)
Theorem get_unique_ids_is_a_set :
  forall env entries key,
    NoDup (get_unique_ids env entries key)
    /\ (forall s,
           In s (get_unique_ids env entries key)
           <-> exists e, In e entries
                         /\ truthy (py_get e key) = true
                         /\ py_str env (py_get e key) = s).
Proof.
  intros env entries key. unfold get_unique_ids. cbv zeta.
  split; [apply dedup_NoDup |].
  intro s. rewrite dedup_In, in_flat_map. split.
  - intros [e [Hin H]]. exists e. split; [exact Hin |].
    destruct (truthy (py_get e key)); [| contradiction].
    destruct H as [H | []]. auto.
  - intros [e [Hin [Ht Hs]]]. exists e. split; [exact Hin |].
    rewrite Ht. left. exact Hs.
Qed.

(** X2. [chunk_array] with a positive size cuts the array into
    consecutive non-empty chunks of that size, the last one possibly
    shorter, and gluing the chunks gives the array back; a size of zero is
    an error, also on the empty array. *)
Theorem chunk_array_partitions :
  forall (A : Type) (array : list A),
    chunk_array array 0 = None
    /\ forall n, (0 < n)%nat ->
         exists chunks,
           chunk_array array n = Some chunks
           /\ List.concat chunks = array
           /\ map (@List.length A) chunks
              = repeat n (List.length array / n)
                ++ (if Nat.eqb (List.length array mod n) 0 then []
                    else [(List.length array mod n)%nat])
           /\ Forall (fun c => c <> [] /\ (List.length c <= n)%nat) chunks.
Proof.
  intros A array. split; [reflexivity |]. intros n Hn.
  destruct n as [| m]; [lia |]. simpl chunk_array. eexists.
  split; [reflexivity |].
  split; [apply slices_concat; [lia | apply Nat.le_refl] |].
  split; [apply slices_lengths; [lia | apply Nat.le_refl] |].
  generalize (List.length array) at 1 as fuel. intro fuel. revert array.
  induction fuel as [| fuel IH]; intro array; [constructor |].
  destruct array as [| x array]; [constructor |].
  cbn [slices]. constructor; [| apply IH].
  split; [simpl; discriminate |]. rewrite length_firstn. lia.
Qed.

Lemma chunk_array_partitions_witness :
  chunk_array [1; 2; 3; 4; 5]%nat 2 = Some [[1; 2]; [3; 4]; [5]]%nat
  /\ exists chunks,
       chunk_array [1; 2; 3; 4; 5]%nat 2 = Some chunks
       /\ List.concat chunks = [1; 2; 3; 4; 5]%nat.
Proof.
  split; [reflexivity |].
  destruct (proj2 (chunk_array_partitions [1; 2; 3; 4; 5]%nat) 2%nat
              ltac:(lia)) as [chunks [E [C _]]].
  exists chunks. split; [exact E | exact C].
Defined.

(* ================================================================== *)
(** * Further properties: list expansion and subscription items *)
(* ================================================================== *)

Lemma expand_one_stable env property list_fn e w e' w' :
  expand_one env property list_fn e w = (inr e', w') ->
  forall w2, expand_one env property list_fn e' w2 = (inr e', w2).
Proof.
  unfold expand_one. intros H w2.
  destruct (py_get e property) as [| | | | | prop_value] eqn:Ep;
    try (inversion H; subst; rewrite Ep; reflexivity).
  destruct (truthy (py_get prop_value "has_more")) eqn:Eh;
    [| inversion H; subst; rewrite Ep, Eh; reflexivity].
  apply bind_inv_ok in H. destruct H as [id [w1 [_ H]]].
  apply bind_inv_ok in H. destruct H as [l [w3 [_ H]]].
  apply bind_inv_ok in H. destruct H as [all_data [w4 [_ H]]].
  inversion H. subst. clear H.
  unfold py_get at 1. rewrite lookup_set_key, String.eqb_refl.
  unfold py_get at 1. rewrite lookup_set_key, String.eqb_refl.
  reflexivity.
Qed.

Lemma expand_all_stable env property list_fn entities :
  forall w es w',
    map_m (expand_one env property list_fn) entities w = (inr es, w') ->
    List.length es = List.length entities
    /\ forall w2, map_m (expand_one env property list_fn) es w2 = (inr es, w2).
Proof.
  induction entities as [| x entities IH]; intros w es w' H.
  - inversion H. auto.
  - cbn [map_m] in H. apply bind_inv_ok in H. destruct H as [x' [w1 [Hx H]]].
    apply bind_inv_ok in H. destruct H as [es' [w3 [Hes H]]].
    inversion H. subst. clear H.
    destruct (IH _ _ _ Hes) as [L S]. split; [simpl; rewrite L; reflexivity |].
    intro w2. cbn [map_m].
    rewrite (bind_inr _ _ _ (expand_one_stable _ _ _ _ _ Hx w2)).
    rewrite (bind_inr _ _ _ (S w2)). reflexivity.
Qed.

(** X3. [_expand_entity] is idempotent: expanding what an expansion
    returned makes no call and changes nothing, and an expansion returns as
    many entities as it was given.  Unless [auto_expand_lists] is set, it
    makes no call at all and returns the entities as they are. *)
Theorem expand_entity_idempotent :
  forall env entities property list_fn w es w1,
    _expand_entity env entities property list_fn w = (inr es, w1) ->
    List.length es = List.length entities
    /\ (forall w2, _expand_entity env es property list_fn w2 = (inr es, w2))
    /\ (auto_expand_lists (cfg env) <> Some true -> es = entities /\ w1 = w).
Proof.
  intros env entities property list_fn w es w1. unfold _expand_entity.
  destruct (auto_expand_lists (cfg env)) as [[|] |]; intro H.
  - destruct (expand_all_stable _ _ _ _ _ H) as [L S].
    split; [exact L |]. split; [exact S | congruence].
  - inversion H. subst. auto.
  - inversion H. subst. auto.
Qed.

(** A configuration that expands lists. *)
Definition expanding_config : config :=
  {| auto_expand_lists := Some true;
     backfill_related_entities := None;
     revalidate_objects_via_stripe_api := None;
     logger := false |}.

Definition truncated_subscription : dict :=
  [("id", VStr "sub_1"); ("object", VStr "subscription");
   ("items", VDict [("object", VStr "list");
                    ("data", VList [carried_item "si_A"]);
                    ("has_more", VBool true)])].

Lemma expand_entity_idempotent_witness :
  let env := make_env empty_api expanding_config in
  let list_fn := fun id => ListSubscriptionItems id in
  exists es w1,
    _expand_entity env [truncated_subscription] "items" list_fn empty_world
    = (inr es, w1)
    /\ log w1 = [ApiList (ListSubscriptionItems (VStr "sub_1"))]
    /\ _expand_entity env es "items" list_fn w1 = (inr es, w1).
Proof.
  cbv zeta.
  destruct (_expand_entity (make_env empty_api expanding_config)
              [truncated_subscription] "items"
              (fun id => ListSubscriptionItems id) empty_world)
    as [[err | es] w1] eqn:Hrun.
  { exfalso. vm_compute in Hrun. discriminate Hrun. }
  exists es, w1. split; [reflexivity |]. split.
  - vm_compute in Hrun. inversion Hrun. reflexivity.
  - apply (proj1 (proj2 (expand_entity_idempotent _ _ _ _ _ Hrun))).
Defined.

(** X4. What [_upsert_subscription_items] writes for an item does not
    depend on whether its price came expanded: an item whose [price] is a
    price object with id [p] and the same item with the string [p] give
    the same record.  An item without a price gets the text [None] as its
    price, an item whose price object has no id raises [KeyError], and an
    item that says nothing about [deleted] is written with
    [deleted = False]. *)
Theorem subscription_item_price_is_normalised :
  forall env d w,
    (forall price p,
        lookup_key "id" price = Some (VStr p) ->
        modified_subscription_item env (VDict (set_key "price" (VDict price) d)) w
        = (inr (set_key "quantity" (py_get d "quantity")
                  (set_key "deleted" (py_get_default d "deleted" (VBool false))
                     (set_key "price" (VStr p) d))), w)
        /\ modified_subscription_item env
             (VDict (set_key "price" (VStr p) d)) w
           = modified_subscription_item env
               (VDict (set_key "price" (VDict price) d)) w)
    /\ (lookup_key "price" d = None ->
        exists m, modified_subscription_item env (VDict d) w = (inr m, w)
                  /\ lookup_key "price" m = Some (VStr "None"))
    /\ (forall price,
          lookup_key "price" d = Some (VDict price) ->
          lookup_key "id" price = None ->
          modified_subscription_item env (VDict d) w = (inl (KeyError "id"), w))
    /\ (lookup_key "deleted" d = None ->
        forall m, modified_subscription_item env (VDict d) w = (inr m, w) ->
                  lookup_key "deleted" m = Some (VBool false)).
Proof.
  intros env d w.
  assert (Hset : forall k v k' (e : dict),
             String.eqb k k' = false ->
             lookup_key k (set_key k' v e) = lookup_key k e).
  { intros k v k' e E. rewrite lookup_set_key, E. reflexivity. }
  assert (Hsame : forall k v (e : dict),
             lookup_key k (set_key k v e) = Some v).
  { intros k v e. rewrite lookup_set_key, String.eqb_refl. reflexivity. }
  assert (Hover : forall k v v' (e : dict),
             set_key k v (set_key k v' e) = set_key k v e).
  { intros k v v' e. induction e as [| [k0 v0] e IH]; simpl.
    - rewrite String.eqb_refl. reflexivity.
    - destruct (String.eqb k k0) eqn:E; simpl.
      + rewrite String.eqb_refl. reflexivity.
      + rewrite E, IH. reflexivity. }
  split; [| split; [| split]].
  - intros price p Hp.
    assert (E1 : modified_subscription_item env
                   (VDict (set_key "price" (VDict price) d)) w
                 = (inr (set_key "quantity" (py_get d "quantity")
                           (set_key "deleted"
                              (py_get_default d "deleted" (VBool false))
                              (set_key "price" (VStr p) d))), w)).
    { unfold modified_subscription_item, py_get, py_get_default, py_item.
      rewrite Hsame, Hp. rewrite !Hset by reflexivity.
      change (bind (ret ?a) ?k w) with (k a w). cbv beta.
      rewrite Hover. reflexivity. }
    split; [exact E1 |]. rewrite E1.
    unfold modified_subscription_item, py_get, py_get_default.
    rewrite Hsame. rewrite !Hset by reflexivity.
    change (bind (ret ?a) ?k w) with (k a w). cbv beta.
    rewrite Hover. reflexivity.
  - intro Hp. unfold modified_subscription_item, py_get. rewrite Hp.
    change (bind (ret ?a) ?k w) with (k a w). cbv beta.
    eexists. split; [reflexivity |].
    rewrite !Hset by reflexivity. apply Hsame.
  - intros price Hp Hid. unfold modified_subscription_item, py_get, py_item.
    rewrite Hp, Hid. reflexivity.
  - intros Hd m H. unfold modified_subscription_item in H.
    apply bind_inv_ok in H. destruct H as [pid [w1 [_ H]]].
    inversion H. subst. rewrite Hset by reflexivity. rewrite Hsame.
    unfold py_get_default. rewrite Hd. reflexivity.
Qed.

Lemma subscription_item_price_is_normalised_witness :
  let env := make_env empty_api plain_config in
  let item := [("id", VStr "si_1"); ("subscription", VStr "sub_1")] in
  modified_subscription_item env
    (VDict (set_key "price" (VStr "price_1") item)) empty_world
  = modified_subscription_item env
      (VDict (set_key "price"
                (VDict [("id", VStr "price_1"); ("object", VStr "price")])
                item)) empty_world.
Proof.
  cbv zeta.
  apply (proj2 (proj1 (subscription_item_price_is_normalised
                         (make_env empty_api plain_config)
                         [("id", VStr "si_1"); ("subscription", VStr "sub_1")]
                         empty_world)
                  [("id", VStr "price_1"); ("object", VStr "price")]
                  "price_1" eq_refl)).
Defined.

Lemma live_item_set_deleted subscription r :
  live_item_of subscription (set_deleted r) = false.
Proof.
  unfold live_item_of, set_deleted, py_get. simpl row_fields.
  rewrite (lookup_set_key "deleted" "deleted"). simpl.
  apply andb_false_r.
Qed.

Lemma dropped_items_after_marking subscription current rows :
  dropped_items subscription current
    (mark_deleted (dropped_items subscription current rows) rows) = [].
Proof.
  unfold dropped_items at 1. unfold select_live_items.
  set (D := dropped_items subscription current rows).
  assert (HD : forall r, In r rows -> live_item_of subscription r = true ->
                         in_list (row_id r) D = false ->
                         existsb (fun v => py_eq_str v (row_id r)) current
                         = true).
  { intros r Hin Hl Hn.
    destruct (existsb (fun v => py_eq_str v (row_id r)) current) eqn:E;
      [reflexivity |].
    exfalso. assert (Hd : In (row_id r) D).
    { unfold D, dropped_items, select_live_items. apply filter_In.
      split; [| rewrite E; reflexivity].
      apply in_map. apply filter_In. auto. }
    apply in_list_In in Hd. congruence. }
  clearbody D. unfold mark_deleted.
  induction rows as [| r rows IH]; [reflexivity |].
  simpl. destruct (in_list (row_id r) D) eqn:Ein.
  - rewrite live_item_set_deleted. apply IH.
    intros r' Hin. apply HD. right. exact Hin.
  - destruct (live_item_of subscription r) eqn:El.
    + simpl. rewrite (HD r (or_introl eq_refl) El Ein). simpl.
      apply IH. intros r' Hin. apply HD. right. exact Hin.
    + apply IH. intros r' Hin. apply HD. right. exact Hin.
Qed.

(** X5. Reconciling the items of a subscription is idempotent: right after
    [_mark_deleted_subscription_items] has run, a second run with the same
    current ids finds nothing to flag, issues the SELECT only (no UPDATE)
    and reports a row count of zero. *)
Theorem mark_deleted_subscription_items_idempotent :
  forall subscription current w,
    let w1 := snd (_mark_deleted_subscription_items subscription current w) in
    _mark_deleted_subscription_items subscription current w1
    = (inr 0%nat, logged w1 (DbSelectLiveItems subscription)).
Proof.
  intros subscription current w w1.
  assert (E : db w1 tbl_subscription_items
              = mark_deleted
                  (dropped_items subscription current
                     (db w tbl_subscription_items))
                  (db w tbl_subscription_items)
              \/ (db w1 tbl_subscription_items = db w tbl_subscription_items
                  /\ dropped_items subscription current
                       (db w tbl_subscription_items) = [])).
  { subst w1. unfold _mark_deleted_subscription_items,
      query_select_live_items, bind, issue, read_table, ret.
    simpl. fold (dropped_items subscription current
                   (db w tbl_subscription_items)).
    destruct (dropped_items subscription current (db w tbl_subscription_items))
      as [| x l] eqn:Ed.
    - right. simpl. auto.
    - left. cbn [List.length Nat.ltb Nat.leb].
      unfold query_mark_items_deleted, bind, issue, read_table, write_table.
      simpl. rewrite set_table_same. reflexivity. }
  assert (K : dropped_items subscription current (db w1 tbl_subscription_items)
              = []).
  { destruct E as [E | [E Ed]]; rewrite E;
      [apply dropped_items_after_marking | exact Ed]. }
  clearbody w1.
  unfold _mark_deleted_subscription_items, query_select_live_items, bind,
    issue, read_table, ret. simpl.
  fold (dropped_items subscription current (db w1 tbl_subscription_items)).
  rewrite K. reflexivity.
Qed.

(* ================================================================== *)
(** * Further properties: the backfill methods *)
(* ================================================================== *)

Lemma fetch_missing_fails env r pre id post err :
  (forall x, In x pre -> exists e, retrieve (stripe env) r (VStr x) = inr e) ->
  retrieve (stripe env) r (VStr id) = inl err ->
  forall w,
    _fetch_missing_entities (pre ++ id :: post) (stripe_retrieve env r) w
    = (inl err,
       {| db := db w;
          log := log w ++ map (fun x => ApiRetrieve r (VStr x)) (pre ++ [id]) |}).
Proof.
  unfold _fetch_missing_entities. intros Hpre Hid.
  induction pre as [| x pre IH]; intro w; cbn [map_m app].
  - rewrite (bind_inl _ _ _ (stripe_retrieve_inl env _ _ w Hid)). reflexivity.
  - destruct (Hpre x (or_introl eq_refl)) as [e He].
    rewrite (bind_inr _ _ _ (stripe_retrieve_inr env _ _ w He)).
    rewrite (bind_inl _ _ _ (IH (fun y Hy => Hpre y (or_intror Hy)) _)).
    unfold logged. simpl. rewrite <- app_assoc. reflexivity.
Qed.

(** X6. A backfill method fetches before it writes: when the retrieval of
    one of the ids without a live row fails, the error reaches the caller,
    the ids after it are not asked for, and the store is as it was: the
    entities fetched before the failure are not written. *)
Theorem backfill_fetches_before_writing :
  forall env d ids w pre id post err,
    missing_entries ids (db w (dep_table d)) = pre ++ id :: post ->
    (forall x, In x pre ->
               exists e, retrieve (stripe env) (dep_resource d) (VStr x) = inr e) ->
    retrieve (stripe env) (dep_resource d) (VStr id) = inl err ->
    dep_backfill env d ids w
    = (inl err,
       {| db := db w; log := log w ++ lookups d ids (pre ++ [id]) |}).
Proof.
  intros env d ids w pre id post err Hm Hpre Hid.
  pose proof (fetch_missing_fails env (dep_resource d) pre id post Hpre Hid
                (logged w (DbFindMissing (dep_table d) ids))) as F.
  rewrite <- Hm in F at 1.
  destruct d; simpl in F |- *;
    match goal with
    | |- ?f _ _ _ = _ => unfold f
    end;
    rewrite (bind_inr _ _ _
               (eq_refl : find_missing_entries _ ids w = (inr _, _)));
    rewrite (bind_inl _ _ _ F); unfold lookups; simpl;
    rewrite <- app_assoc; reflexivity.
Qed.

Lemma backfill_fetches_before_writing_witness :
  _backfill_customers (make_env ledger_api plain_config) ["cus_1"; "cus_9"]
    empty_world
  = (inl (InvalidRequestError (Some "resource_missing")),
     {| db := db empty_world;
        log := [DbFindMissing tbl_customers ["cus_1"; "cus_9"];
                ApiRetrieve Customer (VStr "cus_1");
                ApiRetrieve Customer (VStr "cus_9")] |}).
Proof.
  apply (@backfill_fetches_before_writing
           (make_env ledger_api plain_config) DCustomer ["cus_1"; "cus_9"]
           empty_world ["cus_1"] "cus_9" []
           (InvalidRequestError (Some "resource_missing"))).
  - reflexivity.
  - intros x [E | []]. subst x. eexists. reflexivity.
  - reflexivity.
Defined.

(** [w'] differs from [w] by calls that retrieve nothing and leave every
    table as it was. *)
Definition quiet_after (w w' : world) : Prop :=
  (forall t, db w' t = db w t)
  /\ exists new,
       log w' = log w ++ new
       /\ Forall (fun o => match o with
                           | ApiRetrieve _ _ | ApiList _ | DbDelete _ _ => False
                           | _ => True
                           end) new.

(** [m] returns [a], whatever the state, and leaves it [quiet_after]. *)
Definition quietly {A : Type} (m : M A) (a : A) : Prop :=
  forall w, exists w', m w = (inr a, w') /\ quiet_after w w'.

Lemma quiet_after_refl w : quiet_after w w.
Proof.
  split; [reflexivity |]. exists []. rewrite app_nil_r. auto.
Qed.

Lemma quiet_after_trans w1 w2 w3 :
  quiet_after w1 w2 -> quiet_after w2 w3 -> quiet_after w1 w3.
Proof.
  intros [D1 [n1 [L1 F1]]] [D2 [n2 [L2 F2]]]. split.
  - intro t. rewrite D2, D1. reflexivity.
  - exists (n1 ++ n2). rewrite L2, L1, app_assoc. split; [reflexivity |].
    apply Forall_app. auto.
Qed.

Lemma quietly_ret {A : Type} (a : A) : quietly (ret a) a.
Proof. intro w. exists w. split; [reflexivity | apply quiet_after_refl]. Qed.

Lemma quietly_bind {A B : Type} (m : M A) (k : A -> M B) a b :
  quietly m a -> quietly (k a) b -> quietly (bind m k) b.
Proof.
  intros Hm Hk w. destruct (Hm w) as [w1 [E1 Q1]].
  destruct (Hk w1) as [w2 [E2 Q2]]. exists w2.
  rewrite (bind_inr _ _ _ E1). split; [exact E2 |].
  eapply quiet_after_trans; eassumption.
Qed.

Lemma quietly_ignore {A : Type} (m : M A) a : quietly m a -> quietly (ignore m) tt.
Proof. intro H. eapply quietly_bind; [exact H | apply quietly_ret]. Qed.

Lemma quietly_when b (m : M unit) : quietly m tt -> quietly (when b m) tt.
Proof. intro H. destruct b; [exact H | apply quietly_ret]. Qed.

Lemma quietly_upsert_nothing t schema ts :
  quietly (upsert_many_with_timestamp_protection [] t schema ts) [].
Proof.
  intro w. eexists. split; [reflexivity |]. split.
  - intro t'. simpl. unfold set_table.
    destruct (table_eq_dec t t'); [subst; reflexivity | reflexivity].
  - eexists. split; [reflexivity |]. repeat constructor.
Qed.

Lemma quietly_find_nothing t : quietly (find_missing_entries t []) [].
Proof.
  intro w. eexists. split; [reflexivity |]. split; [reflexivity |].
  eexists. split; [reflexivity |]. repeat constructor.
Qed.

Lemma quietly_expand_nothing env property list_fn :
  quietly (_expand_entity env [] property list_fn) [].
Proof.
  unfold _expand_entity.
  destruct (auto_expand_lists (cfg env)) as [[|] |]; apply quietly_ret.
Qed.

Ltac quiet_tac :=
  repeat first
    [ apply quietly_ret
    | apply quietly_upsert_nothing
    | apply quietly_find_nothing
    | apply quietly_expand_nothing
    | apply quietly_ignore
    | apply quietly_when
    | eapply quietly_bind
    | eassumption ].

Lemma quietly_backfill env d :
  (exists a, quietly (run_upsert env (dep_call d []) None) a) ->
  quietly (dep_backfill env d []) tt.
Proof.
  intros [[] H].
  destruct d; simpl dep_backfill;
    match goal with
    | |- quietly (?f _ _) _ => unfold f
    end;
    (eapply quietly_bind; [apply quietly_find_nothing |]);
    (eapply quietly_bind; [apply quietly_ret |]); exact H.
Qed.

Lemma quietly_customers env : quietly (dep_backfill env DCustomer []) tt.
Proof.
  apply quietly_backfill. exists tt. simpl. unfold _upsert_customers.
  simpl filter. quiet_tac.
Qed.

Lemma quietly_upsert_subscriptions env :
  quietly (run_upsert env (dep_call DSubscription []) None) tt.
Proof.
  pose proof (quietly_customers env) as C. simpl in C.
  simpl. unfold _upsert_subscriptions, _upsert_subscription_items.
  apply quietly_ignore with (a := []).
  eapply quietly_bind; [apply quietly_when; exact C |].
  eapply quietly_bind; [apply quietly_expand_nothing |].
  eapply quietly_bind; [apply quietly_upsert_nothing |].
  cbn [map_m for_each List.concat]. quiet_tac.
Qed.

Lemma quietly_subscriptions env : quietly (dep_backfill env DSubscription []) tt.
Proof. apply quietly_backfill. exists tt. apply quietly_upsert_subscriptions. Qed.

Lemma quietly_upsert_invoices env :
  quietly (run_upsert env (dep_call DInvoice []) None) tt.
Proof.
  pose proof (quietly_customers env) as C. simpl in C.
  pose proof (quietly_subscriptions env) as S. simpl in S.
  simpl. unfold _upsert_invoices. quiet_tac.
Qed.

Lemma quietly_invoices env : quietly (dep_backfill env DInvoice []) tt.
Proof. apply quietly_backfill. exists tt. apply quietly_upsert_invoices. Qed.

Lemma quietly_dep_call env d :
  quietly (run_upsert env (dep_call d []) None) tt.
Proof.
  pose proof (quietly_customers env) as C. simpl in C.
  pose proof (quietly_invoices env) as I. simpl in I.
  destruct d.
  - simpl. unfold _upsert_customers. simpl filter. quiet_tac.
  - simpl. unfold _upsert_products. quiet_tac.
  - apply quietly_upsert_subscriptions.
  - apply quietly_upsert_invoices.
  - simpl. unfold _upsert_charges. quiet_tac.
  - simpl. unfold _upsert_payment_intents. quiet_tac.
  - simpl. unfold _upsert_features. quiet_tac.
Qed.

(** X7. When every id a backfill method is given has a live row, it
    returns having retrieved and listed nothing, and every table is as it
    was. *)
Theorem backfill_of_stored_ids_is_quiet :
  forall env d ids w,
    missing_entries ids (db w (dep_table d)) = [] ->
    exists w', dep_backfill env d ids w = (inr tt, w') /\ quiet_after w w'.
Proof.
  intros env d ids w Hm.
  destruct (quietly_dep_call env d (logged w (DbFindMissing (dep_table d) ids)))
    as [w' [E Q]].
  exists w'. split.
  - destruct d; simpl dep_backfill;
      match goal with
      | |- ?f _ _ _ = _ => unfold f
      end;
      rewrite (bind_inr _ _ _
                 (eq_refl : find_missing_entries _ ids w = (inr _, _)));
      simpl dep_table in Hm; cbn [db]; rewrite Hm;
      unfold _fetch_missing_entities; cbn [map_m];
      change (bind (ret ?a) ?k ?w0) with (k a w0); exact E.
  - eapply quiet_after_trans; [| exact Q]. split; [reflexivity |].
    eexists. split; [reflexivity |]. repeat constructor.
Qed.

Definition world_with_customer : world :=
  {| db := set_table (fun _ => []) tbl_customers
             [{| row_id := "cus_1";
                 row_fields := project customer_schema
                                 [("id", VStr "cus_1");
                                  ("object", VStr "customer")];
                 last_synced_at := Some 3%Z |}];
     log := [] |}.

Lemma backfill_of_stored_ids_is_quiet_witness :
  exists w',
    _backfill_customers (make_env unavailable_api plain_config) ["cus_1"]
      world_with_customer = (inr tt, w')
    /\ quiet_after world_with_customer w'.
Proof.
  apply (@backfill_of_stored_ids_is_quiet
           (make_env unavailable_api plain_config) DCustomer ["cus_1"]
           world_with_customer).
  reflexivity.
Defined.

(* ================================================================== *)
(** * Further properties: what an upsert leaves stored *)
(* ================================================================== *)

Lemma dicts_of_In (items : list value) (e : dict) :
  In e (dicts_of items) -> In (VDict e) items.
Proof.
  unfold dicts_of. intro H. apply in_flat_map in H.
  destruct H as [v [Hv H]]. destruct v; try contradiction.
  destruct H as [E | []]. subst. exact Hv.
Qed.

(** A batch method that returns has stored a row for each entity of its
    batch. *)
Lemma run_upsert_stores env c ts w w' e F :
  run_upsert env c ts w = (inr tt, w') ->
  In e (entries_of c) -> lookup_key "id" e = Some (VStr F) ->
  has_row (db w' (table_of c)) F = true.
Proof.
  intros H Hin Hid.
  assert (Simple : forall (b : bool) (B : M unit) l t schema,
             In e l ->
             ignore (when b B ;;
                     upsert_many_with_timestamp_protection l t schema ts) w
             = (inr tt, w') ->
             has_row (db w' t) F = true).
  { intros b B l t schema Hl K. unfold ignore in K.
    apply bind_inv_ok in K. destruct K as [rows [w1 [K Kr]]].
    inversion Kr. subst w1. clear Kr.
    apply bind_inv_ok in K. destruct K as [[] [w1 [_ K]]].
    eapply upsert_many_stores; [exact K | exact Hl | exact Hid]. }
  assert (Expanded : forall (b : bool) (B : M unit) l property list_fn t schema,
             In e l -> String.eqb "id" property = false ->
             ignore (when b B ;;
                     l' <- _expand_entity env l property list_fn ;;
                     upsert_many_with_timestamp_protection l' t schema ts) w
             = (inr tt, w') ->
             has_row (db w' t) F = true).
  { intros b B l property list_fn t schema Hl Hp K. unfold ignore in K.
    apply bind_inv_ok in K. destruct K as [rows [w1 [K Kr]]].
    inversion Kr. subst w1. clear Kr.
    apply bind_inv_ok in K. destruct K as [[] [w1 [_ K]]].
    apply bind_inv_ok in K. destruct K as [l' [w2 [Hex K]]].
    destruct (@expand_entity_ids _ _ _ _ _ _ _ Hex Hp e Hl)
      as [e' [Hin' Hid']].
    eapply upsert_many_stores; [exact K | exact Hin' | congruence]. }
  destruct c; simpl entries_of in Hin; simpl table_of; simpl run_upsert in H.
  - eapply Expanded; [exact Hin | | exact H]. reflexivity.
  - eapply Expanded; [exact Hin | | exact H]. reflexivity.
  - (* checkout sessions *)
    unfold _upsert_checkout_sessions, ignore in H.
    apply bind_inv_ok in H. destruct H as [rows [w1 [H Hr]]].
    inversion Hr. subst w1. clear Hr.
    apply bind_inv_ok in H. destruct H as [[] [w1 [_ H]]].
    apply bind_inv_ok in H. destruct H as [rows' [w2 [Hup H]]].
    eapply keeps_run; [| exact H |]; [uses_tac ltac:(exact I) |].
    eapply upsert_many_stores; [exact Hup | exact Hin | exact Hid].
  - (* checkout-session line items *)
    unfold _upsert_checkout_session_line_items in H. cbv zeta in H.
    apply bind_inv_ok in H. destruct H as [[] [w1 [_ H]]].
    unfold ignore in H.
    apply bind_inv_ok in H. destruct H as [rows [w2 [H Hr]]].
    inversion Hr. subst w2. clear Hr.
    eapply upsert_many_stores; [exact H | apply in_map; exact Hin |].
    rewrite !lookup_set_key. simpl. exact Hid.
  - eapply Simple; [exact Hin | exact H].
  - eapply Simple; [exact Hin | exact H].
  - eapply Simple; [exact Hin | exact H].
  - apply (@dep_call_stores env DCustomer entries ts w w' e F H Hin Hid).
  - eapply Simple; [exact Hin | exact H].
  - eapply Expanded; [exact Hin | | exact H]. reflexivity.
  - eapply Simple; [exact Hin | exact H].
  - eapply Simple; [exact Hin | exact H].
  - eapply Simple; [exact Hin | exact H].
  - apply (@dep_call_stores env DProduct entries ts w w' e F H Hin Hid).
  - eapply Simple; [exact Hin | exact H].
  - eapply Simple; [exact Hin | exact H].
  - eapply Simple; [exact Hin | exact H].
  - eapply Simple; [exact Hin | exact H].
  - (* subscription items *)
    apply upsert_subscription_items_run in H.
    destruct H as [news [F2 Hdb]]. rewrite Hdb, set_table_same.
    apply upsert_rows_stores. apply dicts_of_In in Hin.
    destruct (Forall2_In_l _ F2 Hin) as [n [Hn [d [Ed [Hd _]]]]].
    exists n. split; [exact Hn |]. inversion Ed. subst d.
    rewrite Hid in Hd. inversion Hd. reflexivity.
  - eapply Simple; [exact Hin | exact H].
  - (* subscriptions *)
    unfold _upsert_subscriptions, ignore in H.
    apply bind_inv_ok in H. destruct H as [rows [w1 [H Hr]]].
    inversion Hr. subst w1. clear Hr.
    apply bind_inv_ok in H. destruct H as [[] [w1 [_ H]]].
    apply bind_inv_ok in H. destruct H as [es [w2 [Hex H]]].
    destruct (@expand_entity_ids _ _ _ _ _ _ _ Hex eq_refl e Hin)
      as [e' [Hin' Hid']].
    apply bind_inv_ok in H. destruct H as [rows' [w3 [Hup H]]].
    eapply keeps_run; [| exact H |]; [uses_tac ltac:(exact I) |].
    eapply upsert_many_stores; [exact Hup | exact Hin' | congruence].
  - apply (@dep_call_stores env DFeature entries ts w w' e F H Hin Hid).
  - (* active entitlements *)
    unfold _upsert_active_entitlements, ignore in H.
    apply bind_inv_ok in H. destruct H as [rows [w1 [H Hr]]].
    inversion Hr. subst w1. clear Hr.
    apply bind_inv_ok in H. destruct H as [[] [w1 [_ H]]].
    apply bind_inv_ok in H. destruct H as [ms [w2 [Hms H]]].
    apply entitlement_records_run in Hms. destruct Hms as [_ Hms].
    destruct (Forall2_In_l _ Hms Hin) as [m [Hm [Hmid _]]].
    eapply upsert_many_stores; [exact H | exact Hm | congruence].
Qed.

(** X8. Whatever the kind, an upsert method that returns has stored a row
    for every entity of its batch, under the entity's id, in the table of
    the kind; this holds for the kinds that rewrite the entities before the
    write (customers, subscription items, checkout-session line items,
    active entitlements) and for those that expand their lists. *)
Theorem upsert_stores_its_batch :
  forall env c ts w w' e F,
    run_upsert env c ts w = (inr tt, w') ->
    In e (entries_of c) ->
    lookup_key "id" e = Some (VStr F) ->
    has_row (db w' (table_of c)) F = true.
Proof. intros. eapply run_upsert_stores; eassumption. Qed.

Lemma upsert_stores_its_batch_witness :
  let env := make_env empty_api plain_config in
  let tombstone := [("id", VStr "cus_7"); ("object", VStr "customer");
                    ("deleted", VBool true)] in
  has_row (db (snd (run_upsert env (UpsertCustomers [tombstone]) (Some 5%Z)
                      empty_world)) tbl_customers) "cus_7" = true.
Proof.
  cbv zeta.
  destruct (run_upsert (make_env empty_api plain_config)
              (UpsertCustomers [[("id", VStr "cus_7");
                                 ("object", VStr "customer");
                                 ("deleted", VBool true)]]) (Some 5%Z)
              empty_world) as [[err | []] w'] eqn:Hrun.
  { exfalso. vm_compute in Hrun. discriminate Hrun. }
  simpl snd.
  apply (@upsert_stores_its_batch _ _ _ _ _
           [("id", VStr "cus_7"); ("object", VStr "customer");
            ("deleted", VBool true)] "cus_7" Hrun (or_introl eq_refl) eq_refl).
Defined.

(* ================================================================== *)
(** * Further properties: the event router *)
(* ================================================================== *)

(** The event types on which [process_event] can remove a row: the four
    deletion events, the catalog events whose refetch may answer
    [resource_missing], and the entitlement summary. *)
Definition removing_events : list string :=
  ["customer.tax_id.deleted"; "product.deleted"; "price.deleted";
   "plan.deleted"; "entitlements.active_entitlement_summary.updated"]
  ++ product_events ++ price_events ++ plan_events.

Lemma handler_of_keeps event_type r final upsert del :
  handler_of event_type = HEntity r final upsert del ->
  forall env e ts, uses keeps_rows (upsert env e ts).
Proof.
  unfold handler_of.
  repeat match goal with
    | |- context [if ?b then _ else _] => destruct b
    end;
    intros H env e ts; try discriminate H;
    inversion H; subst; uses_tac ltac:(exact I).
Qed.

Lemma entity_branch_keeps env ev r final upsert :
  (forall e ts, uses keeps_rows (upsert e ts)) ->
  uses keeps_rows (entity_branch env ev r final upsert).
Proof.
  intro H. unfold entity_branch.
  apply uses_bind; [uses_tac ltac:(exact I) | intros [entity refetched]].
  apply uses_bind; [uses_tac ltac:(exact I) | intro].
  apply uses_call_get_sync_timestamp. apply H.
Qed.

Lemma handler_of_removing event_type :
  ~ In event_type removing_events ->
  match handler_of event_type with
  | HEntity _ _ _ None | HCustomerDeleted | HUnhandled => True
  | _ => False
  end.
Proof.
  intro Hnot. unfold handler_of.
  repeat match goal with
    | |- context [if in_list event_type ?l then _ else _] =>
        let E := fresh "E" in
        destruct (in_list event_type l) eqn:E;
        [ try exact I; apply in_list_In in E; apply Hnot;
          unfold removing_events;
          repeat (apply in_or_app; first [left; exact E | right]);
          try exact E
        | clear E ]
    | |- context [if String.eqb event_type ?s then _ else _] =>
        let E := fresh "E" in
        destruct (String.eqb event_type s) eqn:E;
        [ try exact I; apply String.eqb_eq in E; apply Hnot;
          unfold removing_events; subst event_type; simpl; tauto
        | clear E ]
    end.
  exact I.
Qed.

(** X9. [process_event] removes rows only on the deletion events, on the
    product, price and plan events (when the refetch says the object is
    gone) and on the entitlement summary.  On every other event type,
    [customer.deleted], [invoice.deleted] and
    [customer.subscription.deleted] included, every row stored before is
    still stored afterwards, whatever the outcome of the run. *)
Theorem process_event_rarely_removes_rows :
  forall env ev w t id,
    ~ In (ev_type ev) removing_events ->
    has_row (db w t) id = true ->
    has_row (db (snd (process_event env ev w)) t) id = true.
Proof.
  intros env ev w t id Hnot Hrow.
  assert (U : uses keeps_rows (process_event env ev)).
  { apply uses_ext with (m' := run_handler env ev (handler_of (ev_type ev))).
    - intro w0. rewrite process_event_route. reflexivity.
    - pose proof (handler_of_removing Hnot) as Hh.
      destruct (handler_of (ev_type ev)) as [r final upsert del | | t0 | |] eqn:E;
        try contradiction.
      + destruct del; [contradiction |]. simpl.
        apply entity_branch_keeps. intros e ts.
        eapply handler_of_keeps. exact E.
      + simpl. uses_tac ltac:(exact I).
      + simpl. uses_tac ltac:(exact I). }
  destruct (U w) as [new [_ [F D]]]. rewrite D.
  apply replay_keeps_rows; assumption.
Qed.

Definition customer_deleted_event : event :=
  {| ev_id := "evt_6"; ev_type := "customer.deleted"; ev_created := 9%Z;
     ev_object := [("id", VStr "cus_1"); ("object", VStr "customer");
                   ("deleted", VBool true)] |}.

Lemma process_event_rarely_removes_rows_witness :
  has_row (db (snd (process_event (make_env empty_api plain_config)
                      customer_deleted_event world_with_customer))
             tbl_customers) "cus_1" = true.
Proof.
  apply (@process_event_rarely_removes_rows
           (make_env empty_api plain_config) customer_deleted_event
           world_with_customer tbl_customers "cus_1").
  - intro H. apply in_list_In in H. vm_compute in H. discriminate H.
  - reflexivity.
Defined.

(** The calls of a backfill: a lookup of missing ids or a retrieval.  In a
    run of [process_event] they can only concern the prices of the line
    items of a checkout session, and the products of these prices. *)
Definition no_backfill (event_type : string) (o : op) : Prop :=
  match o with
  | DbFindMissing t _ =>
      In event_type checkout_session_events
      /\ (t = tbl_prices \/ t = tbl_products)
  | ApiRetrieve r _ =>
      In event_type checkout_session_events /\ (r = Price \/ r = Product)
  | _ => True
  end.

(** The calls of a run after its refetch, if it starts with one. *)
Definition after_refetch (new : list op) : list op :=
  match new with
  | ApiRetrieve _ _ :: rest => rest
  | _ => new
  end.

Lemma after_refetch_Forall (P : op -> Prop) new :
  Forall P new -> Forall P (after_refetch new).
Proof.
  intro F. destruct F as [| o l Ho F]; [constructor |].
  destruct o; simpl; try (constructor; assumption). exact F.
Qed.

Lemma after_refetch_app (P : op -> Prop) new new2 :
  Forall P (after_refetch new) -> Forall P new2 ->
  Forall P (after_refetch (new ++ new2)).
Proof.
  intros F F2. destruct new as [| o new];
    [apply after_refetch_Forall; exact F2 |].
  destruct o; simpl in *;
    match goal with
    | |- Forall _ (_ :: _) => inversion F; subst; constructor; [assumption |]
    | _ => idtac
    end;
    apply Forall_app; split; assumption.
Qed.

Lemma handler_of_no_backfill event_type r final upsert del :
  handler_of event_type = HEntity r final upsert del ->
  forall env e ts, uses (no_backfill event_type) (upsert env e ts).
Proof.
  unfold handler_of.
  repeat match goal with
    | |- context [if ?b then _ else _] =>
        let E := fresh "E" in destruct b eqn:E
    end;
    intros H env e ts; try discriminate H;
    inversion H; subst;
    uses_tac ltac:(solve [ exact I
                         | split;
                           [ apply (proj1 (in_list_In _ _)); assumption
                           | first [left; reflexivity | right; reflexivity] ] ]).
Qed.

Lemma entity_branch_after_refetch (P : op -> Prop) env ev r final upsert :
  (forall e ts, uses P (upsert e ts)) ->
  forall w,
  exists new,
    log (snd (entity_branch env ev r final upsert w)) = log w ++ new
    /\ Forall P (after_refetch new).
Proof.
  intros H w. unfold entity_branch.
  assert (Rest : forall entity refetched,
             uses P (log_info_id env entity ;;
                     ts <- call_get_sync_timestamp env ev refetched ;;
                     upsert entity (Some ts))).
  { intros.
    apply uses_bind; [| intro; apply uses_call_get_sync_timestamp; apply H].
    unfold log_info_id. destruct (logger (cfg env)); [| apply uses_ret].
    unfold ignore, py_item. destruct (lookup_key "id" entity).
    - change (bind (ret v) ?k) with (k v). apply uses_ret.
    - intro w0. exists []. simpl. rewrite app_nil_r. auto. }
  unfold _fetch_or_use_webhook_data.
  destruct (negb (truthy (py_get (ev_object ev) "id"))).
  { change (bind (ret ?a) ?k w) with (k a w). cbv beta iota.
    destruct (Rest (ev_object ev) false w) as [new [L [F _]]].
    exists new. split; [exact L | apply after_refetch_Forall; exact F]. }
  destruct (match final with Some f => f (ev_object ev) | None => false end).
  { change (bind (ret ?a) ?k w) with (k a w). cbv beta iota.
    destruct (Rest (ev_object ev) false w) as [new [L [F _]]].
    exists new. split; [exact L | apply after_refetch_Forall; exact F]. }
  destruct (_should_refetch_entity env (ev_object ev)).
  2:{ change (bind (ret ?a) ?k w) with (k a w). cbv beta iota.
      destruct (Rest (ev_object ev) false w) as [new [L [F _]]].
      exists new. split; [exact L | apply after_refetch_Forall; exact F]. }
  rewrite bind_assoc.
  destruct (retrieve (stripe env) r (py_get (ev_object ev) "id"))
    as [err | fetched] eqn:R.
  - rewrite (bind_inl _ _ _ (stripe_retrieve_inl env _ _ w R)).
    exists [ApiRetrieve r (py_get (ev_object ev) "id")].
    split; [reflexivity | constructor].
  - rewrite (bind_inr _ _ _ (stripe_retrieve_inr env _ _ w R)).
    change (bind (ret ?a) ?k ?w0) with (k a w0). cbv beta iota.
    destruct (Rest fetched true (logged w (ApiRetrieve r (py_get (ev_object ev) "id"))))
      as [new [L [F _]]].
    exists (ApiRetrieve r (py_get (ev_object ev) "id") :: new).
    split; [| exact F]. rewrite L. simpl. rewrite <- app_assoc. reflexivity.
Qed.

(** X10. The webhook path does not backfill: whatever the configuration
    toggle says, a run of [process_event] looks up no missing related
    entity and, apart from the refetch of the event's own object at its
    start, retrieves nothing.  The one exception is a checkout-session
    event, whose line items have their prices (and the products of these
    prices) backfilled. *)
Theorem process_event_does_not_backfill :
  forall env ev w,
  exists new,
    log (snd (process_event env ev w)) = log w ++ new
    /\ Forall (no_backfill (ev_type ev)) (after_refetch new).
Proof.
  intros env ev w. rewrite process_event_route.
  assert (Plain : forall m : M unit,
             uses (no_backfill (ev_type ev)) m ->
             exists new,
               log (snd (m w)) = log w ++ new
               /\ Forall (no_backfill (ev_type ev)) (after_refetch new)).
  { intros m U. destruct (U w) as [new [L [F _]]]. exists new.
    split; [exact L | apply after_refetch_Forall; exact F]. }
  destruct (handler_of (ev_type ev)) as [r final upsert del | | t | |] eqn:E;
    simpl run_handler.
  - destruct (@entity_branch_after_refetch (no_backfill (ev_type ev))
                env ev r final (upsert env)
                (fun e ts => handler_of_no_backfill _ E env e ts) w)
      as [new [L F]].
    destruct del as [t |]; [| exists new; auto].
    unfold try_except.
    destruct (entity_branch env ev r final (upsert env) w) as [[err | a] w1];
      simpl in L; [| exists new; auto].
    assert (U : uses (no_backfill (ev_type ev))
                  (deletion_via_404 ev (delete t) err))
      by (uses_tac ltac:(exact I)).
    destruct (U w1) as [new2 [L2 [F2 _]]].
    exists (new ++ new2). rewrite L2, L, app_assoc. split; [reflexivity |].
    apply after_refetch_app; assumption.
  - apply Plain. uses_tac ltac:(exact I).
  - apply Plain. uses_tac ltac:(exact I).
  - apply Plain. unfold process_entitlement_summary, entitlements_in_effect,
      reconcile_entitlements. uses_tac ltac:(exact I).
  - apply Plain. uses_tac ltac:(exact I).
Qed.

(** The deletion events and the table each one deletes from. *)
Definition deletion_events : list (string * table) :=
  [("customer.tax_id.deleted", tbl_tax_ids);
   ("product.deleted", tbl_products);
   ("price.deleted", tbl_prices);
   ("plan.deleted", tbl_plans)].

(** X11. A deletion event ([customer.tax_id.deleted], [product.deleted],
    [price.deleted], [plan.deleted]) makes one call, the hard delete of the
    row whose key is the event object's id, in the table of the kind; it
    never asks the API, and afterwards no row has that id.  An event object
    without an id raises [KeyError] and nothing is touched. *)
Theorem deletion_event_deletes_by_id :
  forall env ev w t,
    In (ev_type ev, t) deletion_events ->
    (forall id,
        lookup_key "id" (ev_object ev) = Some id ->
        process_event env ev w
        = (inr tt,
           {| db := set_table (db w) t (fst (delete_row id (db w t)));
              log := log w ++ [DbDelete t id] |})
        /\ forall s, id = VStr s ->
             has_row (fst (delete_row id (db w t))) s = false)
    /\ (lookup_key "id" (ev_object ev) = None ->
        process_event env ev w = (inl (KeyError "id"), w)).
Proof.
  intros env ev w t Hin.
  assert (Hh : handler_of (ev_type ev) = HDelete t).
  { simpl in Hin.
    destruct Hin as [E | [E | [E | [E | []]]]]; inversion E; reflexivity. }
  rewrite process_event_route, Hh. simpl run_handler.
  unfold log_info_id, ignore, py_item. split.
  - intros id Hid. rewrite Hid. split.
    + destruct (logger (cfg env)); unfold delete, bind, issue, read_table,
        write_table, ret; simpl; reflexivity.
    + intros s E. subst id. unfold has_row. rewrite find_row_delete.
      reflexivity.
  - intro Hid. rewrite Hid. destruct (logger (cfg env)); reflexivity.
Qed.

Definition product_deleted_event : event :=
  {| ev_id := "evt_7"; ev_type := "product.deleted"; ev_created := 9%Z;
     ev_object := [("id", VStr "prod_1"); ("object", VStr "product")] |}.

Lemma deletion_event_deletes_by_id_witness :
  process_event (make_env unavailable_api revalidating_config)
    product_deleted_event world_with_product
  = (inr tt,
     {| db := set_table (db world_with_product) tbl_products
                (fst (delete_row (VStr "prod_1")
                        (db world_with_product tbl_products)));
        log := [DbDelete tbl_products (VStr "prod_1")] |})
  /\ has_row (fst (delete_row (VStr "prod_1")
                     (db world_with_product tbl_products))) "prod_1" = false.
Proof.
  destruct (proj1 (@deletion_event_deletes_by_id
                     (make_env unavailable_api revalidating_config)
                     product_deleted_event world_with_product tbl_products
                     (or_intror (or_introl eq_refl)))
              (VStr "prod_1") eq_refl) as [Hrun Hgone].
  split; [exact Hrun | apply Hgone; reflexivity].
Defined.

Lemma upsert_many_log entries t schema ts w :
  log (snd (upsert_many_with_timestamp_protection entries t schema ts w))
  = log w ++ [DbUpsert t entries schema ts].
Proof.
  unfold upsert_many_with_timestamp_protection, bind, issue, read_table,
    write_table. simpl.
  destruct (upsert_many entries schema ts (db w t)) as [[rows' written] |];
    reflexivity.
Qed.

Lemma upsert_many_returns entries t schema ts w news :
  make_rows schema ts entries = Some news ->
  exists written w',
    upsert_many_with_timestamp_protection entries t schema ts w
    = (inr written, w')
    /\ upsert_many entries schema ts (db w t) = Some (db w' t, written).
Proof.
  intro H.
  unfold upsert_many_with_timestamp_protection, bind, issue, read_table,
    write_table, upsert_many. simpl. rewrite H.
  destruct (upsert_rows news ts (db w t)) as [rows' written]. simpl.
  eexists. eexists. split; [reflexivity |]. simpl.
  rewrite set_table_same. reflexivity.
Qed.

(** X12. [customer.deleted] is a soft delete.  The run never asks the API,
    also when customers are revalidated.  When
    [datetime.fromtimestamp] accepts the event's creation time, the run
    writes, with that time, a record made of the id, the object type and
    [deleted = True], whatever else the payload holds; when it returns and
    the stored row is not newer than the event, the customer's row is
    there with [deleted = True].  When [datetime.fromtimestamp] raises, its
    error reaches the caller before any call is made. *)
Theorem customer_deleted_is_a_soft_delete :
  forall env ev w id,
    ev_type ev = "customer.deleted" ->
    lookup_key "id" (ev_object ev) = Some id ->
    let ts := fromtimestamp (clk env) (ev_created ev) in
    let tombstone :=
      [("id", id); ("object", VStr "customer"); ("deleted", VBool true)] in
    let w' := snd (process_event env ev w) in
    (forall err,
        fromtimestamp_error (clk env) (ev_created ev) = Some err ->
        process_event env ev w = (inl (DatetimeError err), w))
    /\ (fromtimestamp_error (clk env) (ev_created ev) = None ->
        log w'
        = log w ++ [DbUpsert tbl_customers [] customer_schema (Some ts);
                    DbUpsert tbl_customers [tombstone] customer_deleted_schema
                      (Some ts)]
        /\ forall s,
             id = VStr s ->
             (forall r t1, find_row s (db w tbl_customers) = Some r ->
                           last_synced_at r = Some t1 -> (t1 <= ts)%Z) ->
             fst (process_event env ev w) = inr tt
             /\ exists r', find_row s (db w' tbl_customers) = Some r'
                           /\ soft_deleted r' = true
                           /\ last_synced_at r' = Some ts).
Proof.
  intros env ev w id Hty Hid ts tombstone w'. subst w'.
  rewrite process_event_route, Hty.
  change (handler_of "customer.deleted") with HCustomerDeleted.
  cbn [run_handler]. unfold py_item. rewrite Hid.
  change (bind (ret id) ?k w) with (k id w). cbv beta zeta.
  fold tombstone.
  assert (Hlog : log_info_id env tombstone w = (inr tt, w)).
  { unfold log_info_id, ignore, py_item. subst tombstone.
    destruct (logger (cfg env)); reflexivity. }
  rewrite (bind_inr _ _ _ Hlog).
  unfold call_get_sync_timestamp. cbv iota.
  split; [intros err Herr; rewrite Herr; reflexivity |].
  intro Hok. rewrite Hok.
  change (bind (ret ?a) ?k w) with (k a w). cbv beta.
  unfold _get_sync_timestamp. cbv iota. fold ts.
  unfold ignore, _upsert_customers. cbv zeta.
  replace (filter (fun c => negb (truthy (py_get c "deleted"))) [tombstone])
    with (@nil dict) by reflexivity.
  replace (filter (fun c => truthy (py_get c "deleted")) [tombstone])
    with [tombstone] by reflexivity.
  rewrite !bind_assoc.
  destruct (@upsert_many_returns [] tbl_customers customer_schema (Some ts)
              w [] eq_refl) as [wr1 [w1 [E1 U1]]].
  rewrite (bind_inr _ _ _ E1).
  pose proof (upsert_many_log [] tbl_customers customer_schema (Some ts) w)
    as L1. rewrite E1 in L1. simpl in L1.
  pose proof (upsert_many_log [tombstone] tbl_customers
                customer_deleted_schema (Some ts) w1) as L2.
  inversion U1 as [[D1 W1]]. clear U1.
  split.
  - destruct (upsert_many_with_timestamp_protection [tombstone] tbl_customers
                customer_deleted_schema (Some ts) w1) as [[err | rows] w2]
      eqn:E2; simpl in L2.
    + rewrite !bind_assoc, (bind_inl _ _ _ E2). simpl.
      rewrite L2, L1, <- app_assoc. reflexivity.
    + rewrite !bind_assoc, (bind_inr _ _ _ E2). simpl.
      rewrite L2, L1, <- app_assoc. reflexivity.
  - intros s E Hnew. subst id.
    destruct (@upsert_many_returns [tombstone] tbl_customers
                customer_deleted_schema (Some ts) w1
                [{| row_id := s;
                    row_fields := project customer_deleted_schema tombstone;
                    last_synced_at := Some ts |}] eq_refl)
      as [wr2 [w2 [E2 U2]]].
    rewrite !bind_assoc, (bind_inr _ _ _ E2). simpl. split; [reflexivity |].
    eexists. split.
    + apply (@upsert_many_writes [tombstone] customer_deleted_schema ts
               (db w1 tbl_customers) (db w2 tbl_customers) wr2 tombstone s U2).
      * left. reflexivity.
      * reflexivity.
      * intros e' [E | []] _. symmetry. exact E.
      * rewrite <- D1. exact Hnew.
    + split; reflexivity.
Qed.

(** A [customer.deleted] event whose creation time is past the year 9999,
    which [datetime.fromtimestamp] refuses. *)
Definition late_customer_deleted_event : event :=
  {| ev_id := "evt_7"; ev_type := "customer.deleted";
     ev_created := 253402300800%Z;
     ev_object := [("id", VStr "cus_1"); ("object", VStr "customer");
                   ("deleted", VBool true)] |}.

Lemma customer_deleted_is_a_soft_delete_witness :
  let env := make_env unavailable_api revalidating_config in
  let run := process_event env customer_deleted_event world_with_customer in
  (fst run = inr tt
   /\ exists r', find_row "cus_1" (db (snd run) tbl_customers) = Some r'
                 /\ soft_deleted r' = true
                 /\ last_synced_at r' = Some 9%Z)
  /\ process_event env late_customer_deleted_event world_with_customer
     = (inl (DatetimeError ValueError), world_with_customer).
Proof.
  cbv zeta. split.
  - apply (proj2 (proj2 (@customer_deleted_is_a_soft_delete
                           (make_env unavailable_api revalidating_config)
                           customer_deleted_event world_with_customer
                           (VStr "cus_1") eq_refl eq_refl) eq_refl)
             "cus_1" eq_refl).
    intros r t1 Hr Ht. vm_compute in Hr. inversion Hr. subst r.
    simpl in Ht. inversion Ht. vm_compute. discriminate.
  - apply (proj1 (@customer_deleted_is_a_soft_delete
                    (make_env unavailable_api revalidating_config)
                    late_customer_deleted_event world_with_customer
                    (VStr "cus_1") eq_refl eq_refl) ValueError).
    reflexivity.
Defined.

(** The price and plan events that upsert, with the resource they may
    refetch and the table of the kind. *)
Definition catalog_kinds : list (list string * resource * table) :=
  [(price_events, Price, tbl_prices); (plan_events, Plan, tbl_plans)].

Lemma handler_of_catalog events r t event_type :
  In (events, r, t) catalog_kinds -> In event_type events ->
  exists upsert,
    handler_of event_type = HEntity r None upsert (Some t).
Proof.
  intros [E | [E | []]] Hin; inversion E; subst;
    destruct Hin as [H | [H | []]]; subst event_type;
    eexists; reflexivity.
Qed.

(** X13. Price and plan events treat a vanished object as products do: when
    the refetch of a [price.created], [price.updated], [plan.created] or
    [plan.updated] event answers [resource_missing], [process_event]
    returns normally after deleting the row with the event object's id, and
    any other retrieval error reaches the caller with the store
    untouched. *)
Theorem catalog_refetch_404_deletes :
  forall env ev w events r t,
    In (events, r, t) catalog_kinds ->
    In (ev_type ev) events ->
    truthy (py_get (ev_object ev) "id") = true ->
    _should_refetch_entity env (ev_object ev) = true ->
    let id := py_get (ev_object ev) "id" in
    (retrieve (stripe env) r id
     = inl (InvalidRequestError (Some "resource_missing")) ->
     process_event env ev w
     = (inr tt,
        {| db := set_table (db w) t (fst (delete_row id (db w t)));
           log := log w ++ [ApiRetrieve r id; DbDelete t id] |})
     /\ forall s, id = VStr s ->
          has_row (fst (delete_row id (db w t))) s = false)
    /\ (forall err,
          retrieve (stripe env) r id = inl err ->
          err <> InvalidRequestError (Some "resource_missing") ->
          process_event env ev w = (inl err, logged w (ApiRetrieve r id))).
Proof.
  intros env ev w events r t Hk Hty Hid Hre id.
  destruct (handler_of_catalog _ Hk Hty) as [upsert Hh].
  assert (Run : forall err,
             retrieve (stripe env) r id = inl err ->
             process_event env ev w
             = deletion_via_404 ev (delete t) err
                 (logged w (ApiRetrieve r id))).
  { intros err Hr. rewrite process_event_route, Hh. simpl run_handler.
    unfold try_except, entity_branch, _fetch_or_use_webhook_data.
    rewrite Hid. simpl negb. cbv iota. rewrite Hre.
    rewrite !bind_assoc.
    rewrite (bind_inl _ _ _ (stripe_retrieve_inl env _ _ w Hr)).
    reflexivity. }
  split.
  - intro Hr. rewrite (Run _ Hr). split.
    + unfold deletion_via_404. simpl String.eqb. cbv iota.
      unfold py_item. rewrite (truthy_get_lookup _ _ Hid).
      unfold logged. unfold ignore, delete, bind, issue, read_table,
        write_table. simpl. rewrite <- app_assoc. reflexivity.
    + intros s E. unfold has_row. fold id in E. rewrite E.
      rewrite find_row_delete. reflexivity.
  - intros err Hr Hne. rewrite (Run _ Hr). unfold deletion_via_404.
    destruct err as [[c |] | | | | | | |]; try reflexivity.
    destruct (String.eqb c "resource_missing") eqn:E; [| reflexivity].
    apply String.eqb_eq in E. subst c. contradiction.
Qed.

Definition revalidating_catalog_config : config :=
  {| auto_expand_lists := None;
     backfill_related_entities := Some true;
     revalidate_objects_via_stripe_api := Some ["price"; "plan"];
     logger := true |}.

Definition price_updated_event : event :=
  {| ev_id := "evt_8"; ev_type := "price.updated"; ev_created := 9%Z;
     ev_object := [("id", VStr "price_1"); ("object", VStr "price");
                   ("product", VStr "prod_1")] |}.

Lemma catalog_refetch_404_deletes_witness :
  process_event (make_env empty_api revalidating_catalog_config)
    price_updated_event empty_world
  = (inr tt,
     {| db := set_table (db empty_world) tbl_prices
                (fst (delete_row (VStr "price_1") (db empty_world tbl_prices)));
        log := [ApiRetrieve Price (VStr "price_1");
                DbDelete tbl_prices (VStr "price_1")] |})
  /\ process_event (make_env unavailable_api revalidating_catalog_config)
       price_updated_event empty_world
     = (inl (StripeError "APIConnectionError"),
        logged empty_world (ApiRetrieve Price (VStr "price_1"))).
Proof.
  split.
  - apply (proj1 (@catalog_refetch_404_deletes
                    (make_env empty_api revalidating_catalog_config)
                    price_updated_event empty_world price_events Price
                    tbl_prices (or_introl eq_refl)
                    (or_intror (or_introl eq_refl)) eq_refl eq_refl)).
    reflexivity.
  - apply (proj2 (@catalog_refetch_404_deletes
                    (make_env unavailable_api revalidating_catalog_config)
                    price_updated_event empty_world price_events Price
                    tbl_prices (or_introl eq_refl)
                    (or_intror (or_introl eq_refl)) eq_refl eq_refl)
             (StripeError "APIConnectionError")).
    + reflexivity.
    + discriminate.
Defined.

(* ================================================================== *)
(** * Further properties: single-entity sync *)
(* ================================================================== *)

(** The id prefixes [sync_single_entity] knows, with the resource it
    retrieves and the upsert it makes of the retrieved object. *)
Definition prefix_kinds : list (string * resource * (dict -> upsert_call)) :=
  [("cus_", Customer, fun e => UpsertCustomers [e]);
   ("in_", Invoice, fun e => UpsertInvoices [e] None);
   ("price_", Price, fun e => UpsertPrices [e] None);
   ("prod_", Product, fun e => UpsertProducts [e]);
   ("sub_", Subscription, fun e => UpsertSubscriptions [e] None);
   ("seti_", SetupIntent, fun e => UpsertSetupIntents [e] None);
   ("pm_", PaymentMethod, fun e => UpsertPaymentMethods [e] (Some false));
   ("dp_", Dispute, fun e => UpsertDisputes [e] None);
   ("du_", Dispute, fun e => UpsertDisputes [e] None);
   ("ch_", Charge, fun e => UpsertCharges [e] (Some true));
   ("pi_", PaymentIntent, fun e => UpsertPaymentIntents [e] None);
   ("txi_", TaxId, fun e => UpsertTaxIds [e] None);
   ("cn_", CreditNote, fun e => UpsertCreditNotes [e] None);
   ("issfr_", EarlyFraudWarning, fun e => UpsertEarlyFraudWarnings [e] None);
   ("prv_", Review, fun e => UpsertReviews [e] None);
   ("re_", Refund, fun e => UpsertRefunds [e] None);
   ("inpay_", InvoicePayment, fun e => UpsertInvoicePayments [e] None);
   ("feat_", Feature, fun e => UpsertFeatures [e]);
   ("cs_", CheckoutSession, fun e => UpsertCheckoutSessions [e] None)].

Lemma prefix_split (p s : string) :
  String.prefix p s = true -> exists rest, s = (p ++ rest)%string.
Proof.
  revert s. induction p as [| a p IH]; intros s H.
  - exists s. reflexivity.
  - destruct s as [| b s]; [discriminate |]. simpl in H.
    destruct (Ascii.ascii_dec a b) as [E | N]; [| discriminate].
    subst b. destruct (IH s H) as [rest Hr]. exists rest. subst s.
    reflexivity.
Qed.

Lemma prefix_app (p rest : string) : String.prefix p (p ++ rest) = true.
Proof.
  induction p as [| a p IH]; simpl.
  - destruct rest; reflexivity.
  - destruct (Ascii.ascii_dec a a) as [_ | N]; [exact IH | congruence].
Qed.

Ltac settle_prefixes :=
  rewrite prefix_app;
  repeat match goal with
    | |- context [String.prefix ?p (?q ++ ?rest)%string] =>
        change (String.prefix p (q ++ rest)%string) with false
    end;
  cbv beta iota delta [orb].

(** On a known prefix, [sync_single_entity] is the retrieval of the object
    followed by the upsert of [prefix_kinds]. *)
Lemma sync_single_entity_run env p r mk stripe_id w :
  In (p, r, mk) prefix_kinds ->
  String.prefix p stripe_id = true ->
  (forall err,
      retrieve (stripe env) r (VStr stripe_id) = inl err ->
      sync_single_entity env stripe_id w
      = (inl err, logged w (ApiRetrieve r (VStr stripe_id))))
  /\ (forall e,
        retrieve (stripe env) r (VStr stripe_id) = inr e ->
        (p = "cus_" -> truthy (py_get e "deleted") = false /\ e <> []) ->
        sync_single_entity env stripe_id w
        = run_upsert env (mk e) None
            (logged w (ApiRetrieve r (VStr stripe_id)))).
Proof.
  intros Hin Hp. apply prefix_split in Hp. destruct Hp as [rest Hs].
  simpl in Hin.
  repeat match type of Hin with
    | _ \/ _ => destruct Hin as [Hin | Hin]
    end;
    try contradiction; inversion Hin; subst p r mk; clear Hin;
    subst stripe_id; unfold sync_single_entity; cbv zeta;
    settle_prefixes;
    (split;
     [ intros err Hr;
       rewrite (bind_inl _ _ _ (stripe_retrieve_inl env _ _ w Hr));
       reflexivity
     | intros e Hr Hc;
       rewrite (bind_inr _ _ _ (stripe_retrieve_inr env _ _ w Hr));
       try reflexivity ]).
  destruct (Hc eq_refl) as [Hd Hne]. rewrite Hd.
  destruct e; [contradiction | reflexivity].
Qed.

(** X14. For an id with a known prefix, [sync_single_entity] first
    retrieves the object from the resource of the prefix.  When the
    retrieval fails, the error reaches the caller and nothing else has
    happened.  When it answers the object asked for and the run returns,
    a row for the id is in the table of the kind (for a customer, provided
    the object is not a deleted one). *)
Theorem sync_single_entity_retrieves_then_stores :
  forall env p r mk stripe_id w,
    In (p, r, mk) prefix_kinds ->
    String.prefix p stripe_id = true ->
    (forall err,
        retrieve (stripe env) r (VStr stripe_id) = inl err ->
        sync_single_entity env stripe_id w
        = (inl err, logged w (ApiRetrieve r (VStr stripe_id))))
    /\ (forall e w',
          retrieve (stripe env) r (VStr stripe_id) = inr e ->
          lookup_key "id" e = Some (VStr stripe_id) ->
          (p = "cus_" -> truthy (py_get e "deleted") = false) ->
          sync_single_entity env stripe_id w = (inr tt, w') ->
          has_row (db w' (table_of (mk e))) stripe_id = true).
Proof.
  intros env p r mk stripe_id w Hin Hp.
  destruct (sync_single_entity_run env stripe_id w Hin Hp) as [Hfail Hok].
  split; [exact Hfail |].
  intros e w' Hr Hid Hdel Hrun. rewrite (Hok e Hr) in Hrun.
  - eapply run_upsert_stores; [exact Hrun | | exact Hid].
    clear - Hin. simpl in Hin.
    repeat match type of Hin with
      | _ \/ _ => destruct Hin as [Hin | Hin]
      end;
      try contradiction; inversion Hin; subst; left; reflexivity.
  - intro E. split; [exact (Hdel E) |]. intro Hnil. subst e. discriminate Hid.
Qed.

Lemma sync_single_entity_retrieves_then_stores_witness :
  sync_single_entity (make_env unavailable_api backfilling_config) "in_1"
    empty_world
  = (inl (StripeError "APIConnectionError"),
     logged empty_world (ApiRetrieve Invoice (VStr "in_1")))
  /\ has_row (db (snd (sync_single_entity
                         (make_env ledger_api backfilling_config) "in_1"
                         empty_world)) tbl_invoices) "in_1" = true.
Proof.
  split.
  - apply (proj1 (@sync_single_entity_retrieves_then_stores
                    (make_env unavailable_api backfilling_config)
                    "in_" Invoice (fun e => UpsertInvoices [e] None) "in_1"
                    empty_world (or_intror (or_introl eq_refl)) eq_refl)).
    reflexivity.
  - destruct (sync_single_entity (make_env ledger_api backfilling_config)
                "in_1" empty_world) as [[err | []] w'] eqn:Hrun.
    { exfalso. vm_compute in Hrun. discriminate Hrun. }
    simpl snd.
    apply (proj2 (@sync_single_entity_retrieves_then_stores
                    (make_env ledger_api backfilling_config)
                    "in_" Invoice (fun e => UpsertInvoices [e] None) "in_1"
                    empty_world (or_intror (or_introl eq_refl)) eq_refl)
             [("id", VStr "in_1"); ("object", VStr "invoice");
              ("customer", VStr "cus_2")] w' eq_refl eq_refl
             ltac:(discriminate) Hrun).
Defined.

(** X15. Two kinds do not follow the configuration toggle in
    [sync_single_entity].  A payment method is written without any
    backfill: the run makes the retrieval and the write, nothing else.  A
    charge is always backfilled: right after the retrieval the run looks up
    the charge's customer. *)
Theorem sync_single_entity_fixed_backfill :
  forall env stripe_id w e,
    (String.prefix "pm_" stripe_id = true ->
     retrieve (stripe env) PaymentMethod (VStr stripe_id) = inr e ->
     log (snd (sync_single_entity env stripe_id w))
     = log w ++ [ApiRetrieve PaymentMethod (VStr stripe_id);
                 DbUpsert tbl_payment_methods [e] payment_methods_schema None])
    /\ (String.prefix "ch_" stripe_id = true ->
        retrieve (stripe env) Charge (VStr stripe_id) = inr e ->
        exists rest,
          log (snd (sync_single_entity env stripe_id w))
          = log w ++ ApiRetrieve Charge (VStr stripe_id)
                  :: DbFindMissing tbl_customers
                       (get_unique_ids env [e] "customer")
                  :: rest).
Proof.
  intros env stripe_id w e. split; intros Hp Hr.
  - rewrite (proj2 (@sync_single_entity_run env "pm_" PaymentMethod
                      (fun e => UpsertPaymentMethods [e] (Some false))
                      stripe_id w
                      ltac:(simpl; tauto) Hp) e Hr ltac:(discriminate)).
    simpl run_upsert. unfold ignore, _upsert_payment_methods.
    simpl backfill_enabled. unfold when.
    change (bind (ret tt) ?k) with (k tt). cbv beta.
    set (w1 := logged w (ApiRetrieve PaymentMethod (VStr stripe_id))).
    pose proof (upsert_many_log [e] tbl_payment_methods
                  payment_methods_schema None w1) as L.
    unfold bind.
    destruct (upsert_many_with_timestamp_protection [e] tbl_payment_methods
                payment_methods_schema None w1) as [[err | rows] w2];
      simpl in *; rewrite L; unfold w1; simpl; rewrite <- app_assoc;
      reflexivity.
  - rewrite (proj2 (@sync_single_entity_run env "ch_" Charge
                      (fun e => UpsertCharges [e] (Some true))
                      stripe_id w
                      ltac:(simpl; tauto) Hp) e Hr ltac:(discriminate)).
    simpl run_upsert. unfold ignore, _upsert_charges.
    simpl backfill_enabled. unfold when, _backfill_customers.
    rewrite !bind_assoc.
    set (w1 := logged w (ApiRetrieve Charge (VStr stripe_id))).
    rewrite (bind_inr _ _ _
               (eq_refl : find_missing_entries tbl_customers
                            (get_unique_ids env [e] "customer") w1
                          = (inr _, _))).
    match goal with
    | |- context [log (snd (?m ?w2))] =>
        assert (U : uses (fun _ => True) m) by (uses_tac ltac:(exact I));
        destruct (U w2) as [new [L _]]; rewrite L
    end.
    exists new. unfold w1. simpl. rewrite <- !app_assoc. reflexivity.
Qed.

(** A Stripe account that answers every retrieval with an object carrying
    the id asked for, billed to [cus_1]. *)
Definition echo_api : stripe_api :=
  {| retrieve := fun _ id =>
       inr [("id", id); ("object", VStr "object"); ("customer", VStr "cus_1")];
     list_objects := fun _ =>
       inr {| data := []; later_pages := []; paging_error := None |};
     object_str := fun _ => "" |}.

Lemma sync_single_entity_fixed_backfill_witness :
  log (snd (sync_single_entity (make_env echo_api backfilling_config) "pm_1"
              empty_world))
  = [ApiRetrieve PaymentMethod (VStr "pm_1");
     DbUpsert tbl_payment_methods
       [[("id", VStr "pm_1"); ("object", VStr "object");
         ("customer", VStr "cus_1")]] payment_methods_schema None]
  /\ exists rest,
       log (snd (sync_single_entity (make_env echo_api plain_config) "ch_1"
                   empty_world))
       = ApiRetrieve Charge (VStr "ch_1")
         :: DbFindMissing tbl_customers ["cus_1"] :: rest.
Proof.
  split.
  - apply (proj1 (sync_single_entity_fixed_backfill
                    (make_env echo_api backfilling_config) "pm_1" empty_world
                    [("id", VStr "pm_1"); ("object", VStr "object");
                     ("customer", VStr "cus_1")]) eq_refl eq_refl).
  - apply (proj2 (sync_single_entity_fixed_backfill
                    (make_env echo_api plain_config) "ch_1" empty_world
                    [("id", VStr "ch_1"); ("object", VStr "object");
                     ("customer", VStr "cus_1")]) eq_refl eq_refl).
Defined.

(* ================================================================== *)
(** * The engine: the remaining backfill operations *)
(* ================================================================== *)

Definition sync_prices (env : environment)
  (sync_params : option SyncBackfillParams) : M Sync :=
  _fetch_and_upsert
    (stripe_list_call env (ListObjects Price (params_created sync_params)))
    (fun prices =>
       ignore (_upsert_prices env prices (params_backfill sync_params) None)).

Definition sync_plans (env : environment)
  (sync_params : option SyncBackfillParams) : M Sync :=
  _fetch_and_upsert
    (stripe_list_call env (ListObjects Plan (params_created sync_params)))
    (fun plans =>
       ignore (_upsert_plans env plans (params_backfill sync_params) None)).

Definition sync_subscription_schedules (env : environment)
  (sync_params : option SyncBackfillParams) : M Sync :=
  _fetch_and_upsert
    (stripe_list_call env
       (ListObjects SubscriptionSchedule (params_created sync_params)))
    (fun items =>
       ignore (_upsert_subscription_schedules env items
                 (params_backfill sync_params) None)).

Definition sync_invoices (env : environment)
  (sync_params : option SyncBackfillParams) : M Sync :=
  _fetch_and_upsert
    (stripe_list_call env (ListObjects Invoice (params_created sync_params)))
    (fun items =>
       ignore (_upsert_invoices env items (params_backfill sync_params) None)).

Definition sync_setup_intents (env : environment)
  (sync_params : option SyncBackfillParams) : M Sync :=
  _fetch_and_upsert
    (stripe_list_call env (ListObjects SetupIntent (params_created sync_params)))
    (fun items =>
       ignore (_upsert_setup_intents env items (params_backfill sync_params)
                 None)).

Definition sync_payment_intents (env : environment)
  (sync_params : option SyncBackfillParams) : M Sync :=
  _fetch_and_upsert
    (stripe_list_call env
       (ListObjects PaymentIntent (params_created sync_params)))
    (fun items =>
       ignore (_upsert_payment_intents env items (params_backfill sync_params)
                 None)).

(** [sync_tax_ids] does not read [created]: its listing has no filter. *)
Definition sync_tax_ids (env : environment)
  (sync_params : option SyncBackfillParams) : M Sync :=
  _fetch_and_upsert
    (stripe_list_call env (ListObjects TaxId VNone))
    (fun items =>
       ignore (_upsert_tax_ids env items (params_backfill sync_params) None)).

(** [for chunk in chunks: ...; synced += ...]: a loop that threads an
    accumulator. *)
Fixpoint fold_m {A S : Type} (f : S -> A -> M S) (l : list A) (s : S) : M S :=
  match l with
  | [] => ret s
  | x :: l' => s' <- f s x ;; fold_m f l' s'
  end.

(** [for result in chunk_results: synced += result['synced']] *)
Definition add_synced (results : list Sync) (n : nat) : nat :=
  fold_left (fun acc r => (acc + synced r)%nat) results n.

(** The ids come from
    [SELECT id FROM customers WHERE deleted <> true]; [chunk_array] is
    called with the step 10, for which [range] does not raise. *)
Definition sync_payment_methods (env : environment)
  (sync_params : option SyncBackfillParams) : M Sync :=
  customer_ids <- query_select_customers ;;
  match chunk_array customer_ids 10 with
  | None => raise TypeError
  | Some chunks =>
      total <-
        fold_m
          (fun total customer_id_chunk =>
             chunk_results <-
               map_m (fun customer_id =>
                        _fetch_and_upsert
                          (stripe_list_call env
                             (ListPaymentMethods (VStr customer_id)))
                          (fun items =>
                             ignore (_upsert_payment_methods env items
                                       (params_backfill sync_params) None)))
                     customer_id_chunk ;;
             ret (add_synced chunk_results total))
          chunks 0%nat ;;
      ret {| synced := total |}
  end.

Definition sync_disputes (env : environment)
  (sync_params : option SyncBackfillParams) : M Sync :=
  _fetch_and_upsert
    (stripe_list_call env (ListObjects Dispute (params_created sync_params)))
    (fun items =>
       ignore (_upsert_disputes env items (params_backfill sync_params) None)).

Definition sync_early_fraud_warnings (env : environment)
  (sync_params : option SyncBackfillParams) : M Sync :=
  _fetch_and_upsert
    (stripe_list_call env
       (ListObjects EarlyFraudWarning (params_created sync_params)))
    (fun items =>
       ignore (_upsert_early_fraud_warning env items
                 (params_backfill sync_params) None)).

Definition sync_refunds (env : environment)
  (sync_params : option SyncBackfillParams) : M Sync :=
  _fetch_and_upsert
    (stripe_list_call env (ListObjects Refund (params_created sync_params)))
    (fun items =>
       ignore (_upsert_refunds env items (params_backfill sync_params) None)).

(** [sync_credit_notes] calls [_upsert_credit_notes(credit_notes)]: the
    [backfill_related_entities] of the parameters is not passed on. *)
Definition sync_credit_notes (env : environment)
  (sync_params : option SyncBackfillParams) : M Sync :=
  _fetch_and_upsert
    (stripe_list_call env (ListObjects CreditNote (params_created sync_params)))
    (fun credit_notes =>
       ignore (_upsert_credit_notes env credit_notes None None)).

Definition sync_checkout_sessions (env : environment)
  (sync_params : option SyncBackfillParams) : M Sync :=
  _fetch_and_upsert
    (stripe_list_call env
       (ListObjects CheckoutSession (params_created sync_params)))
    (fun items =>
       ignore (_upsert_checkout_sessions env items
                 (params_backfill sync_params) None)).

(** The dictionary [sync_backfill] returns, in the order of its keys. *)
Definition backfill_result
  (products prices customers checkout_sessions subscriptions
   subscription_schedules invoices setup_intents payment_methods disputes
   charges payment_intents plans tax_ids credit_notes early_fraud_warnings
   refunds : option Sync) : list (string * option Sync) :=
  [("products", products); ("prices", prices); ("customers", customers);
   ("checkout_sessions", checkout_sessions);
   ("subscriptions", subscriptions);
   ("subscription_schedules", subscription_schedules);
   ("invoices", invoices); ("setup_intents", setup_intents);
   ("payment_methods", payment_methods); ("disputes", disputes);
   ("charges", charges); ("payment_intents", payment_intents);
   ("plans", plans); ("tax_ids", tax_ids); ("credit_notes", credit_notes);
   ("early_fraud_warnings", early_fraud_warnings); ("refunds", refunds)].

(** [obj == s] for the [obj] that [sync_backfill] reads off its
    parameters. *)
Definition obj_is (obj : option string) (s : string) : bool :=
  match obj with
  | Some o => String.eqb o s
  | None => false
  end.

Definition sync_backfill (env : environment)
  (params : option SyncBackfillParams) : M (list (string * option Sync)) :=
  let obj := match params with
             | Some p => p_object p
             | None => None
             end in
  let n := @None Sync in
  if obj_is obj "all" then
    products <- sync_products env params ;;
    prices <- sync_prices env params ;;
    plans <- sync_plans env params ;;
    customers <- sync_customers env params ;;
    subscriptions <- sync_subscriptions env params ;;
    subscription_schedules <- sync_subscription_schedules env params ;;
    invoices <- sync_invoices env params ;;
    charges <- sync_charges env params ;;
    setup_intents <- sync_setup_intents env params ;;
    payment_methods <- sync_payment_methods env params ;;
    payment_intents <- sync_payment_intents env params ;;
    tax_ids <- sync_tax_ids env params ;;
    credit_notes <- sync_credit_notes env params ;;
    disputes <- sync_disputes env params ;;
    early_fraud_warnings <- sync_early_fraud_warnings env params ;;
    refunds <- sync_refunds env params ;;
    checkout_sessions <- sync_checkout_sessions env params ;;
    ret (backfill_result (Some products) (Some prices) (Some customers)
           (Some checkout_sessions) (Some subscriptions)
           (Some subscription_schedules) (Some invoices) (Some setup_intents)
           (Some payment_methods) (Some disputes) (Some charges)
           (Some payment_intents) (Some plans) (Some tax_ids)
           (Some credit_notes) (Some early_fraud_warnings) (Some refunds))
  else if obj_is obj "customer" then
    customers <- sync_customers env params ;;
    ret (backfill_result n n (Some customers) n n n n n n n n n n n n n n)
  else if obj_is obj "invoice" then
    invoices <- sync_invoices env params ;;
    ret (backfill_result n n n n n n (Some invoices) n n n n n n n n n n)
  else if obj_is obj "price" then
    prices <- sync_prices env params ;;
    ret (backfill_result n (Some prices) n n n n n n n n n n n n n n n)
  else if obj_is obj "product" then
    products <- sync_products env params ;;
    ret (backfill_result (Some products) n n n n n n n n n n n n n n n n)
  else if obj_is obj "subscription" then
    subscriptions <- sync_subscriptions env params ;;
    ret (backfill_result n n n n (Some subscriptions) n n n n n n n n n n n n)
  else if obj_is obj "subscription_schedules" then
    subscription_schedules <- sync_subscription_schedules env params ;;
    ret (backfill_result n n n n n (Some subscription_schedules)
           n n n n n n n n n n n)
  else if obj_is obj "setup_intent" then
    setup_intents <- sync_setup_intents env params ;;
    ret (backfill_result n n n n n n n (Some setup_intents) n n n n n n n n n)
  else if obj_is obj "payment_method" then
    payment_methods <- sync_payment_methods env params ;;
    ret (backfill_result n n n n n n n n (Some payment_methods)
           n n n n n n n n)
  else if obj_is obj "dispute" then
    disputes <- sync_disputes env params ;;
    ret (backfill_result n n n n n n n n n (Some disputes) n n n n n n n)
  else if obj_is obj "charge" then
    charges <- sync_charges env params ;;
    ret (backfill_result n n n n n n n n n n (Some charges) n n n n n n)
  else if obj_is obj "payment_intent" then
    payment_intents <- sync_payment_intents env params ;;
    ret (backfill_result n n n n n n n n n n n (Some payment_intents)
           n n n n n)
  else if obj_is obj "plan" then
    plans <- sync_plans env params ;;
    ret (backfill_result n n n n n n n n n n n n (Some plans) n n n n)
  else if obj_is obj "tax_id" then
    tax_ids <- sync_tax_ids env params ;;
    ret (backfill_result n n n n n n n n n n n n n (Some tax_ids) n n n)
  else if obj_is obj "credit_note" then
    credit_notes <- sync_credit_notes env params ;;
    ret (backfill_result n n n n n n n n n n n n n n (Some credit_notes) n n)
  else if obj_is obj "early_fraud_warning" then
    early_fraud_warnings <- sync_early_fraud_warnings env params ;;
    ret (backfill_result n n n n n n n n n n n n n n n
           (Some early_fraud_warnings) n)
  else if obj_is obj "refund" then
    refunds <- sync_refunds env params ;;
    ret (backfill_result n n n n n n n n n n n n n n n n (Some refunds))
  else if obj_is obj "checkout_sessions" then
    checkout_sessions <- sync_checkout_sessions env params ;;
    ret (backfill_result n n n (Some checkout_sessions)
           n n n n n n n n n n n n n)
  else ret (backfill_result n n n n n n n n n n n n n n n n n).

(* ================================================================== *)
(** * Further properties: the backfill operations *)
(* ================================================================== *)

(** The chunks of [chunk_array] that are full. *)
Definition full_chunks {A : Type} (l : list A) (n : nat) : list (list A) :=
  firstn (List.length l / n) (slices (List.length l) l n).

Lemma full_chunks_short {A : Type} (l : list A) (n : nat) :
  (List.length l < n)%nat -> full_chunks l n = [].
Proof.
  intro H. unfold full_chunks. rewrite Nat.div_small by exact H. reflexivity.
Qed.

Lemma full_chunks_full {A : Type} (c l : list A) (n : nat) :
  (0 < n)%nat -> List.length c = n ->
  full_chunks (c ++ l) n = c :: full_chunks l n.
Proof.
  intros Hn Hc. unfold full_chunks.
  rewrite (slices_full Hn) by exact Hc.
  rewrite length_app, Hc.
  replace (n + List.length l)%nat with (1 * n + List.length l)%nat by lia.
  rewrite Nat.div_add_l by lia. reflexivity.
Qed.

(** When the iterator fails after the items it has yielded, the loop of
    [_fetch_and_upsert] has made the upsert calls of the full chunks and
    nothing is done with the pending one. *)
Lemma fetch_loop_error (B : Type) (n : nat) (upsert : list dict -> M unit)
  (err : exn) (k : list dict -> nat -> M B) :
  (0 < n)%nat ->
  forall items chunk count w,
    (List.length chunk < n)%nat ->
    bind (fetch_loop n upsert items chunk count)
      (fun p => let '(c, s) := p in @raise unit err ;; k c s) w
    = bind (for_each upsert (full_chunks (chunk ++ items) n))
        (fun _ => raise err) w.
Proof.
  intros n_pos items.
  induction items as [| item items IH]; intros chunk count w Hlen.
  - rewrite app_nil_r, (full_chunks_short _ Hlen). reflexivity.
  - cbn [fetch_loop]. cbv zeta.
    assert (Hc : List.length (chunk ++ [item]) = S (List.length chunk))
      by (rewrite length_app; simpl; lia).
    replace (chunk ++ item :: items) with ((chunk ++ [item]) ++ items)
      by (rewrite <- app_assoc; reflexivity).
    destruct (Nat.leb n (List.length (chunk ++ [item]))) eqn:Hfull.
    + apply Nat.leb_le in Hfull.
      rewrite (full_chunks_full _ _ n_pos) by lia.
      cbn [for_each]. rewrite !bind_assoc.
      destruct (upsert (chunk ++ [item]) w) as [[e | []] w1] eqn:E.
      * rewrite (bind_inl _ _ _ E), (bind_inl _ _ _ E). reflexivity.
      * rewrite (bind_inr _ _ _ E), (bind_inr _ _ _ E).
        rewrite (IH [] (S count) w1 n_pos). reflexivity.
    + apply Nat.leb_gt in Hfull. apply IH. exact Hfull.
Qed.

(** X16. When the listing fails while [_fetch_and_upsert] is iterating it,
    the batches of 250 completed before the failure have been upserted, in
    order; the records of the incomplete last batch, fewer than 250, are
    dropped; and the listing's error reaches the caller (unless an upsert
    failed first). *)
Theorem fetch_and_upsert_keeps_full_batches :
  forall fetch upsert w stripe_list w1 err,
    fetch w = (inr stripe_list, w1) ->
    paging_error stripe_list = Some err ->
    let items := data stripe_list ++ later_pages stripe_list in
    let N := List.length items in
    exists full rest,
      chunk_array items 250 = Some (full ++ rest)
      /\ map (@List.length dict) full = repeat 250%nat (N / 250)
      /\ (List.length rest <= 1)%nat
      /\ _fetch_and_upsert fetch upsert w
         = (for_each upsert full ;; raise err) w1
      /\ ((forall c w0, In c full -> fst (upsert c w0) = inr tt) ->
          fst (_fetch_and_upsert fetch upsert w) = inl err).
Proof.
  intros fetch upsert w stripe_list w1 err Hfetch Herr items N.
  exists (full_chunks items 250), (skipn (N / 250) (slices N items 250)).
  assert (Hlen := @slices_lengths dict 250 ltac:(lia) N items (Nat.le_refl _)).
  fold N in Hlen.
  assert (Hrun : _fetch_and_upsert fetch upsert w
                 = (for_each upsert (full_chunks items 250) ;; raise err) w1).
  { unfold _fetch_and_upsert. cbv zeta. rewrite (bind_inr _ _ _ Hfetch).
    rewrite Herr. fold items.
    rewrite (@fetch_loop_error Sync 250 upsert err
               (fun c s => when (Nat.ltb 0 (List.length c)) (upsert c) ;;
                           ret {| synced := s |})
               ltac:(lia) items [] 0%nat w1 ltac:(simpl; lia)).
    - reflexivity. }
  split; [| split; [| split; [| split]]].
  - unfold chunk_array, full_chunks. fold N. rewrite firstn_skipn.
    reflexivity.
  - unfold full_chunks. fold N. rewrite <- firstn_map, Hlen.
    rewrite firstn_app, repeat_length, Nat.sub_diag. simpl.
    rewrite app_nil_r. rewrite firstn_all2 by (rewrite repeat_length; lia).
    reflexivity.
  - rewrite length_skipn.
    rewrite <- (length_map (@List.length dict)), Hlen, length_app,
      repeat_length.
    destruct (Nat.eqb (N mod 250) 0); simpl; lia.
  - exact Hrun.
  - intro Hok. rewrite Hrun. unfold bind.
    pose proof (@for_each_succeeds _ upsert (full_chunks items 250)
                  (fun x w0 Hx => Hok x w0 Hx) w1) as S.
    destruct (for_each upsert (full_chunks items 250) w1) as [[e | []] w2];
      simpl in S; [discriminate | reflexivity].
Qed.

(** A Stripe account whose product listing breaks after 300 products. *)
Definition interrupted_api : stripe_api :=
  {| retrieve := fun _ _ => inl (InvalidRequestError (Some "resource_missing"));
     list_objects := fun c =>
       match c with
       | ListObjects Product _ =>
           inr {| data := repeat product_entity 100;
                  later_pages := repeat product_entity 200;
                  paging_error := Some (StripeError "APIConnectionError") |}
       | _ => inr {| data := []; later_pages := []; paging_error := None |}
       end;
     object_str := fun _ => "" |}.

Lemma fetch_and_upsert_keeps_full_batches_witness :
  exists full rest,
    chunk_array (repeat product_entity 100 ++ repeat product_entity 200) 250
    = Some (full ++ rest)
    /\ map (@List.length dict) full = [250%nat]
    /\ sync_products (make_env interrupted_api plain_config) None empty_world
       = (for_each (fun products => ignore (_upsert_products products None))
            full ;;
          raise (StripeError "APIConnectionError"))
           (logged empty_world (ApiList (ListObjects Product VNone))).
Proof.
  destruct (@fetch_and_upsert_keeps_full_batches
              (stripe_list_call (make_env interrupted_api plain_config)
                 (ListObjects Product VNone))
              (fun products => ignore (_upsert_products products None))
              empty_world
              {| data := repeat product_entity 100;
                 later_pages := repeat product_entity 200;
                 paging_error := Some (StripeError "APIConnectionError") |}
              (logged empty_world (ApiList (ListObjects Product VNone)))
              (StripeError "APIConnectionError")
              eq_refl eq_refl)
    as [full [rest [H1 [H2 [_ [H4 _]]]]]].
  exists full, rest. split; [exact H1 |]. split; [exact H2 | exact H4].
Defined.

(** The values of [object] that [sync_backfill] acts on. *)
Definition backfill_objects : list string :=
  ["all"; "customer"; "invoice"; "price"; "product"; "subscription";
   "subscription_schedules"; "setup_intent"; "payment_method"; "dispute";
   "charge"; "payment_intent"; "plan"; "tax_id"; "credit_note";
   "early_fraud_warning"; "refund"; "checkout_sessions"].

(** The [object] a call of [sync_backfill] is about. *)
Definition backfill_object (params : option SyncBackfillParams)
  : option string :=
  match params with
  | Some p => p_object p
  | None => None
  end.

(** X17. [sync_backfill] does nothing unless it is told what to sync:
    called without parameters, without an [object], or with an [object] it
    has no branch for ([customer_with_entitlements], for one, though the
    type of the parameter lists it), it makes no call at all and returns
    the result with every count absent. *)
Theorem sync_backfill_without_object_is_idle :
  forall env params w,
    (forall o, backfill_object params = Some o -> ~ In o backfill_objects) ->
    sync_backfill env params w
    = (inr (backfill_result None None None None None None None None None None
              None None None None None None None), w).
Proof.
  intros env params w H. unfold sync_backfill. cbv zeta.
  fold (backfill_object params).
  destruct (backfill_object params) as [o |] eqn:E; [| reflexivity].
  pose proof (H o eq_refl) as Hnot. unfold obj_is.
  repeat match goal with
    | |- context [String.eqb o ?s] =>
        let Es := fresh "E" in
        destruct (String.eqb o s) eqn:Es;
        [ exfalso; apply String.eqb_eq in Es; apply Hnot; subst o;
          simpl; tauto
        | ]
    end.
  reflexivity.
Qed.

Lemma sync_backfill_without_object_is_idle_witness :
  sync_backfill (make_env catalog_api backfilling_config) None empty_world
  = (inr (backfill_result None None None None None None None None None None
            None None None None None None None), empty_world)
  /\ sync_backfill (make_env catalog_api backfilling_config)
       (Some {| p_created := VNone;
                p_object := Some "customer_with_entitlements";
                p_backfill_related_entities := Some true |}) empty_world
     = (inr (backfill_result None None None None None None None None None None
               None None None None None None None), empty_world).
Proof.
  split; apply sync_backfill_without_object_is_idle.
  - intros o E. discriminate E.
  - intros o E. inversion E. subst o. intro H. apply in_list_In in H.
    vm_compute in H. discriminate H.
Defined.

Lemma map_m_app_ret {A B : Type} (f : A -> M B) (a b : list A) w :
  map_m f (a ++ b) w
  = bind (map_m f a)
      (fun ra => bind (map_m f b) (fun rb => ret (ra ++ rb))) w.
Proof.
  revert w. induction a as [| x a IH]; intro w.
  - simpl. unfold bind, ret. destruct (map_m f b w) as [[e | rb] w1]; reflexivity.
  - simpl app. cbn [map_m]. rewrite bind_assoc.
    destruct (f x w) as [[e | y] w1] eqn:E.
    + rewrite !(bind_inl _ _ _ E). reflexivity.
    + rewrite !(bind_inr _ _ _ E). rewrite bind_assoc.
      unfold bind at 1. rewrite IH. unfold bind, ret.
      destruct (map_m f a w1) as [[e | ra] w2]; [reflexivity |].
      destruct (map_m f b w2) as [[e | rb] w3]; reflexivity.
Qed.

Lemma map_m_app {A B C : Type} (f : A -> M B) (a b : list A)
  (k : list B -> M C) w :
  bind (map_m f (a ++ b)) k w
  = bind (map_m f a)
      (fun ra => bind (map_m f b) (fun rb => k (ra ++ rb))) w.
Proof.
  unfold bind at 1. rewrite map_m_app_ret. unfold bind, ret.
  destruct (map_m f a w) as [[e | ra] w1]; [reflexivity |].
  destruct (map_m f b w1) as [[e | rb] w2]; reflexivity.
Qed.

Lemma add_synced_app (ra rb : list Sync) (n : nat) :
  add_synced (ra ++ rb) n = add_synced rb (add_synced ra n).
Proof. unfold add_synced. apply fold_left_app. Qed.

(** Going through the chunks and, within each, through its customers is
    going through the customers. *)
Lemma fold_chunks {C : Type} (f : string -> M Sync) (chunks : list (list string))
  (k : nat -> M C) :
  forall total w,
    bind (fold_m (fun total chunk =>
                    chunk_results <- map_m f chunk ;;
                    ret (add_synced chunk_results total)) chunks total) k w
    = bind (map_m f (List.concat chunks))
        (fun results => k (add_synced results total)) w.
Proof.
  induction chunks as [| c chunks IH]; intros total w.
  - reflexivity.
  - cbn [fold_m List.concat]. rewrite map_m_app, !bind_assoc.
    destruct (map_m f c w) as [[e | rc] w1] eqn:E.
    + rewrite !(bind_inl _ _ _ E). reflexivity.
    + rewrite !(bind_inr _ _ _ E).
      change (bind (ret ?a) ?k0 w1) with (k0 a w1). cbv beta.
      rewrite IH.
      destruct (map_m f (List.concat chunks) w1) as [[e | rs] w2] eqn:Es.
      * rewrite !(bind_inl _ _ _ Es). reflexivity.
      * rewrite !(bind_inr _ _ _ Es). rewrite add_synced_app. reflexivity.
Qed.

(** X18. The chunks of ten in [sync_payment_methods] leave no trace: the
    run is the SELECT of the customer ids followed by one
    [_fetch_and_upsert] of the customer's payment methods for each id, in
    the order of the SELECT, and the count returned is the sum of their
    counts.  With no customer selected, nothing is listed and the count is
    zero. *)
Theorem sync_payment_methods_lists_each_customer :
  forall env sync_params w,
    let per_customer := fun customer_id =>
      _fetch_and_upsert
        (stripe_list_call env (ListPaymentMethods (VStr customer_id)))
        (fun items =>
           ignore (_upsert_payment_methods env items
                     (params_backfill sync_params) None)) in
    sync_payment_methods env sync_params w
    = (customer_ids <- query_select_customers ;;
       results <- map_m per_customer customer_ids ;;
       ret {| synced := add_synced results 0 |}) w
    /\ (filter (fun r => negb (soft_deleted r)) (db w tbl_customers) = [] ->
        sync_payment_methods env sync_params w
        = (inr {| synced := 0 |}, logged w DbSelectCustomers)).
Proof.
  intros env sync_params w per_customer.
  assert (E : sync_payment_methods env sync_params w
              = (customer_ids <- query_select_customers ;;
                 results <- map_m per_customer customer_ids ;;
                 ret {| synced := add_synced results 0 |}) w).
  { unfold sync_payment_methods.
    destruct (query_select_customers w) as [[e | ids] w1] eqn:Eq.
    - rewrite !(bind_inl _ _ _ Eq). reflexivity.
    - rewrite !(bind_inr _ _ _ Eq).
      change (chunk_array ids 10)
        with (Some (slices (List.length ids) ids 10)).
      cbv iota. rewrite (fold_chunks per_customer).
      rewrite (@slices_concat string 10 ltac:(lia) _ ids (Nat.le_refl _)).
      reflexivity. }
  split; [exact E |]. intro Hnone. rewrite E.
  unfold query_select_customers, bind, issue, read_table, ret. simpl.
  rewrite Hnone. reflexivity.
Qed.

Lemma sync_payment_methods_lists_each_customer_witness :
  sync_payment_methods (make_env unavailable_api plain_config) None empty_world
  = (inr {| synced := 0 |}, logged empty_world DbSelectCustomers).
Proof.
  apply (proj2 (sync_payment_methods_lists_each_customer
                  (make_env unavailable_api plain_config) None empty_world)).
  reflexivity.
Defined.

(** ** The order of the listings in a full backfill *)

(** The calls that open the synchronisation of one kind of object: a
    top-level listing, or the SELECT of the customer ids. *)
Definition is_listing (o : op) : bool :=
  match o with
  | ApiList (ListObjects _ _) => true
  | DbSelectCustomers => true
  | _ => false
  end.

Definition not_listing (o : op) : Prop := is_listing o = false.

(** [in_order expected m]: the listings [m] issues are, in order, the
    first ones of [expected], and all of them when [m] returns. *)
Definition in_order {A : Type} (expected : list op) (m : M A) : Prop :=
  forall w,
  exists new,
    log (snd (m w)) = log w ++ new
    /\ (exists rest, expected = filter is_listing new ++ rest)
    /\ (forall a, fst (m w) = inr a -> filter is_listing new = expected).

Lemma in_order_ret {A : Type} (a : A) : in_order [] (ret a).
Proof.
  intro w. exists []. simpl. rewrite app_nil_r.
  split; [reflexivity |]. split; [exists []; reflexivity | reflexivity].
Qed.

Lemma in_order_bind {A B : Type} l1 l2 (m : M A) (k : A -> M B) :
  in_order l1 m -> (forall a, in_order l2 (k a)) ->
  in_order (l1 ++ l2) (bind m k).
Proof.
  intros Hm Hk w. destruct (Hm w) as [n1 [L1 [[r1 P1] S1]]].
  unfold bind. destruct (m w) as [[e | a] w1]; simpl in *.
  - exists n1. split; [exact L1 |]. split.
    + exists (r1 ++ l2). rewrite app_assoc, <- P1. reflexivity.
    + intros a Ha. discriminate Ha.
  - specialize (S1 a eq_refl).
    destruct (Hk a w1) as [n2 [L2 [[r2 P2] S2]]].
    exists (n1 ++ n2). rewrite L2, L1, app_assoc, filter_app, S1.
    split; [reflexivity |]. split.
    + exists r2. rewrite <- app_assoc, <- P2. reflexivity.
    + intros b Hb. rewrite (S2 b Hb). reflexivity.
Qed.

Lemma filter_none {A : Type} (f : A -> bool) (l : list A) :
  Forall (fun x => f x = false) l -> filter f l = [].
Proof.
  induction 1 as [| x l Hx _ IH]; [reflexivity |].
  simpl. rewrite Hx. exact IH.
Qed.

Lemma in_order_start {A : Type} (o : op) (m : M A) :
  is_listing o = true -> starts_with o not_listing m -> in_order [o] m.
Proof.
  intros Ho Hm w. destruct (Hm w) as [rest [L F]].
  exists (o :: rest). split; [exact L |].
  simpl. rewrite Ho, (filter_none is_listing F).
  split; [exists []; reflexivity | reflexivity].
Qed.

Lemma starts_with_list_call env c P :
  starts_with (ApiList c) P (stripe_list_call env c).
Proof.
  intro w. exists []. split; [| constructor].
  unfold stripe_list_call, bind, issue. simpl.
  destruct (list_objects (stripe env) c); reflexivity.
Qed.

Lemma starts_with_select_customers P :
  starts_with DbSelectCustomers P query_select_customers.
Proof.
  intro w. exists []. split; [| constructor]. reflexivity.
Qed.

Lemma uses_fetch_loop P n (upsert : list dict -> M unit) :
  (forall items, uses P (upsert items)) ->
  forall items chunk synced, uses P (fetch_loop n upsert items chunk synced).
Proof.
  intros Hu items. induction items as [| item items IH]; intros chunk synced.
  - apply uses_ret.
  - cbn [fetch_loop]. cbv zeta.
    destruct (Nat.leb n (List.length (chunk ++ [item]))).
    + apply uses_bind; [apply Hu | intro; apply IH].
    + apply IH.
Qed.

Lemma uses_fold_m {A S : Type} P (f : S -> A -> M S) (l : list A) :
  (forall s x, uses P (f s x)) -> forall s, uses P (fold_m f l s).
Proof.
  intro Hf. induction l as [| x l IH]; intro s.
  - apply uses_ret.
  - cbn [fold_m]. apply uses_bind; [apply Hf | intro; apply IH].
Qed.

Lemma uses_after_fetch P (upsert : list dict -> M unit) (l : stripe_list) :
  (forall items, uses P (upsert items)) ->
  uses P ('(chunk, synced) <-
            fetch_loop 250 upsert (data l ++ later_pages l) [] 0%nat ;;
          match paging_error l with
          | Some err => raise err
          | None => ret tt
          end ;;
          when (Nat.ltb 0 (List.length chunk)) (upsert chunk) ;;
          ret {| synced := synced |}).
Proof.
  intro Hu. apply uses_bind; [apply uses_fetch_loop; exact Hu |].
  intros [chunk synced]. apply uses_bind.
  - destruct (paging_error l); [apply uses_raise | apply uses_ret].
  - intro. apply uses_bind; [| intro; apply uses_ret].
    apply uses_when. intro. apply Hu.
Qed.

Lemma starts_with_fetch_and_upsert o P (fetch : M stripe_list)
  (upsert : list dict -> M unit) :
  starts_with o P fetch -> (forall items, uses P (upsert items)) ->
  starts_with o P (_fetch_and_upsert fetch upsert).
Proof.
  intros Hf Hu. unfold _fetch_and_upsert. cbv zeta.
  apply starts_with_bind; [exact Hf |].
  intro l. apply uses_after_fetch. exact Hu.
Qed.

Lemma uses_fetch_and_upsert P (fetch : M stripe_list)
  (upsert : list dict -> M unit) :
  uses P fetch -> (forall items, uses P (upsert items)) ->
  uses P (_fetch_and_upsert fetch upsert).
Proof.
  intros Hf Hu. unfold _fetch_and_upsert. cbv zeta.
  apply uses_bind; [exact Hf |].
  intro l. apply uses_after_fetch. exact Hu.
Qed.

Ltac listing_tac :=
  apply in_order_start; [reflexivity |];
  apply starts_with_fetch_and_upsert;
  [apply starts_with_list_call
  | intro; uses_tac ltac:(reflexivity)].

Lemma sync_payment_methods_in_order env params :
  in_order [DbSelectCustomers] (sync_payment_methods env params).
Proof.
  apply in_order_start; [reflexivity |].
  unfold sync_payment_methods. apply starts_with_bind.
  - apply starts_with_select_customers.
  - intro ids.
    change (chunk_array ids 10) with (Some (slices (List.length ids) ids 10)).
    cbv iota. apply uses_bind; [| intro; apply uses_ret].
    apply uses_fold_m. intros total chunk.
    apply uses_bind; [| intro; apply uses_ret].
    apply uses_map_m. intro customer_id.
    apply uses_fetch_and_upsert.
    + apply uses_stripe_list_call. reflexivity.
    + intro. uses_tac ltac:(reflexivity).
Qed.

(** The calls that open, one after the other, the parts of a full
    backfill; [created] is the filter of the parameters.  Tax ids are
    listed without it, and the payment methods start from the stored
    customers. *)
Definition backfill_order (created : value) : list op :=
  [ApiList (ListObjects Product created);
   ApiList (ListObjects Price created);
   ApiList (ListObjects Plan created);
   ApiList (ListObjects Customer created);
   ApiList (ListObjects Subscription created);
   ApiList (ListObjects SubscriptionSchedule created);
   ApiList (ListObjects Invoice created);
   ApiList (ListObjects Charge created);
   ApiList (ListObjects SetupIntent created);
   DbSelectCustomers;
   ApiList (ListObjects PaymentIntent created);
   ApiList (ListObjects TaxId VNone);
   ApiList (ListObjects CreditNote created);
   ApiList (ListObjects Dispute created);
   ApiList (ListObjects EarlyFraudWarning created);
   ApiList (ListObjects Refund created);
   ApiList (ListObjects CheckoutSession created)].

(** X19. A backfill of 'all' goes through the kinds of object in one fixed
    order: of the calls it issues, the top-level listings and the SELECT of
    the customer ids are the first ones of [backfill_order], in that order
    and each once; when the backfill returns they are all seventeen.  So
    products, prices and plans are listed before the customers, these
    before the subscriptions and invoices, and an error stops the run at
    the kind it occurred in. *)
Theorem sync_backfill_all_order :
  forall env p w,
    p_object p = Some "all" ->
    exists new,
      log (snd (sync_backfill env (Some p) w)) = log w ++ new
      /\ (exists rest,
            backfill_order (params_created (Some p))
            = filter is_listing new ++ rest)
      /\ (forall result,
            fst (sync_backfill env (Some p) w) = inr result ->
            filter is_listing new = backfill_order (params_created (Some p))
            /\ Forall (fun entry => snd entry <> None) result).
Proof.
  intros env p w Hobj.
  set (c := params_created (Some p)).
  assert (O : in_order (backfill_order c) (sync_backfill env (Some p))).
  { unfold sync_backfill. cbv zeta. rewrite Hobj.
    change (obj_is (Some "all") "all") with true. cbv iota.
    unfold backfill_order.
    repeat match goal with
    | |- in_order (?o :: ?l) (bind _ _) =>
        change (o :: l) with ([o] ++ l); apply in_order_bind; [| intro]
    | |- in_order [] (ret _) => apply in_order_ret
    end;
    try (first [apply sync_payment_methods_in_order | listing_tac]). }
  destruct (O w) as [new [L [Pre S]]].
  exists new. split; [exact L |]. split; [exact Pre |].
  intros result Hr. split; [exact (S result Hr) |].
  revert Hr. unfold sync_backfill. cbv zeta. rewrite Hobj.
  change (obj_is (Some "all") "all") with true. cbv iota.
  repeat match goal with
  | |- fst (bind ?m ?k ?w0) = inr _ -> _ =>
      let E := fresh "E" in
      destruct (m w0) as [[? | ?] ?] eqn:E;
      [rewrite (bind_inl _ _ _ E); intro Hr; discriminate Hr
      | rewrite (bind_inr _ _ _ E)]
  end.
  intro Hr. simpl in Hr. injection Hr as <-.
  unfold backfill_result. repeat constructor; discriminate.
Qed.

Lemma sync_backfill_all_order_witness :
  exists new,
    log (snd (sync_backfill (make_env small_api backfilling_config)
                (Some {| p_created := VNone;
                         p_object := Some "all";
                         p_backfill_related_entities := None |})
                empty_world))
    = log empty_world ++ new
    /\ (exists rest,
          backfill_order VNone = filter is_listing new ++ rest)
    /\ (forall result,
          fst (sync_backfill (make_env small_api backfilling_config)
                 (Some {| p_created := VNone;
                          p_object := Some "all";
                          p_backfill_related_entities := None |})
                 empty_world) = inr result ->
          filter is_listing new = backfill_order VNone
          /\ Forall (fun entry => snd entry <> None) result).
Proof.
  apply (sync_backfill_all_order
           (make_env small_api backfilling_config)
           {| p_created := VNone;
              p_object := Some "all";
              p_backfill_related_entities := None |}
           empty_world).
  reflexivity.
Defined.

(** ** Upserts that do not backfill *)

(** The calls a backfill is made of: the search for the ids that are not
    stored, and the retrieval of one object. *)
Definition looks_up (o : op) : bool :=
  match o with
  | ApiRetrieve _ _ => true
  | DbFindMissing _ _ => true
  | _ => false
  end.

(** The [backfill_related_entities] argument of an upsert method, for the
    methods that have the parameter. *)
Definition backfill_argument (c : upsert_call) : option (option bool) :=
  match c with
  | UpsertCharges _ b => Some b
  | UpsertCreditNotes _ b => Some b
  | UpsertCheckoutSessions _ b => Some b
  | UpsertCheckoutSessionLineItems _ _ => None
  | UpsertEarlyFraudWarnings _ b => Some b
  | UpsertRefunds _ b => Some b
  | UpsertReviews _ b => Some b
  | UpsertCustomers _ => None
  | UpsertDisputes _ b => Some b
  | UpsertInvoices _ b => Some b
  | UpsertInvoicePayments _ b => Some b
  | UpsertPlans _ b => Some b
  | UpsertPrices _ b => Some b
  | UpsertProducts _ => None
  | UpsertPaymentIntents _ b => Some b
  | UpsertPaymentMethods _ b => Some b
  | UpsertSetupIntents _ b => Some b
  | UpsertTaxIds _ b => Some b
  | UpsertSubscriptionItems _ => None
  | UpsertSubscriptionSchedules _ b => Some b
  | UpsertSubscriptions _ b => Some b
  | UpsertFeatures _ => None
  | UpsertActiveEntitlements _ _ b => Some b
  end.

Definition checkout_call (c : upsert_call) : bool :=
  match c with
  | UpsertCheckoutSessions _ _ => true
  | UpsertCheckoutSessionLineItems _ _ => true
  | _ => false
  end.

(** The price ids [_upsert_checkout_session_line_items] backfills. *)
Definition line_item_price_ids (env : environment) (line_items : list dict)
  : list string :=
  filter (fun pid => negb (String.eqb pid ""))
    (flat_map (fun item => match line_item_price_id env item with
                           | Some pid => [pid]
                           | None => []
                           end) line_items).

(** X20. With the backfill of related entities off (the argument false,
    or absent with the configuration off), an upsert method other than
    those of the checkout sessions never searches for missing ids and never
    retrieves a single object.  The line items of a checkout session are
    the exception: their prices are looked up first whatever the
    configuration. *)
Theorem upsert_without_backfill_looks_nothing_up :
  forall env ts w,
    (forall c,
       checkout_call c = false ->
       (forall b, backfill_argument c = Some b ->
                  backfill_enabled env b = false) ->
       exists new,
         log (snd (run_upsert env c ts w)) = log w ++ new
         /\ Forall (fun o => looks_up o = false) new)
    /\ (forall line_items session,
          exists rest,
            log (snd (run_upsert env
                        (UpsertCheckoutSessionLineItems line_items session)
                        ts w))
            = log w
              ++ DbFindMissing tbl_prices
                   (line_item_price_ids env line_items)
              :: rest).
Proof.
  intros env ts w. split.
  - intros c Hc Hb.
    assert (U : uses (fun o => looks_up o = false) (run_upsert env c ts)).
    { destruct c; try discriminate Hc; simpl in Hb;
        try (pose proof (Hb _ eq_refl) as Hoff); clear Hb Hc;
        unfold run_upsert;
        uses_tac ltac:(first [reflexivity | congruence]). }
    destruct (U w) as [new [L [F _]]]. exists new. split; assumption.
  - intros line_items session.
    assert (S : starts_with
                  (DbFindMissing tbl_prices
                     (line_item_price_ids env line_items))
                  (fun _ => True)
                  (run_upsert env
                     (UpsertCheckoutSessionLineItems line_items session) ts)).
    { unfold run_upsert, _upsert_checkout_session_line_items. cbv zeta.
      fold (line_item_price_ids env line_items).
      apply starts_with_bind.
      - unfold _backfill_prices. apply starts_with_bind.
        + intro w0. exists []. split; [reflexivity | constructor].
        + intro. uses_tac ltac:(exact I).
      - intro. uses_tac ltac:(exact I). }
    destruct (S w) as [rest [L _]]. exists rest. exact L.
Qed.

Lemma upsert_without_backfill_looks_nothing_up_witness :
  exists new,
    log (snd (run_upsert (make_env empty_api plain_config)
                (UpsertInvoices
                   [[("id", VStr "in_1"); ("customer", VStr "cus_1");
                     ("subscription", VStr "sub_1")]] None)
                None empty_world))
    = log empty_world ++ new
    /\ Forall (fun o => looks_up o = false) new.
Proof.
  apply (proj1 (upsert_without_backfill_looks_nothing_up
                  (make_env empty_api plain_config) None empty_world)
           (UpsertInvoices
              [[("id", VStr "in_1"); ("customer", VStr "cus_1");
                ("subscription", VStr "sub_1")]] None)).
  - reflexivity.
  - intros b E. inversion E. reflexivity.
Defined.

(* ================================================================== *)
(** * Further properties: stale events and newer rows *)
(* ================================================================== *)

(** The statements of a run of [process_event] that test no sync
    timestamp, by the event types that reach them and the tables they
    write: the UPDATE that flags subscription items, the DELETE of active
    entitlements, the backfill of prices and products for the line items of
    a checkout session (upserts without timestamp), and the deletes of the
    deletion events and of a refetch answered [resource_missing]. *)
Definition unguarded_tables : list (list string * list table) :=
  [(subscription_events, [tbl_subscription_items]);
   (["entitlements.active_entitlement_summary.updated"],
    [tbl_active_entitlements]);
   (checkout_session_events, [tbl_prices; tbl_products]);
   (["customer.tax_id.deleted"], [tbl_tax_ids]);
   ("product.deleted" :: product_events, [tbl_products]);
   ("price.deleted" :: price_events, [tbl_prices]);
   ("plan.deleted" :: plan_events, [tbl_plans])].

Definition unguarded (event_type : string) (t : table) : Prop :=
  exists events tables,
    In (events, tables) unguarded_tables
    /\ In event_type events /\ In t tables.

(** Calls that cannot alter a row of table [t] stored with the timestamp
    [t1]: anything on another table, and upserts into [t] that carry an
    older timestamp. *)
Definition below (t : table) (t1 : timestamp) (o : op) : Prop :=
  match o with
  | DbUpsert t' _ _ ts => t' <> t \/ exists t2, ts = Some t2 /\ (t2 < t1)%Z
  | DbDelete t' _ => t' <> t
  | DbMarkItemsDeleted _ => tbl_subscription_items <> t
  | DbDeleteEntitlementsExcept _ _ => tbl_active_entitlements <> t
  | _ => True
  end.

Lemma apply_op_below (t : table) (id : string) (r : row) (t1 : timestamp)
  (o : op) (s : store) :
  below t t1 o ->
  find_row id (s t) = Some r ->
  last_synced_at r = Some t1 ->
  find_row id (apply_op o s t) = Some r.
Proof.
  intros Ho Hf Hl. destruct o; simpl in *; try exact Hf.
  - destruct (upsert_many entries schema ts (s t0)) as [[rows' written] |]
      eqn:Eu; [| exact Hf].
    destruct (table_eq_dec t0 t) as [E | N].
    + subst t0. rewrite set_table_same.
      destruct Ho as [Ho | [t2 [Ets Hlt]]]; [congruence |]. subst ts.
      eapply upsert_many_guard; eauto.
    + rewrite set_table_other by exact N. exact Hf.
  - rewrite set_table_other by exact Ho. exact Hf.
  - rewrite set_table_other by exact Ho. exact Hf.
  - rewrite set_table_other by exact Ho. exact Hf.
Qed.

Lemma replay_below (t : table) (id : string) (r : row) (t1 : timestamp)
  (ops : list op) (s : store) :
  Forall (below t t1) ops ->
  find_row id (s t) = Some r ->
  last_synced_at r = Some t1 ->
  find_row id (replay ops s t) = Some r.
Proof.
  intros F. revert s. induction F as [| o ops Ho F IH]; intros s Hf Hl;
    [exact Hf |].
  simpl. apply IH; [| exact Hl].
  eapply apply_op_below; eauto.
Qed.

Lemma unguarded_intro events tables event_type t :
  In (events, tables) unguarded_tables ->
  In event_type events -> In t tables -> unguarded event_type t.
Proof. intros. exists events, tables. auto. Qed.

Ltac event_listed :=
  first [ apply (proj1 (in_list_In _ _)); assumption
        | right; apply (proj1 (in_list_In _ _)); assumption
        | left; symmetry; apply String.eqb_eq; assumption ].

Ltac is_unguarded :=
  first
    [ solve [ apply (@unguarded_intro subscription_events
                       [tbl_subscription_items]);
              [simpl; tauto | event_listed | simpl; tauto] ]
    | solve [ apply (@unguarded_intro
                       ["entitlements.active_entitlement_summary.updated"]
                       [tbl_active_entitlements]);
              [simpl; tauto | event_listed | simpl; tauto] ]
    | solve [ apply (@unguarded_intro checkout_session_events
                       [tbl_prices; tbl_products]);
              [simpl; tauto | event_listed | simpl; tauto] ]
    | solve [ apply (@unguarded_intro ["customer.tax_id.deleted"]
                       [tbl_tax_ids]);
              [simpl; tauto | event_listed | simpl; tauto] ]
    | solve [ apply (@unguarded_intro ("product.deleted" :: product_events)
                       [tbl_products]);
              [simpl; tauto | event_listed | simpl; tauto] ]
    | solve [ apply (@unguarded_intro ("price.deleted" :: price_events)
                       [tbl_prices]);
              [simpl; tauto | event_listed | simpl; tauto] ]
    | solve [ apply (@unguarded_intro ("plan.deleted" :: plan_events)
                       [tbl_plans]);
              [simpl; tauto | event_listed | simpl; tauto] ] ].

(** [side] for a run whose upserts carry a timestamp older than [t1] and
    whose event type does not reach an unguarded statement on [t]. *)
Ltac below_side Hung Hts :=
  solve [ exact I
        | right; eexists; split; [reflexivity | apply Hts]
        | left; let Heq := fresh "Heq" in
                intro Heq; apply Hung; rewrite <- Heq; is_unguarded
        | let Heq := fresh "Heq" in
          intro Heq; apply Hung; rewrite <- Heq; is_unguarded ].

Lemma handler_of_below event_type t t1 r final upsert del :
  handler_of event_type = HEntity r final upsert del ->
  ~ unguarded event_type t ->
  forall env e ts,
    (ts < t1)%Z -> uses (below t t1) (upsert env e (Some ts)).
Proof.
  unfold handler_of.
  repeat match goal with
    | |- context [if ?b then _ else _] =>
        let E := fresh "E" in destruct b eqn:E
    end;
    intros H Hung env e ts Hts; try discriminate H;
    inversion H; subst;
    uses_tac ltac:(below_side Hung Hts).
Qed.

Lemma handler_of_deletes event_type :
  match handler_of event_type with
  | HEntity _ _ _ (Some t) | HDelete t => unguarded event_type t
  | HEntitlementSummary => unguarded event_type tbl_active_entitlements
  | _ => True
  end.
Proof.
  unfold handler_of.
  repeat match goal with
    | |- context [if ?b then _ else _] =>
        let E := fresh "E" in destruct b eqn:E
    end;
    first [exact I | is_unguarded].
Qed.

Lemma uses_bind_run {A B : Type} (P : op -> Prop) (m : M A)
  (k : A -> M B) :
  uses P m ->
  (forall a, (exists w w', m w = (inr a, w')) -> uses P (k a)) ->
  uses P (bind m k).
Proof.
  intros Hm Hk w. destruct (Hm w) as [n1 [L1 [F1 D1]]].
  unfold bind. destruct (m w) as [[e | a] w1] eqn:E; simpl in *.
  - exists n1. auto.
  - destruct (Hk a (ex_intro _ w (ex_intro _ w1 E)) w1) as [n2 [L2 [F2 D2]]].
    exists (n1 ++ n2). rewrite L2, L1, D2, D1, app_assoc, replay_app.
    split; [reflexivity |]. split; [apply Forall_app; auto | reflexivity].
Qed.

Lemma entitlements_in_effect_refetched env ev w entitlements w1 :
  entitlements_in_effect env ev w = (inr (entitlements, true), w1) ->
  entitlements_refetched env ev.
Proof.
  unfold entitlements_in_effect, entitlements_refetched. cbv zeta.
  unfold py_item at 1.
  destruct (lookup_key "entitlements" (ev_object ev)) as [ents |];
    [| discriminate].
  change (bind (ret ents) ?k w) with (k ents w). cbv beta.
  destruct (revalidate_objects_via_stripe_api (cfg env)) as [l |];
    [| intro H; inversion H].
  destruct (in_list "entitlements" l) eqn:Hin; [| intro H; inversion H].
  unfold py_item.
  destruct (lookup_key "customer" (ev_object ev)) as [z |]; [| discriminate].
  intros _. split; [discriminate |]. split; [discriminate |].
  exists l. split; [reflexivity |]. apply in_list_In. exact Hin.
Qed.

Lemma process_event_below env ev t t1 :
  ~ unguarded (ev_type ev) t ->
  (fromtimestamp (clk env) (ev_created ev) < t1)%Z ->
  (event_refetch_allowed env ev -> (utcnow (clk env) < t1)%Z) ->
  uses (below t t1) (process_event env ev).
Proof.
  intros Hung Hcreated Hnow.
  rewrite process_event_route.
  pose proof (handler_of_deletes (ev_type ev)) as Hdel.
  unfold event_refetch_allowed in Hnow.
  destruct (handler_of (ev_type ev)) as [r final upsert del | | t' | |] eqn:Hh;
    cbn [run_handler].
  - assert (U : uses (below t t1)
                  (entity_branch env ev r final (upsert env))).
    { unfold entity_branch.
      apply uses_bind_run;
        [uses_tac ltac:(exact I)
        | intros [entity refetched] [w0 [w1 Hrun]]].
      apply uses_bind; [uses_tac ltac:(exact I) | intro].
      apply uses_call_get_sync_timestamp.
      eapply handler_of_below; [exact Hh | exact Hung |].
      destruct refetched; [| exact Hcreated].
      apply Hnow. eapply fetch_or_use_refetched. exact Hrun. }
    destruct del as [t' |]; [| exact U].
    apply uses_try_except; [exact U | intro err].
    uses_tac ltac:(solve [intro Heq; apply Hung; rewrite <- Heq; exact Hdel]).
  - uses_tac ltac:(solve [right; eexists; split;
                          [reflexivity | exact Hcreated]]).
  - uses_tac ltac:(solve [intro Heq; apply Hung; rewrite <- Heq; exact Hdel]).
  - unfold process_entitlement_summary.
    apply uses_bind_run;
      [uses_tac ltac:(exact I)
      | intros [entitlements refetched] [w0 [w1 Hrun]]].
    assert (Hts : (_get_sync_timestamp env ev refetched < t1)%Z).
    { destruct refetched; [| exact Hcreated].
      apply Hnow. eapply entitlements_in_effect_refetched. exact Hrun. }
    uses_tac ltac:(solve [ exact I
                         | right; eexists; split; [reflexivity | exact Hts]
                         | left; discriminate
                         | intro Heq; apply Hung; rewrite <- Heq;
                           exact Hdel ]).
  - apply uses_raise.
Qed.

(** X21. A stale event does not alter a newer row.  When a row of any
    table carries a sync timestamp later than the event's creation time
    (and later than the current time, in case the run refetches), the run
    of [process_event], whatever its outcome, leaves the row exactly as it
    was, unless the event type reaches a statement that tests no timestamp
    on that table: the flagging of subscription items (subscription
    events), the removal of active entitlements (entitlement summary), the
    backfill of prices and products (checkout-session events), or a delete
    (deletion events, and product, price and plan events whose refetch
    answers [resource_missing]). *)
Theorem stale_event_leaves_newer_rows :
  forall env ev w t id r t1,
    ~ unguarded (ev_type ev) t ->
    find_row id (db w t) = Some r ->
    last_synced_at r = Some t1 ->
    (fromtimestamp (clk env) (ev_created ev) < t1)%Z ->
    (event_refetch_allowed env ev -> (utcnow (clk env) < t1)%Z) ->
    find_row id (db (snd (process_event env ev w)) t) = Some r.
Proof.
  intros env ev w t id r t1 Hung Hf Hl Hcreated Hnow.
  destruct (@process_event_below env ev t t1 Hung Hcreated Hnow w)
    as [new [_ [F D]]].
  rewrite D. eapply replay_below; eauto.
Qed.

Lemma stale_event_leaves_newer_rows_witness :
  let env := make_env small_api revalidating_config in
  let w' := snd (process_event env charge_succeeded_event
                   world_with_charges) in
  find_row "ch_1" (db w' tbl_charges)
  = Some {| row_id := "ch_1";
            row_fields := project (charge_schema test_schemas)
                            [("id", VStr "ch_1");
                             ("status", VStr "succeeded")];
            last_synced_at := Some 10%Z |}.
Proof.
  cbv zeta.
  apply (@stale_event_leaves_newer_rows
           (make_env small_api revalidating_config) charge_succeeded_event
           world_with_charges tbl_charges "ch_1" _ 10%Z).
  - intros [events [tables [Hin [He Ht]]]]. simpl in Hin.
    repeat (destruct Hin as [E | Hin];
            [inversion E; subst events tables; clear E; simpl in Ht;
             intuition discriminate |]).
    contradiction.
  - reflexivity.
  - reflexivity.
  - reflexivity.
  - intros [_ [Hfinal _]]. specialize (Hfinal _ eq_refl).
    vm_compute in Hfinal. discriminate Hfinal.
Defined.

(* ================================================================== *)
(** * Further properties: the backfill path and sync timestamps *)
(* ================================================================== *)

(** A call is [untimed] unless it is an upsert that carries a sync
    timestamp. *)
Definition untimed (o : op) : Prop :=
  match o with
  | DbUpsert _ _ _ (Some _) => False
  | _ => True
  end.

Lemma sync_payment_methods_untimed env params :
  uses untimed (sync_payment_methods env params).
Proof.
  unfold sync_payment_methods.
  apply uses_bind; [uses_tac ltac:(exact I) | intro ids].
  change (chunk_array ids 10) with (Some (slices (List.length ids) ids 10)).
  cbv iota. apply uses_bind; [| intro; apply uses_ret].
  apply uses_fold_m. intros total chunk.
  apply uses_bind; [| intro; apply uses_ret].
  apply uses_map_m. intro customer_id.
  apply uses_fetch_and_upsert.
  - apply uses_stripe_list_call. exact I.
  - intro. uses_tac ltac:(exact I).
Qed.

Ltac untimed_listing :=
  first
    [ apply sync_payment_methods_untimed
    | apply uses_fetch_and_upsert;
      [ apply uses_stripe_list_call; exact I
      | intro; uses_tac ltac:(exact I) ] ].

Lemma sync_backfill_untimed env params :
  uses untimed (sync_backfill env params).
Proof.
  unfold sync_backfill. cbv zeta.
  repeat match goal with
    | |- context [if ?b then _ else _] => destruct b
    end;
    repeat first [ apply uses_ret
                 | apply uses_bind; [untimed_listing | intro] ].
Qed.

Lemma sync_single_entity_untimed env stripe_id :
  uses untimed (sync_single_entity env stripe_id).
Proof. uses_tac ltac:(exact I). Qed.

(** X22. The backfill path supplies no sync timestamp: no upsert issued
    by [sync_backfill] (whatever the object asked for) or by
    [sync_single_entity], the backfills of related entities included,
    carries one. *)
Theorem backfill_path_supplies_no_timestamp :
  forall env w t entries schema ts,
    (forall params new,
        log (snd (sync_backfill env params w)) = log w ++ new ->
        In (DbUpsert t entries schema ts) new -> ts = None)
    /\ (forall stripe_id new,
          log (snd (sync_single_entity env stripe_id w)) = log w ++ new ->
          In (DbUpsert t entries schema ts) new -> ts = None).
Proof.
  intros env w t entries schema ts.
  assert (G : forall new, Forall untimed new ->
                          In (DbUpsert t entries schema ts) new -> ts = None).
  { intros new F Hin. rewrite Forall_forall in F.
    specialize (F _ Hin). destruct ts; [contradiction | reflexivity]. }
  split.
  - intros params new L.
    destruct (sync_backfill_untimed env params w) as [new' [L' [F _]]].
    rewrite L' in L. apply app_inv_head in L. subst new'. apply G. exact F.
  - intros stripe_id new L.
    destruct (sync_single_entity_untimed env stripe_id w) as [new' [L' [F _]]].
    rewrite L' in L. apply app_inv_head in L. subst new'. apply G. exact F.
Qed.

Lemma backfill_path_supplies_no_timestamp_witness :
  let run := sync_single_entity (make_env small_api backfilling_config)
               "in_1" empty_world in
  let write :=
    DbUpsert tbl_invoices
      [[("id", VStr "in_1"); ("object", VStr "invoice");
        ("customer", VStr "cus_2")]]
      (invoice_schema test_schemas) None in
  fst run = inr tt
  /\ In write (log (snd run))
  /\ In (DbUpsert tbl_customers
           [[("id", VStr "cus_2"); ("object", VStr "customer")]]
           customer_schema None) (log (snd run))
  /\ @None timestamp = None.
Proof.
  cbv zeta. split; [reflexivity |]. split; [| split].
  - vm_compute. repeat (first [left; reflexivity | right]).
  - vm_compute. repeat (first [left; reflexivity | right]).
  - apply (proj2 (@backfill_path_supplies_no_timestamp
                    (make_env small_api backfilling_config) empty_world
                    tbl_invoices
                    [[("id", VStr "in_1"); ("object", VStr "invoice");
                      ("customer", VStr "cus_2")]]
                    (invoice_schema test_schemas) None)
             "in_1"
             (log (snd (sync_single_entity
                          (make_env small_api backfilling_config)
                          "in_1" empty_world)))).
    + reflexivity.
    + vm_compute. repeat (first [left; reflexivity | right]).
Defined.
